(** * migrate-fun-bot: the detection and deduplication pipeline

    A shallow embedding of [src/tracker.js] (the alert ledger,
    [getMigrationsToAlert] and [clearTracking]), of [parseTimeToMinutes]
    and the time pattern of [scrape] from [src/scraper.js], of the
    annotation step and of [checkMigrations] of [src/index.js] and of
    the colour and the time text of [src/discord.js], followed by the
    properties of the design
    document that concern them and by further properties of the code.
    Line numbers for the tracker and the scraper are those of the source
    file that holds the two one after the other.

    Conventions of the embedding.
    - JavaScript numbers are modelled exactly: epoch milliseconds
      ([Date.now()], ledger values) as [Z], minutes as [Q].  [NaN], the
      infinities and rounding of integers above 2^53 are outside the model.
    - JavaScript strings are modelled as [string], read as sequences of
      code units below 256.
    - A property that is [null], [undefined] or missing is [None] for the
      string fields; [minutesUntil] keeps the distinction.
    - The ledger, a plain object used as a dictionary, is a
      [gmap string Z].
    - What [fs], [JSON], [console] and [Date.now] answer is given by a
      [World], threaded through a state-and-exception monad; [JSON.parse]
      and [JSON.stringify] are parameters. *)

From Stdlib Require Import ZArith QArith Qround Lqa Lia List Ascii String.
From stdpp Require Import base gmap strings list fin_maps pretty.

Close Scope Q_scope.
Open Scope Z_scope.

(** ** JavaScript values used by the tracker *)

Module JS.

(** A number-valued property that may be missing. *)
Inductive num : Type :=
| Undefined
| Null
| Number (q : Q).

(** Truthiness of a string-valued property: [null], [undefined] and the
    empty string are falsy. *)
Definition truthy (v : option string) : bool :=
  match v with
  | None => false
  | Some s => negb (String.eqb s "")
  end.

(** Truthiness of a finite number: everything but zero. *)
Definition truthyZ (n : Z) : bool := negb (n =? 0).

(** [a || b] on string-valued properties. *)
Definition or (a b : option string) : option string :=
  if truthy a then a else b.

(** [a > b], [a <= b] on finite numbers. *)
Definition gt (a b : Q) : bool := negb (Qle_bool a b).
Definition le (a b : Q) : bool := Qle_bool a b.

End JS.

(** ** The tracker ([src/tracker.js]) *)

Module Tracker.

(** One scraped candidate, with the fields the pipeline reads.
    [minutesUntil] is added by [index.js] before the tracker runs. *)
Record Migration : Type := mkMigration {
  id : option string;
  address : option string;
  name : option string;
  timeText : option string;
  debug : bool;
  minutesUntil : JS.num
}.

Inductive Tier : Type := imminent | soon | upcoming | scheduled.

#[global] Instance Tier_eq_dec : EqDecision Tier.
Proof. solve_decision. Defined.

(** The string a tier is written as in the ledger key. *)
Definition tierName (t : Tier) : string :=
  match t with
  | imminent => "imminent"
  | soon => "soon"
  | upcoming => "upcoming"
  | scheduled => "scheduled"
  end.

(** The element pushed on [toAlert]: the migration spread, with
    [alertTier] and [minutesUntil] added. *)
Record Alert : Type := mkAlert {
  migration : Migration;
  alertTier : Tier;
  alertMinutes : Q
}.

(** Tier of a known number of minutes (lines 78-80). *)
Definition tierOf (minutesUntil : Q) : Tier :=
  if JS.le minutesUntil 5 then imminent
  else if JS.le minutesUntil 15 then soon
  else if JS.le minutesUntil 30 then upcoming
  else scheduled.

(** [migration.id || migration.address], the left operand of line 66:
    the identifier of the entity, its [id] or, failing that, its
    [address]. *)
Definition identifier (m : Migration) : option string :=
  JS.or (id m) (address m).

(** [migration.id || migration.address || migration.name] (line 66). *)
Definition entityId (m : Migration) : option string :=
  JS.or (identifier m) (name m).


(** The template literal of line 82. *)
Definition alertKey (id : string) (tier : Tier) : string :=
  id +:+ "_" +:+ tierName tier.

(** Ten minutes and one day, in milliseconds. *)
Definition cooldownMs : Z := 10 * 60 * 1000.
Definition retentionMs : Z := 24 * 60 * 60 * 1000.

(** The test of lines 85-89: fire unless the key has a truthy entry
    younger than ten minutes. *)
Definition shouldFire (seen : gmap string Z) (key : string) (now : Z) : bool :=
  match seen !! key with
  | Some lastAlert =>
      if JS.truthyZ lastAlert
      then negb (now - lastAlert <? cooldownMs)
      else true
  | None => true
  end.

(** [seen[alertKey] = now] (line 92). *)
Definition record (seen : gmap string Z) (key : string) (now : Z) : gmap string Z :=
  <[key := now]> seen.

(** What one observation leads to: the key to test and the alert to
    emit, or nothing when lines 64-75 skip it. *)
Definition candidate (thresholdMinutes : Q) (m : Migration) : option (string * Alert) :=
  if debug m then None
  else
    let id := entityId m in
    if negb (JS.truthy id) then None
    else
      match id, minutesUntil m with
      | Some id, JS.Number mu =>
          if JS.gt mu thresholdMinutes then None
          else
            let tier := tierOf mu in
            Some (alertKey id tier, mkAlert m tier mu)
      | _, _ => None
      end.

(** One iteration of the loop of lines 62-99, on the pair of the ledger
    and the list of alerts built so far. *)
Definition visit (now : Z) (thresholdMinutes : Q)
    (st : gmap string Z * list Alert) (m : Migration) : gmap string Z * list Alert :=
  match candidate thresholdMinutes m with
  | None => st
  | Some (key, a) =>
      if shouldFire (fst st) key now
      then (record (fst st) key now, snd st ++ [a])
      else st
  end.

(** The whole loop. *)
Definition scan (now : Z) (thresholdMinutes : Q)
    (st : gmap string Z * list Alert) (migrations : list Migration)
    : gmap string Z * list Alert :=
  fold_left (visit now thresholdMinutes) migrations st.

(** The same loop as a recursion on the list, returning the ledger and
    the alerts pushed from this point on (see [scan_emit]). *)
Fixpoint emit (now : Z) (thresholdMinutes : Q) (seen : gmap string Z)
    (migrations : list Migration) : gmap string Z * list Alert :=
  match migrations with
  | [] => (seen, [])
  | m :: rest =>
      match candidate thresholdMinutes m with
      | None => emit now thresholdMinutes seen rest
      | Some (key, a) =>
          if shouldFire seen key now
          then
            let r := emit now thresholdMinutes (record seen key now) rest in
            (fst r, a :: snd r)
          else emit now thresholdMinutes seen rest
      end
  end.

(** The clean-up of lines 102-107: entries older than a day go. *)
Definition evict (now : Z) (seen : gmap string Z) : gmap string Z :=
  let oneDayAgo := now - retentionMs in
  filter (fun kv : string * Z => ¬ (snd kv < oneDayAgo)) seen.

(** Lines 59-107 on the ledger that was loaded: the ledger to save and
    the alerts to return. *)
Definition detect (seen : gmap string Z) (now : Z)
    (migrations : list Migration) (thresholdMinutes : Q)
    : gmap string Z * list Alert :=
  let st := scan now thresholdMinutes (seen, []) migrations in
  (evict now (fst st), snd st).

(** The key an emitted alert was recorded under. *)
Definition keyOf (a : Alert) : option string :=
  match entityId (migration a) with
  | Some id => Some (alertKey id (alertTier a))
  | None => None
  end.

(** The (entityId, tier) pair of an emitted alert. *)
Definition pairOf (a : Alert) : option string * Tier :=
  (entityId (migration a), alertTier a).

(** *** The backing store and the file-system calls

    The tracker talks to the outside through [fs], [JSON], [console]
    and [Date.now].  A [World] records what these calls answer: whether
    [DATA_DIR] exists, what [fs.mkdirSync] and [fs.writeFileSync] throw
    (if anything), the state of [SEEN_FILE], the clock and the console
    output. *)

Inductive File : Type :=
| Unreadable (err : string)   (* [fs.readFileSync] throws [err] *)
| Readable (data : string).   (* [fs.readFileSync] returns [data] *)

(** How [fs.writeFileSync] fails: when it opens the file, which is then
    left as it was, or while it writes, after the file was truncated
    and the first [written] characters of the data reached it. *)
Inductive WriteFailure : Type :=
| OpenFails (err : string)
| WriteFails (err : string) (written : nat).

Definition failureMessage (f : WriteFailure) : string :=
  match f with
  | OpenFails err => err
  | WriteFails err _ => err
  end.

Record World : Type := mkWorld {
  dataDir : bool;
  mkdirError : option string;
  seenFile : option File;
  writeError : option WriteFailure;
  clock : Z;
  console : list string
}.

Inductive Result (A : Type) : Type :=
| Ok (a : A)
| Throw (err : string).
Arguments Ok {A} a.
Arguments Throw {A} err.

(** Computations that read and change the world and may throw. *)
Definition M (A : Type) : Type := World -> Result A * World.

#[global] Instance M_ret : MRet M := fun A a w => (Ok a, w).
#[global] Instance M_bind : MBind M := fun A B f m w =>
  match m w with
  | (Ok a, w') => f a w'
  | (Throw e, w') => (Throw e, w')
  end.

Definition throw {A} (err : string) : M A := fun w => (Throw err, w).

(** [try { body } catch (error) { handler(error) }]. *)
Definition tryCatch {A} (body : M A) (handler : string -> M A) : M A :=
  fun w =>
    match body w with
    | (Ok a, w') => (Ok a, w')
    | (Throw e, w') => handler e w'
    end.

Definition existsSync_DATA_DIR : M bool := fun w => (Ok (dataDir w), w).

Definition mkdirSync_DATA_DIR : M unit := fun w =>
  match mkdirError w with
  | Some e => (Throw e, w)
  | None =>
      (Ok (), mkWorld true (mkdirError w) (seenFile w) (writeError w)
                      (clock w) (console w))
  end.

Definition existsSync_SEEN_FILE : M bool := fun w =>
  (Ok (bool_decide (is_Some (seenFile w))), w).

Definition readFileSync_SEEN_FILE : M string := fun w =>
  match seenFile w with
  | Some (Readable data) => (Ok data, w)
  | Some (Unreadable e) => (Throw e, w)
  | None => (Throw "ENOENT", w)
  end.

Definition writeFileSync_SEEN_FILE (data : string) : M unit := fun w =>
  match writeError w with
  | Some (OpenFails e) => (Throw e, w)
  | Some (WriteFails e written) =>
      (Throw e, mkWorld (dataDir w) (mkdirError w)
                        (Some (Readable (String.substring 0 written data)))
                        (writeError w) (clock w) (console w))
  | None =>
      (Ok (), mkWorld (dataDir w) (mkdirError w) (Some (Readable data))
                      (writeError w) (clock w) (console w))
  end.

Definition console_error (msg : string) : M unit := fun w =>
  (Ok (), mkWorld (dataDir w) (mkdirError w) (seenFile w) (writeError w)
                  (clock w) (console w ++ [msg])).

Definition Date_now : M Z := fun w => (Ok (clock w), w).

(** The world when the clock has moved on to [now]. *)
Definition atTime (now : Z) (w : World) : World :=
  mkWorld (dataDir w) (mkdirError w) (seenFile w) (writeError w) now (console w).

(** Computations that leave a part [f] of the world alone. *)
Definition keeps {A X} (f : World -> X) (m : M A) : Prop :=
  forall w r w', m w = (r, w') -> f w' = f w.

(** Computations that leave the clock alone. *)
Definition keepsClock {A} (m : M A) : Prop :=
  forall w r w', m w = (r, w') -> clock w' = clock w.

Section WithJSON.

(** [JSON.parse] restricted to the ledger's shape: an error message
    when it throws, the ledger otherwise; and [JSON.stringify].  Text
    that parses to something other than an object of numbers is outside
    the model. *)
Variable JSON_parse : string -> string + gmap string Z.
Variable JSON_stringify : gmap string Z -> string.

Definition parseJSON (data : string) : M (gmap string Z) :=
  match JSON_parse data with
  | inl e => throw e
  | inr v => mret v
  end.

(** A backing store that holds no ledger: [SEEN_FILE] is missing,
    cannot be read, or holds text that [JSON.parse] rejects. *)
Definition noLedger (w : World) : Prop :=
  seenFile w = None \/
  (exists e, seenFile w = Some (Unreadable e)) \/
  (exists data e, seenFile w = Some (Readable data) /\ JSON_parse data = inl e).

(** Lines 15-19. *)
Definition ensureDataDir : M unit :=
  b ← existsSync_DATA_DIR;
  if negb b then mkdirSync_DATA_DIR else mret ().

(** Lines 24-35.  The [try] block yields [Some v] when it returns [v]
    and [None] when control leaves it at its end. *)
Definition loadSeenMigrations : M (gmap string Z) :=
  ensureDataDir;;
  r ← tryCatch (A := option (gmap string Z))
        (b ← existsSync_SEEN_FILE;
         if (b : bool) then
           data ← readFileSync_SEEN_FILE;
           v ← parseJSON data;
           mret (Some v)
         else mret None)
        (fun error =>
           console_error ("[Tracker] Error loading seen migrations: " +:+ error);;
           mret None);
  match r with
  | Some v => mret v
  | None => mret ∅
  end.

(** Lines 40-47. *)
Definition saveSeenMigrations (seen : gmap string Z) : M unit :=
  ensureDataDir;;
  tryCatch
    (writeFileSync_SEEN_FILE (JSON_stringify seen))
    (fun error =>
       console_error ("[Tracker] Error saving seen migrations: " +:+ error)).

(** Lines 57-112. *)
Definition getMigrationsToAlert (migrations : list Migration)
    (thresholdMinutes : Q) : M (list Alert) :=
  seen ← loadSeenMigrations;
  now ← Date_now;
  let r := detect seen now migrations thresholdMinutes in
  saveSeenMigrations (fst r);;
  mret (snd r).

End WithJSON.

(** [fs.unlinkSync(SEEN_FILE)]; [unlinkError] is what the call throws, if
    anything. *)
Definition unlinkSync_SEEN_FILE (unlinkError : option string) : M unit := fun w =>
  match unlinkError with
  | Some e => (Throw e, w)
  | None =>
      (Ok (), mkWorld (dataDir w) (mkdirError w) None (writeError w)
                      (clock w) (console w))
  end.

(** Lines 117-122. *)
Definition clearTracking (unlinkError : option string) : M unit :=
  ensureDataDir;;
  b ← existsSync_SEEN_FILE;
  if (b : bool) then unlinkSync_SEEN_FILE unlinkError else mret ().

End Tracker.

(** ** Regular expressions as [String.prototype.match] runs them

    A backtracking matcher for the fragment the scraper's three patterns
    use.  [run r caps s] lists every way [r] can match a prefix of [s], in
    the order the backtracking engine tries them; the first element is the
    match JavaScript reports.  Quantifiers are greedy. *)

Module Regex.

Abbreviation input := (list ascii) (only parsing).
Abbreviation captures := (list (nat * list ascii)) (only parsing).

Inductive regex : Type :=
| Eps                           (* the empty pattern *)
| Chr (p : ascii -> bool)       (* one character of a class *)
| Cat (r1 r2 : regex)           (* r1 r2 *)
| Alt (r1 r2 : regex)           (* r1|r2 *)
| Plus (p : ascii -> bool)      (* c+ for a class c *)
| Star (p : ascii -> bool)      (* c* for a class c *)
| Opt (r : regex)               (* r? *)
| Grp (i : nat) (r : regex).    (* the i-th capturing group *)

(** What is left of [s] after a run of class-[p] characters, the
    longest run first. *)
Fixpoint greedy (p : ascii -> bool) (s : input) : list input :=
  match s with
  | c :: s' => if p c then greedy p s' ++ [s] else [s]
  | [] => [s]
  end.

(** The text between the start [s] of a match and what it left. *)
Definition consumed (s rest : input) : input :=
  firstn (length s - length rest)%nat s.

Fixpoint run (r : regex) (caps : captures) (s : input) : list (captures * input) :=
  match r with
  | Eps => [(caps, s)]
  | Chr p =>
      match s with
      | c :: s' => if p c then [(caps, s')] else []
      | [] => []
      end
  | Cat r1 r2 =>
      flat_map (fun st : captures * input => run r2 (fst st) (snd st)) (run r1 caps s)
  | Alt r1 r2 => run r1 caps s ++ run r2 caps s
  | Plus p =>
      match s with
      | c :: s' => if p c then map (pair caps) (greedy p s') else []
      | [] => []
      end
  | Star p => map (pair caps) (greedy p s)
  | Opt r => run r caps s ++ [(caps, s)]
  | Grp i r =>
      map (fun st : captures * input => ((i, consumed s (snd st)) :: fst st, snd st))
          (run r caps s)
  end.

(** [s.match(r)] for a pattern without the [g] flag: the first match at
    the leftmost position that has one, or [None] for [null]. *)
Fixpoint search (r : regex) (s : input) : option captures :=
  match run r [] s with
  | (caps, _) :: _ => Some caps
  | [] =>
      match s with
      | [] => None
      | _ :: s' => search r s'
      end
  end.

(** [s.match(r)[0]]: the text of the match that [search] reports. *)
Fixpoint matched (r : regex) (s : input) : option input :=
  match run r [] s with
  | (_, rest) :: _ => Some (consumed s rest)
  | [] =>
      match s with
      | [] => None
      | _ :: s' => matched r s'
      end
  end.

(** [m[i]]; the empty text stands for a group that took no part. *)
Fixpoint group (i : nat) (caps : captures) : input :=
  match caps with
  | [] => []
  | (j, text) :: caps' => if Nat.eqb i j then text else group i caps'
  end.

(** Character classes. *)
Definition isDigit (c : ascii) : bool :=
  (48 <=? nat_of_ascii c)%nat && (nat_of_ascii c <=? 57)%nat.

(** [\s] on code units below 256: tab, line feed, vertical tab, form
    feed, carriage return, space and no-break space. *)
Definition isSpace (c : ascii) : bool :=
  let n := nat_of_ascii c in
  ((9 <=? n)%nat && (n <=? 13)%nat) || Nat.eqb n 32 || Nat.eqb n 160.

Definition toLower (c : ascii) : ascii :=
  let n := nat_of_ascii c in
  if (65 <=? n)%nat && (n <=? 90)%nat then ascii_of_nat (n + 32) else c.

(** A letter of a pattern with the [i] flag. *)
Definition ci (c : ascii) : regex := Chr (fun x => Ascii.eqb (toLower x) c).

(** A word of a pattern with the [i] flag. *)
Fixpoint word (w : input) : regex :=
  match w with
  | [] => Eps
  | c :: w' => Cat (ci c) (word w')
  end.

Definition lit (c : ascii) : regex := Chr (Ascii.eqb c).

(** [String.prototype.toLowerCase] on the letters A-Z. *)
Definition toLowerCase (s : input) : input := map toLower s.

(** [parseInt] of a run of decimal digits. *)
Definition digitValue (c : ascii) : Z := Z.of_nat (nat_of_ascii c) - 48.
Definition parseInt (ds : input) : Z :=
  fold_left (fun acc c => acc * 10 + digitValue c) ds 0.

End Regex.

(** ** The time parser ([src/scraper.js]) *)

Module Scraper.
Import Regex.

(** The class [[hms]] of a pattern with the [i] flag. *)
Definition isUnitLetter (c : ascii) : bool :=
  Ascii.eqb (toLower c) "h" || Ascii.eqb (toLower c) "m" ||
  Ascii.eqb (toLower c) "s".

(** [/(\d+[hms]|\d+:\d+|\d+ (hour|minute|second|day)s?)/i], the pattern
    that [scrape] runs on the text of a card (line 195). *)
Definition timeRe : regex :=
  Grp 1
    (Alt (Cat (Plus isDigit) (Chr isUnitLetter))
       (Alt (Cat (Plus isDigit) (Cat (lit ":") (Plus isDigit)))
          (Cat (Plus isDigit)
             (Cat (lit " ")
                (Cat (Grp 2 (Alt (word (list_ascii_of_string "hour"))
                               (Alt (word (list_ascii_of_string "minute"))
                                  (Alt (word (list_ascii_of_string "second"))
                                     (word (list_ascii_of_string "day"))))))
                   (Opt (ci "s"))))))).

(** [timeText: timeMatch ? timeMatch[0] : null] (line 204). *)
Definition timeTextOf (text : string) : option string :=
  option_map string_of_list_ascii (matched timeRe (list_ascii_of_string text)).

(** [/(\d+)\s*(h|m|s)/i] *)
Definition shortRe : regex :=
  Cat (Grp 1 (Plus isDigit))
    (Cat (Star isSpace)
       (Grp 2 (Alt (ci "h") (Alt (ci "m") (ci "s"))))).

(** [/(\d+)\s*(hour|minute|second|day)/i] *)
Definition longRe : regex :=
  Cat (Grp 1 (Plus isDigit))
    (Cat (Star isSpace)
       (Grp 2 (Alt (word (list_ascii_of_string "hour"))
                (Alt (word (list_ascii_of_string "minute"))
                   (Alt (word (list_ascii_of_string "second"))
                      (word (list_ascii_of_string "day"))))))).

(** [/(\d+):(\d+):?(\d+)?/] *)
Definition clockRe : regex :=
  Cat (Grp 1 (Plus isDigit))
    (Cat (lit ":")
       (Cat (Grp 2 (Plus isDigit))
          (Cat (Opt (lit ":")) (Opt (Grp 3 (Plus isDigit)))))).

(** [Math.ceil(value / 60)]. *)
Definition ceilDiv60 (value : Z) : Z := Qceiling (inject_Z value / 60).

(** [x || 0] on a finite number. *)
Definition orZero (x : Z) : Z := if JS.truthyZ x then x else 0.

(** The [switch] of lines 267-271; [None] when no case applies and
    control falls out of it. *)
Definition shortCase (value : Z) (unit : string) : option Z :=
  if String.eqb unit "h" then Some (value * 60)
  else if String.eqb unit "m" then Some value
  else if String.eqb unit "s" then Some (ceilDiv60 value)
  else None.

(** The [switch] of lines 279-284. *)
Definition longCase (value : Z) (unit : string) : option Z :=
  if String.eqb unit "day" then Some (value * 24 * 60)
  else if String.eqb unit "hour" then Some (value * 60)
  else if String.eqb unit "minute" then Some value
  else if String.eqb unit "second" then Some (ceilDiv60 value)
  else None.

(** The three attempts of lines 263-293, each [None] when control
    passes to the next statement. *)
Definition tryShort (s : input) : option Z :=
  match search shortRe s with
  | Some shortMatch =>
      let value := parseInt (group 1 shortMatch) in
      let unit := string_of_list_ascii (toLowerCase (group 2 shortMatch)) in
      shortCase value unit
  | None => None
  end.

Definition tryLong (s : input) : option Z :=
  match search longRe s with
  | Some longMatch =>
      let value := parseInt (group 1 longMatch) in
      let unit := string_of_list_ascii (toLowerCase (group 2 longMatch)) in
      longCase value unit
  | None => None
  end.

Definition tryClock (s : input) : option Z :=
  match search clockRe s with
  | Some clockMatch =>
      let hours := orZero (parseInt (group 1 clockMatch)) in
      let minutes := orZero (parseInt (group 2 clockMatch)) in
      Some (hours * 60 + minutes)
  | None => None
  end.

(** Lines 259-296; [None] is [null]. *)
Definition parseTimeToMinutes (timeText : option string) : option Z :=
  match timeText with
  | None => None
  | Some text =>
      if negb (JS.truthy timeText) then None
      else
        let s := list_ascii_of_string text in
        match tryShort s with
        | Some r => Some r
        | None =>
            match tryLong s with
            | Some r => Some r
            | None => tryClock s
            end
        end
  end.

End Scraper.

(** ** The annotation step ([src/index.js], lines 30-33) *)

Module Index.
Import Tracker.

Definition toNum (r : option Z) : JS.num :=
  match r with
  | Some n => JS.Number (inject_Z n)
  | None => JS.Null
  end.

(** [{ ...m, minutesUntil: parseTimeToMinutes(m.timeText) }] *)
Definition annotate (m : Migration) : Migration :=
  mkMigration (id m) (address m) (name m) (timeText m) (debug m)
    (toNum (Scraper.parseTimeToMinutes (timeText m))).

End Index.

(** ** The message texts ([src/discord.js])

    Line numbers are those of the file that holds the README followed by
    [discord.js]. *)

Module Discord.

(** [a < b] on finite numbers. *)
Definition lt (a b : Q) : bool := negb (Qle_bool b a).

(** [Math.round]: the nearest integer, halves going up. *)
Definition round (x : Q) : Z := Qfloor (x + (1 # 2)).

(** [Math.floor]. *)
Definition floor (x : Q) : Z := Qfloor x.

(** [a % b]: what is left of [a] after the multiple of [b] nearest to it
    towards zero. *)
Definition rem (a b : Q) : Q :=
  let q := (a / b)%Q in
  let t := if Qle_bool 0 q then Qfloor q else Qceiling q in
  (a - b * inject_Z t)%Q.

(** The colour of the embed (lines 136-139 of [discord.js]). *)
Definition urgencyColor (minutesUntil : Q) : Z :=
  if JS.le minutesUntil 5 then 0xFF0000
  else if JS.le minutesUntil 15 then 0xFF8C00
  else if JS.le minutesUntil 30 then 0xFFD700
  else 0x00FF00.

(** [formatTimeUntil] (lines 253-262 of [discord.js]); a whole number is
    written in decimal. *)
Definition formatTimeUntil (minutes : Q) : string :=
  if lt minutes 1 then "Less than 1 minute"
  else if lt minutes 60 then
    pretty (round minutes) +:+ " minute" +:+
    (if negb (Qeq_bool minutes 1) then "s" else "")
  else
    let hours := floor (minutes / 60) in
    let mins := round (rem minutes 60) in
    if mins =? 0 then
      pretty hours +:+ " hour" +:+ (if negb (hours =? 1) then "s" else "")
    else pretty hours +:+ "h " +:+ pretty mins +:+ "m".

End Discord.

(** ** One check ([src/index.js], with the two senders of [src/discord.js])

    Line numbers without a file name are those of [index.js]. *)

Module Runner.
Import Tracker.

(** What one check prints and sends, in order.  A printed line is
    recorded as the statement that printed it, with the observation,
    alert or error message it interpolates; the dates it shows are left
    out.  A call of [sendWebhookMessage] is recorded as the request it
    makes.  What [tracker.js] prints stays in the console of the
    world. *)
Inductive Event : Type :=
| LogRule                                (* lines 21 and 23 *)
| LogChecking                            (* line 22 *)
| LogFound (n : nat)                     (* line 35 *)
| LogItem (m : Migration)                (* line 40 *)
| LogSending (n : nat)                   (* line 47 *)
| LogDiscord (a : Alert)                 (* [discord.js], line 196 *)
| PostAlert (a : Alert)                  (* [discord.js], line 197 *)
| LogSent (a : Alert)                    (* line 53 *)
| Pause                                  (* line 56 *)
| LogFailed (a : Alert) (error : string) (* line 58 *)
| LogCheckError (error : string)         (* line 63 *)
| PostError (error : string)             (* [discord.js], line 247 *)
| LogPostError (error : string).         (* [.catch(console.error)] *)

Record State : Type := mkState {
  world : World;
  trace : list Event
}.

Definition R (A : Type) : Type := State -> Result A * State.

#[global] Instance R_ret : MRet R := fun A a st => (Ok a, st).
#[global] Instance R_bind : MBind R := fun A B f m st =>
  match m st with
  | (Ok a, st') => f a st'
  | (Throw e, st') => (Throw e, st')
  end.

Definition tryCatchR {A} (body : R A) (handler : string -> R A) : R A :=
  fun st =>
    match body st with
    | (Ok a, st') => (Ok a, st')
    | (Throw e, st') => handler e st'
    end.

(** A call into [tracker.js]. *)
Definition liftM {A} (m : M A) : R A := fun st =>
  let (r, w') := m (world st) in (r, mkState w' (trace st)).

Definition emit (e : Event) : R unit := fun st =>
  (Ok (), mkState (world st) (trace st ++ [e])).

(** The alerts and the error messages among the requests made. *)
Definition alertPosts (tr : list Event) : list Alert :=
  omap (fun e => match e with PostAlert a => Some a | _ => None end) tr.
Definition errorPosts (tr : list Event) : list string :=
  omap (fun e => match e with PostError error => Some error | _ => None end) tr.

(** The state once the three opening lines of a check are printed. *)
Definition opened (st : State) : State :=
  mkState (world st) (trace st ++ [LogRule] ++ [LogChecking] ++ [LogRule]).

Section WithEnvironment.

Variable JSON_parse : string -> string + gmap string Z.
Variable JSON_stringify : gmap string Z -> string.

(** What [scrape()] does in this check: it throws, or returns the
    observations. *)
Variable scraped : string + list Migration.

(** What the webhook answers to a request, given all that went before:
    [Some error] when the promise of [sendWebhookMessage] is rejected. *)
Variable webhook : list Event -> option string.

Variable ALERT_THRESHOLD : Q.

Definition scrape : R (list Migration) := fun st =>
  match scraped with
  | inl error => (Throw error, st)
  | inr rawMigrations => (Ok rawMigrations, st)
  end.

Definition sendWebhookMessage (request : Event) : R unit := fun st =>
  let st' := mkState (world st) (trace st ++ [request]) in
  match webhook (trace st) with
  | Some error => (Throw error, st')
  | None => (Ok (), st')
  end.

(** [discord.js], lines 135-198, without the making of the embed. *)
Definition sendMigrationAlert (a : Alert) : R unit :=
  emit (LogDiscord a);;
  sendWebhookMessage (PostAlert a).

(** [discord.js], lines 234-248. *)
Definition sendErrorNotification (error : string) : R unit :=
  tryCatchR (sendWebhookMessage (PostError error))
    (fun e => emit (LogPostError e)).

(** Lines 38-42. *)
Fixpoint logItems (migrations : list Migration) : R unit :=
  match migrations with
  | [] => mret ()
  | m :: rest =>
      (if negb (debug m) then emit (LogItem m) else mret ());;
      logItems rest
  end.

(** Lines 50-60. *)
Fixpoint sendAlerts (toAlert : list Alert) : R unit :=
  match toAlert with
  | [] => mret ()
  | migration :: rest =>
      tryCatchR
        (sendMigrationAlert migration;;
         emit (LogSent migration);;
         emit Pause)
        (fun error => emit (LogFailed migration error));;
      sendAlerts rest
  end.

(** Lines 20-66. *)
Definition checkMigrations : R unit :=
  emit LogRule;;
  emit LogChecking;;
  emit LogRule;;
  tryCatchR
    (rawMigrations ← scrape;
     let migrations := map Index.annotate rawMigrations in
     emit (LogFound (length migrations));;
     logItems migrations;;
     toAlert ← liftM (getMigrationsToAlert JSON_parse JSON_stringify
                        migrations ALERT_THRESHOLD);
     emit (LogSending (length toAlert));;
     sendAlerts toAlert)
    (fun error =>
       emit (LogCheckError error);;
       sendErrorNotification error).

End WithEnvironment.

End Runner.

(** ** Concrete observations and ledgers used in the examples *)

Module Examples.
Import Tracker.

(** An observation as the scraper builds it when it finds an address. *)
Definition tokenX (timeText : string) : Migration :=
  mkMigration (Some "X") (Some "X") (Some "TOKEN") (Some timeText) false JS.Undefined.


(** The two observations of one entity, annotated as [index.js] does,
    and the alerts they lead to. *)
Definition X4 : Migration := Index.annotate (tokenX "4m").
Definition X20 : Migration := Index.annotate (tokenX "20m").
Definition alertX4 : Alert := mkAlert X4 imminent (inject_Z 4).
Definition alertX20 : Alert := mkAlert X20 upcoming (inject_Z 20).

(** A moment in November 2023; one, five and ten minutes later. *)
Definition T0 : Z := 1700000000000.
Definition T1 : Z := T0 + 1 * 60 * 1000.
Definition T5 : Z := T0 + 5 * 60 * 1000.
Definition T10 : Z := T0 + 10 * 60 * 1000.

(** A world whose data directory is yet to be made and whose ledger
    file holds text that is not JSON, and a [JSON.parse] that rejects
    every text. *)
Definition corruptWorld : World :=
  mkWorld false None (Some (Readable "{oops")) None T0 [].
Definition rejectAll (data : string) : string + gmap string Z :=
  inl "SyntaxError"%string.
Definition writeNothing (seen : gmap string Z) : string := ""%string.

(** A ledger in which the imminent alert of X fired at [T0]. *)
Definition firedAtT0 : gmap string Z := {[ "X_imminent"%string := T0 ]}.

(** A stored ledger with one entry of another entity, made at [ts],
    the [JSON.parse] that reads it, and the world at [T0] that holds it,
    with what a write does there. *)
Definition oldLedger (ts : Z) : gmap string Z := {[ "OLD_imminent"%string := ts ]}.
Definition parseOld (ts : Z) (data : string) : string + gmap string Z :=
  if String.eqb data "old" then inr (oldLedger ts) else inl "SyntaxError"%string.
Definition oldWorld (ts : Z) (failure : option WriteFailure) : World :=
  mkWorld true None (Some (Readable "old")) failure T0 [].

(** No ledger file yet, in a directory where none can be opened for
    writing. *)
Definition lockedFresh : World :=
  mkWorld true None None (Some (OpenFails "EACCES")) T0 [].

End Examples.

(** ** Worlds used in the examples of the further properties *)

Module Samples.
Import Tracker.

(** A [JSON.parse] and a [JSON.stringify] that know the empty ledger
    only. *)
Definition parseEmpty (data : string) : string + gmap string Z := inr ∅.
Definition stringifyEmpty (seen : gmap string Z) : string := "{}"%string.

(** Nothing on disk yet, and the directory can be made. *)
Definition firstStart : World := mkWorld false None None None Examples.T0 [].

(** A ledger file on a disk that takes no more writes. *)
Definition fullDisk : World :=
  mkWorld true None (Some (Readable "{}")) (Some (WriteFails "ENOSPC" 0))
    Examples.T0 [].

(** No data directory, on a file system that cannot be written. *)
Definition readOnly : World :=
  mkWorld false (Some "EROFS"%string) None None Examples.T0 [].

(** A ledger file in place. *)
Definition stored : World :=
  mkWorld true None (Some (Readable "{}")) None Examples.T0 [].

(** The first check of a fresh installation. *)
Definition firstCheck : Runner.State := Runner.mkState firstStart [].

(** A webhook that rejects every request. *)
Definition refusing (tr : list Runner.Event) : option string :=
  Some "ECONNREFUSED"%string.

(** The ledger after the first alert for X, and a [JSON.parse] that
    reads it from every text. *)
Definition ledgerX4 : gmap string Z :=
  fst (detect ∅ Examples.T0 [Examples.X4] 30).
Definition parseX4 (data : string) : string + gmap string Z := inr ledgerX4.

End Samples.

(** * Properties *)

(** ** Facts about the JavaScript operators *)

Module JSFacts.
Import JS.

Lemma le_spec a b : le a b = true <-> (a <= b)%Q.
Proof. apply Qle_bool_iff. Qed.

Lemma le_false a b : le a b = false <-> (b < a)%Q.
Proof.
  unfold le. split; intros H.
  - apply Qnot_le_lt. intros Hle. apply Qle_bool_iff in Hle. congruence.
  - destruct (Qle_bool a b) eqn:E; [|reflexivity].
    apply Qle_bool_iff in E. exfalso. eapply Qlt_not_le; eauto.
Qed.

Lemma gt_spec a b : gt a b = true <-> (b < a)%Q.
Proof. unfold gt. rewrite negb_true_iff. apply le_false. Qed.

Lemma gt_false a b : gt a b = false <-> (a <= b)%Q.
Proof. unfold gt. rewrite negb_false_iff. apply le_spec. Qed.

Lemma truthy_Some v :
  truthy v = true <-> exists s, v = Some s /\ s <> ""%string.
Proof.
  split.
  - destruct v as [s|]; simpl; [|discriminate].
    intros H. exists s. split; [reflexivity|].
    intros ->. discriminate.
  - intros (s & -> & Hs). simpl. apply negb_true_iff.
    apply String.eqb_neq. exact Hs.
Qed.

Lemma truthyZ_spec n : truthyZ n = true <-> n <> 0.
Proof. unfold truthyZ. rewrite negb_true_iff. apply Z.eqb_neq. Qed.



End JSFacts.

(** ** The tracker *)

Module TrackerFacts.
Import JS Tracker JSFacts.

(** *** Tiers *)

Lemma tierOf_imminent m : tierOf m = imminent <-> (m <= 5)%Q.
Proof.
  unfold tierOf. destruct (le m 5) eqn:E5.
  - apply le_spec in E5. tauto.
  - apply le_false in E5.
    destruct (le m 15), (le m 30); split; try discriminate;
      intros H; exfalso; lra.
Qed.

Lemma tierOf_soon m : tierOf m = soon <-> (5 < m /\ m <= 15)%Q.
Proof.
  unfold tierOf. destruct (le m 5) eqn:E5.
  - apply le_spec in E5. split; [discriminate|]. intros [H _]. lra.
  - apply le_false in E5. destruct (le m 15) eqn:E15.
    + apply le_spec in E15. tauto.
    + apply le_false in E15.
      destruct (le m 30); split; try discriminate; intros [_ H]; lra.
Qed.

Lemma tierOf_upcoming m : tierOf m = upcoming <-> (15 < m /\ m <= 30)%Q.
Proof.
  unfold tierOf. destruct (le m 5) eqn:E5.
  - apply le_spec in E5. split; [discriminate|]. intros [H _]. lra.
  - destruct (le m 15) eqn:E15.
    + apply le_spec in E15. split; [discriminate|]. intros [H _]. lra.
    + apply le_false in E15. destruct (le m 30) eqn:E30.
      * apply le_spec in E30. tauto.
      * apply le_false in E30. split; [discriminate|]. intros [_ H]. lra.
Qed.

Lemma tierOf_scheduled m : tierOf m = scheduled <-> (30 < m)%Q.
Proof.
  unfold tierOf. destruct (le m 5) eqn:E5.
  - apply le_spec in E5. split; [discriminate|]. intros H. lra.
  - destruct (le m 15) eqn:E15.
    + apply le_spec in E15. split; [discriminate|]. intros H. lra.
    + destruct (le m 30) eqn:E30.
      * apply le_spec in E30. split; [discriminate|]. intros H. lra.
      * apply le_false in E30. tauto.
Qed.

(** *** Ledger keys *)

Lemma append_inv_head (p x y : string) : p +:+ x = p +:+ y -> x = y.
Proof.
  induction p as [|c p IH]; simpl; intros H; [exact H|].
  injection H as H. auto.
Qed.

Lemma tierName_inj t1 t2 : tierName t1 = tierName t2 -> t1 = t2.
Proof. destruct t1, t2; simpl; intros H; try reflexivity; discriminate. Qed.

(** For one entity, different tiers give different ledger keys. *)
Lemma alertKey_tier_inj e t1 t2 : alertKey e t1 = alertKey e t2 -> t1 = t2.
Proof.
  unfold alertKey. intros H.
  apply append_inv_head in H. apply append_inv_head in H.
  apply tierName_inj. exact H.
Qed.

(** *** The test and the update *)

Lemma cooldownMs_eq : cooldownMs = 600000.
Proof. reflexivity. Qed.

Lemma retentionMs_eq : retentionMs = 86400000.
Proof. reflexivity. Qed.

Lemma shouldFire_true seen key now :
  shouldFire seen key now = true <->
  seen !! key = None \/ seen !! key = Some 0 \/
  exists t, seen !! key = Some t /\ cooldownMs <= now - t.
Proof.
  unfold shouldFire. destruct (seen !! key) as [t|] eqn:E.
  - destruct (truthyZ t) eqn:Et.
    + apply truthyZ_spec in Et. rewrite negb_true_iff, Z.ltb_ge. split.
      * intros H. right. right. exists t. auto.
      * intros [H|[H|(t' & H & Hle)]]; try discriminate.
        -- injection H as ->. congruence.
        -- injection H as ->. exact Hle.
    + unfold truthyZ in Et. rewrite negb_false_iff in Et.
      apply Z.eqb_eq in Et. subst t. split; auto.
  - split; auto.
Qed.

Lemma shouldFire_false seen key now :
  shouldFire seen key now = false <->
  exists t, seen !! key = Some t /\ t <> 0 /\ now - t < cooldownMs.
Proof.
  unfold shouldFire. destruct (seen !! key) as [t|] eqn:E.
  - destruct (truthyZ t) eqn:Et.
    + apply truthyZ_spec in Et. rewrite negb_false_iff, Z.ltb_lt. split.
      * intros H. exists t. auto.
      * intros (t' & H & _ & Hlt). injection H as ->. exact Hlt.
    + unfold truthyZ in Et. rewrite negb_false_iff in Et.
      apply Z.eqb_eq in Et. subst t. split; [discriminate|].
      intros (t' & H & Hne & _). injection H as <-. congruence.
  - split; [discriminate|]. intros (t & H & _). discriminate.
Qed.

Lemma lookup_record_eq seen key now : record seen key now !! key = Some now.
Proof. unfold record. apply lookup_insert_eq. Qed.

Lemma lookup_record_ne seen key key' now :
  key <> key' -> record seen key now !! key' = seen !! key'.
Proof. unfold record. intros H. apply lookup_insert_ne. exact H. Qed.

Lemma shouldFire_record_eq seen key t now :
  t <> 0 -> shouldFire (record seen key t) key now = negb (now - t <? cooldownMs).
Proof.
  intros Ht. unfold shouldFire. rewrite lookup_record_eq.
  apply truthyZ_spec in Ht. rewrite Ht. reflexivity.
Qed.

Lemma shouldFire_record_ne seen key key' t now :
  key <> key' -> shouldFire (record seen key t) key' now = shouldFire seen key' now.
Proof.
  intros H. unfold shouldFire. rewrite lookup_record_ne by exact H. reflexivity.
Qed.

(** *** What one observation leads to *)

Lemma candidate_Some th m key a :
  candidate th m = Some (key, a) ->
  debug m = false /\
  exists e mu,
    entityId m = Some e /\ e <> ""%string /\
    minutesUntil m = Number mu /\ (mu <= th)%Q /\
    a = mkAlert m (tierOf mu) mu /\ key = alertKey e (tierOf mu).
Proof.
  unfold candidate. destruct (debug m); [discriminate|].
  destruct (truthy (entityId m)) eqn:Et; simpl; [|discriminate].
  apply truthy_Some in Et. destruct Et as (e & He & Hne). rewrite He.
  destruct (minutesUntil m) as [| |mu]; try discriminate.
  destruct (gt mu th) eqn:Eg; [discriminate|].
  apply gt_false in Eg. intros H. injection H as <- <-.
  split; [reflexivity|]. exists e, mu. auto 10.
Qed.

Lemma candidate_number th m e mu :
  debug m = false -> entityId m = Some e -> e <> ""%string ->
  minutesUntil m = Number mu -> (mu <= th)%Q ->
  candidate th m = Some (alertKey e (tierOf mu), mkAlert m (tierOf mu) mu).
Proof.
  intros Hd He Hne Hmu Hle. unfold candidate. rewrite Hd, He, Hmu.
  assert (Ht : truthy (Some e) = true) by (apply truthy_Some; eauto).
  rewrite Ht. simpl.
  assert (Hg : gt mu th = false) by (apply gt_false; exact Hle).
  rewrite Hg. reflexivity.
Qed.

Lemma keyOf_candidate th m key a :
  candidate th m = Some (key, a) -> keyOf a = Some key.
Proof.
  intros H. apply candidate_Some in H.
  destruct H as (_ & e & mu & He & _ & _ & _ & -> & ->).
  unfold keyOf. simpl. rewrite He. reflexivity.
Qed.

Lemma candidate_key th m key a :
  candidate th m = Some (key, a) ->
  exists e, entityId m = Some e /\ key = alertKey e (alertTier a).
Proof.
  intros H. apply candidate_Some in H.
  destruct H as (_ & e & mu & He & _ & _ & _ & -> & ->).
  exists e. auto.
Qed.

(** *** The loop *)

Lemma scan_emit now th ms : forall seen acc,
  scan now th (seen, acc) ms =
  (fst (emit now th seen ms), acc ++ snd (emit now th seen ms)).
Proof.
  unfold scan. induction ms as [|m ms IH]; intros seen acc; simpl.
  - rewrite app_nil_r. reflexivity.
  - unfold visit at 2. destruct (candidate th m) as [[key a]|]; simpl.
    + destruct (shouldFire seen key now); simpl.
      * rewrite IH. rewrite <- app_assoc. reflexivity.
      * apply IH.
    + apply IH.
Qed.

Lemma detect_emit seen now ms th :
  detect seen now ms th =
  (evict now (fst (emit now th seen ms)), snd (emit now th seen ms)).
Proof. unfold detect. rewrite scan_emit. reflexivity. Qed.

Lemma fst_detect seen now ms th :
  fst (detect seen now ms th) = evict now (fst (emit now th seen ms)).
Proof. rewrite detect_emit. reflexivity. Qed.

Lemma snd_detect seen now ms th :
  snd (detect seen now ms th) = snd (emit now th seen ms).
Proof. rewrite detect_emit. reflexivity. Qed.

(** Every alert comes from an observation of the batch that passed the
    filters. *)
Lemma emit_source now th ms : forall seen a,
  a ∈ snd (emit now th seen ms) ->
  exists m key, m ∈ ms /\ candidate th m = Some (key, a).
Proof.
  induction ms as [|m ms IH]; intros seen a; simpl.
  - intros H. apply elem_of_nil in H. contradiction.
  - destruct (candidate th m) as [[key a0]|] eqn:Ec.
    + destruct (shouldFire seen key now); simpl.
      * rewrite elem_of_cons. intros [->|H].
        -- exists m, key. split; [left|exact Ec].
        -- apply IH in H. destruct H as (m' & k' & Hin & Hc).
           exists m', k'. split; [right; exact Hin|exact Hc].
      * intros H. apply IH in H. destruct H as (m' & k' & Hin & Hc).
        exists m', k'. split; [right; exact Hin|exact Hc].
    + intros H. apply IH in H. destruct H as (m' & k' & Hin & Hc).
      exists m', k'. split; [right; exact Hin|exact Hc].
Qed.

(** A key that may not fire stays silent and keeps its entry through
    the whole loop. *)
Lemma emit_suppressed now th key ms : forall seen,
  shouldFire seen key now = false ->
  (forall a, a ∈ snd (emit now th seen ms) -> keyOf a <> Some key) /\
  fst (emit now th seen ms) !! key = seen !! key.
Proof.
  induction ms as [|m ms IH]; intros seen Hs; simpl.
  - split; [|reflexivity]. intros a H. apply elem_of_nil in H. contradiction.
  - destruct (candidate th m) as [[k0 a0]|] eqn:Ec; [|apply IH; exact Hs].
    destruct (shouldFire seen k0 now) eqn:E0; [|apply IH; exact Hs].
    assert (Hne : k0 <> key) by (intros ->; congruence).
    destruct (IH (record seen k0 now)) as [IH1 IH2].
    { rewrite shouldFire_record_ne by exact Hne. exact Hs. }
    simpl. split.
    + intros a. rewrite elem_of_cons. intros [->|H]; [|apply IH1; exact H].
      rewrite (keyOf_candidate _ _ _ _ Ec). congruence.
    + rewrite IH2. apply lookup_record_ne. exact Hne.
Qed.

(** A key that no alert was emitted for keeps its entry. *)
Lemma emit_frame now th key ms : forall seen,
  (forall a, a ∈ snd (emit now th seen ms) -> keyOf a <> Some key) ->
  fst (emit now th seen ms) !! key = seen !! key.
Proof.
  induction ms as [|m ms IH]; intros seen; simpl; [reflexivity|].
  destruct (candidate th m) as [[k0 a0]|] eqn:Ec; [|apply IH].
  destruct (shouldFire seen k0 now) eqn:E0; [|apply IH].
  simpl. intros H.
  assert (Hne : k0 <> key).
  { intros ->. apply (H a0); [left|]. eapply keyOf_candidate; eauto. }
  rewrite IH.
  - apply lookup_record_ne. exact Hne.
  - intros a Ha. apply H. right. exact Ha.
Qed.

(** The loop leaves an entry as it was or sets it to [now]. *)
Lemma emit_lookup_cases now th key ms : forall seen,
  fst (emit now th seen ms) !! key = seen !! key \/
  fst (emit now th seen ms) !! key = Some now.
Proof.
  induction ms as [|m ms IH]; intros seen; simpl; [left; reflexivity|].
  destruct (candidate th m) as [[k0 a0]|] eqn:Ec; [|apply IH].
  destruct (shouldFire seen k0 now) eqn:E0; [|apply IH].
  simpl. destruct (IH (record seen k0 now)) as [H|H]; [|right; exact H].
  rewrite H. destruct (decide (k0 = key)) as [->|Hne].
  - right. apply lookup_record_eq.
  - left. apply lookup_record_ne. exact Hne.
Qed.

(** A key that an alert was emitted for holds [now]. *)
Lemma emit_fired now th key ms : forall seen a,
  a ∈ snd (emit now th seen ms) -> keyOf a = Some key ->
  fst (emit now th seen ms) !! key = Some now.
Proof.
  induction ms as [|m ms IH]; intros seen a; simpl.
  - intros H. apply elem_of_nil in H. contradiction.
  - destruct (candidate th m) as [[k0 a0]|] eqn:Ec; [|apply IH].
    destruct (shouldFire seen k0 now) eqn:E0; [|apply IH].
    simpl. rewrite elem_of_cons. intros [->|H] Hk.
    + rewrite (keyOf_candidate _ _ _ _ Ec) in Hk. injection Hk as ->.
      destruct (emit_lookup_cases now th key ms (record seen key now)) as [H|H].
      * rewrite H. apply lookup_record_eq.
      * exact H.
    + eapply IH; eauto.
Qed.

(** A key that may fire and is met in the batch holds [now] afterwards. *)
Lemma emit_due now th key ms : forall seen m a,
  m ∈ ms -> candidate th m = Some (key, a) ->
  shouldFire seen key now = true ->
  fst (emit now th seen ms) !! key = Some now.
Proof.
  induction ms as [|m0 ms IH]; intros seen m a Hin Hc Hs.
  - apply elem_of_nil in Hin. contradiction.
  - simpl. destruct (candidate th m0) as [[k0 a0]|] eqn:Ec.
    + destruct (decide (k0 = key)) as [->|Hne].
      * rewrite Hs. simpl.
        destruct (emit_lookup_cases now th key ms (record seen key now)) as [H|H].
        -- rewrite H. apply lookup_record_eq.
        -- exact H.
      * apply elem_of_cons in Hin. destruct Hin as [->|Hin]; [congruence|].
        destruct (shouldFire seen k0 now); simpl.
        -- eapply IH; eauto. rewrite shouldFire_record_ne by exact Hne. exact Hs.
        -- eapply IH; eauto.
    + apply elem_of_cons in Hin. destruct Hin as [->|Hin]; [congruence|].
      eapply IH; eauto.
Qed.

(** *** The clean-up *)

Lemma lookup_evict_Some now seen key t :
  evict now seen !! key = Some t <->
  seen !! key = Some t /\ now - t <= retentionMs.
Proof.
  unfold evict. rewrite map_lookup_filter_Some. simpl.
  split; intros [H1 H2]; split; auto; lia.
Qed.

Lemma lookup_evict_None now seen key :
  evict now seen !! key = None <->
  seen !! key = None \/ exists t, seen !! key = Some t /\ retentionMs < now - t.
Proof.
  destruct (seen !! key) as [t|] eqn:E.
  - destruct (decide (now - t <= retentionMs)) as [Hle|Hgt].
    + assert (H : evict now seen !! key = Some t)
        by (apply lookup_evict_Some; auto).
      rewrite H. split; [discriminate|].
      intros [H'|(t' & H' & Hlt)]; [discriminate|].
      injection H' as ->. lia.
    + split.
      * intros _. right. exists t. split; [reflexivity|lia].
      * intros _. destruct (evict now seen !! key) as [t'|] eqn:E'; [|reflexivity].
        apply lookup_evict_Some in E'. destruct E' as [E1 E2].
        rewrite E in E1. injection E1 as ->. lia.
  - split; [auto|]. intros _.
    destruct (evict now seen !! key) as [t'|] eqn:E'; [|reflexivity].
    apply lookup_evict_Some in E'. destruct E' as [E1 _]. congruence.
Qed.

(** *** Consequences for whole runs *)

Lemma shouldFire_ext seen seen' key now :
  seen !! key = seen' !! key -> shouldFire seen key now = shouldFire seen' key now.
Proof. unfold shouldFire. intros ->. reflexivity. Qed.

Lemma cooldown_lt_retention : cooldownMs < retentionMs.
Proof. reflexivity. Qed.

(** An entry that blocks its key is too young to be evicted. *)
Lemma shouldFire_false_evict seen key now now' :
  shouldFire seen key now = false ->
  shouldFire (evict now seen) key now' = shouldFire seen key now'.
Proof.
  intros H. apply shouldFire_false in H. destruct H as (t & Ht & _ & Hlt).
  apply shouldFire_ext. rewrite Ht. apply lookup_evict_Some.
  split; [exact Ht|]. pose proof cooldown_lt_retention. lia.
Qed.

(** Nothing fires when no key of the batch may. *)
Lemma emit_nothing now th seen ms :
  (forall m key a, m ∈ ms -> candidate th m = Some (key, a) ->
                   shouldFire seen key now = false) ->
  snd (emit now th seen ms) = [].
Proof.
  intros H. destruct (snd (emit now th seen ms)) as [|a l] eqn:E; [reflexivity|].
  exfalso.
  assert (Ha : a ∈ snd (emit now th seen ms)) by (rewrite E; left).
  destruct (emit_source _ _ _ _ _ Ha) as (m & key & Hin & Hc).
  destruct (emit_suppressed now th key ms seen (H _ _ _ Hin Hc)) as [Hno _].
  apply (Hno a Ha). eapply keyOf_candidate; eauto.
Qed.

(** The keys of the alerts of one run are pairwise different. *)
Lemma emit_NoDup now th ms : forall seen,
  now <> 0 -> NoDup (keyOf <$> snd (emit now th seen ms)).
Proof.
  induction ms as [|m ms IH]; intros seen Hnow; simpl; [constructor|].
  destruct (candidate th m) as [[k0 a0]|] eqn:Ec; [|apply IH; exact Hnow].
  destruct (shouldFire seen k0 now) eqn:E0; [|apply IH; exact Hnow].
  simpl. apply NoDup_cons. split; [|apply IH; exact Hnow].
  rewrite (keyOf_candidate _ _ _ _ Ec).
  intros Hin. apply list_elem_of_fmap in Hin. destruct Hin as (a & Hk & Ha).
  destruct (emit_suppressed now th k0 ms (record seen k0 now)) as [Hno _].
  { rewrite shouldFire_record_eq by exact Hnow.
    rewrite Z.sub_diag. reflexivity. }
  apply (Hno a Ha). symmetry. exact Hk.
Qed.

Lemma scan_app now th st l1 l2 :
  scan now th st (l1 ++ l2) = scan now th (scan now th st l1) l2.
Proof. unfold scan. apply fold_left_app. Qed.

(** Once an observation with some key has been visited, that key may
    not fire any more in this run. *)
Lemma emit_after_visit now th key : forall ms seen m a,
  now <> 0 -> m ∈ ms -> candidate th m = Some (key, a) ->
  shouldFire (fst (emit now th seen ms)) key now = false.
Proof.
  induction ms as [|m0 ms IH]; intros seen m a Hnow Hin Hc.
  - apply elem_of_nil in Hin. contradiction.
  - assert (Hblock : forall s, shouldFire s key now = false ->
              shouldFire (fst (emit now th s ms)) key now = false).
    { intros s Hs.
      destruct (emit_suppressed now th key ms s Hs) as [_ Hl].
      rewrite (shouldFire_ext _ s) by exact Hl. exact Hs. }
    assert (Hrec : shouldFire (record seen key now) key now = false).
    { rewrite shouldFire_record_eq by exact Hnow.
      rewrite Z.sub_diag. reflexivity. }
    simpl. destruct (candidate th m0) as [[k0 a0]|] eqn:Ec.
    + destruct (decide (k0 = key)) as [->|Hne].
      * destruct (shouldFire seen key now) eqn:Es; simpl; auto.
      * apply elem_of_cons in Hin. destruct Hin as [->|Hin]; [congruence|].
        destruct (shouldFire seen k0 now); simpl; eapply IH; eauto.
    + apply elem_of_cons in Hin. destruct Hin as [->|Hin]; [congruence|].
      eapply IH; eauto.
Qed.

(** No two alerts of a run share the pair of entity identifier and
    tier. *)
Lemma detect_NoDup_pairs seen now ms th :
  now <> 0 -> NoDup (pairOf <$> snd (detect seen now ms th)).
Proof.
  intros Hnow.
  apply (NoDup_fmap_1 (fun p : option string * Tier =>
                         match fst p with
                         | Some e => Some (alertKey e (snd p))
                         | None => None
                         end)).
  rewrite <- list_fmap_compose. rewrite snd_detect.
  apply emit_NoDup. exact Hnow.
Qed.

(** An observation whose key was met earlier in the batch is passed
    over. *)
Lemma visit_duplicate seen now th l1 m1 l2 m2 key a1 a2 :
  now <> 0 ->
  candidate th m1 = Some (key, a1) -> candidate th m2 = Some (key, a2) ->
  visit now th (scan now th (seen, []) (l1 ++ m1 :: l2)) m2 =
  scan now th (seen, []) (l1 ++ m1 :: l2).
Proof.
  intros Hnow Hc1 Hc2. rewrite scan_emit. unfold visit. rewrite Hc2. simpl.
  rewrite (emit_after_visit now th key (l1 ++ m1 :: l2) seen m1 a1); auto.
  apply elem_of_app. right. left.
Qed.

Lemma detect_duplicate seen now th l1 m1 l2 m2 l3 key a1 a2 :
  now <> 0 ->
  candidate th m1 = Some (key, a1) -> candidate th m2 = Some (key, a2) ->
  detect seen now (l1 ++ m1 :: l2 ++ m2 :: l3) th =
  detect seen now (l1 ++ m1 :: l2 ++ l3) th.
Proof.
  intros Hnow Hc1 Hc2.
  pose proof (visit_duplicate seen now th l1 m1 l2 m2 key a1 a2 Hnow Hc1 Hc2)
    as Hskip.
  unfold detect.
  replace (l1 ++ m1 :: l2 ++ m2 :: l3) with ((l1 ++ m1 :: l2) ++ m2 :: l3)
    by (rewrite <- app_assoc; reflexivity).
  replace (l1 ++ m1 :: l2 ++ l3) with ((l1 ++ m1 :: l2) ++ l3)
    by (rewrite <- app_assoc; reflexivity).
  set (pre := l1 ++ m1 :: l2) in *.
  rewrite (scan_app now th (seen, []) pre (m2 :: l3)).
  rewrite (scan_app now th (seen, []) pre l3).
  change (scan now th (scan now th (seen, []) pre) (m2 :: l3))
    with (scan now th (visit now th (scan now th (seen, []) pre) m2) l3).
  rewrite Hskip. reflexivity.
Qed.

(** The tier of an alert is the tier of its minutes. *)
Lemma detect_tier seen now ms th a :
  a ∈ snd (detect seen now ms th) -> alertTier a = tierOf (alertMinutes a).
Proof.
  rewrite snd_detect. intros Ha.
  apply emit_source in Ha. destruct Ha as (m & key & _ & Hc).
  apply candidate_Some in Hc.
  destruct Hc as (_ & e & mu & _ & _ & _ & _ & -> & _). reflexivity.
Qed.

(** Every alert carries the number of an observation of the batch that
    is not a debug entry. *)
Lemma detect_known_timing seen now ms th a :
  a ∈ snd (detect seen now ms th) ->
  migration a ∈ ms /\
  debug (migration a) = false /\
  minutesUntil (migration a) = Number (alertMinutes a) /\
  (alertMinutes a <= th)%Q.
Proof.
  rewrite snd_detect. intros Ha.
  apply emit_source in Ha. destruct Ha as (m & key & Hin & Hc).
  apply candidate_Some in Hc.
  destruct Hc as (Hd & e & mu & He & Hne & Hmu & Hle & -> & ->). simpl.
  auto.
Qed.

(** An observation annotated from its time text has a number only when
    the text parsed, to that number. *)
Lemma annotate_number raws m q :
  m ∈ map Index.annotate raws -> minutesUntil m = Number q ->
  exists n, Scraper.parseTimeToMinutes (timeText m) = Some n /\ q = inject_Z n.
Proof.
  intros Hin Hq. apply list_elem_of_fmap in Hin. destruct Hin as (r & -> & _).
  simpl in *.
  destruct (Scraper.parseTimeToMinutes (timeText r)) as [n|]; simpl in Hq.
  - injection Hq as <-. exists n. auto.
  - discriminate.
Qed.

End TrackerFacts.

(** ** The backing store *)

Module StoreFacts.
Import JS Tracker JSFacts TrackerFacts.

(** The directory step succeeds, changing at most the directory flag,
    when the directory exists or can be made. *)
Lemma ensureDataDir_ok (w : World) :
  dataDir w = true \/ mkdirError w = None ->
  exists w',
    ensureDataDir w = (Ok (), w') /\
    seenFile w' = seenFile w /\ writeError w' = writeError w /\
    clock w' = clock w /\ console w' = console w /\
    dataDir w' = true /\ mkdirError w' = mkdirError w.
Proof.
  intros H. unfold ensureDataDir, mbind, M_bind, existsSync_DATA_DIR.
  destruct (dataDir w) eqn:Ed; simpl.
  - exists w. unfold mret, M_ret. auto 10.
  - destruct H as [H|H]; [discriminate|].
    unfold mkdirSync_DATA_DIR. rewrite H.
    eexists. split; [reflexivity|]. simpl. auto 10.
Qed.

(** The directory step throws what [mkdirSync] throws. *)
Lemma ensureDataDir_throw (w : World) (e : string) :
  dataDir w = false -> mkdirError w = Some e ->
  ensureDataDir w = (Throw e, w).
Proof.
  intros Hd He. unfold ensureDataDir, mbind, M_bind, existsSync_DATA_DIR.
  rewrite Hd. simpl. unfold mkdirSync_DATA_DIR. rewrite He. reflexivity.
Qed.

Section WithJSON.
Variable JSON_parse : string -> string + gmap string Z.
Variable JSON_stringify : gmap string Z -> string.

Lemma load_noLedger (w : World) :
  dataDir w = true \/ mkdirError w = None ->
  noLedger JSON_parse w ->
  exists w',
    loadSeenMigrations JSON_parse w = (Ok ∅, w') /\
    clock w' = clock w /\ dataDir w' = true.
Proof.
  intros Hdir Hno. unfold loadSeenMigrations.
  destruct (ensureDataDir_ok w Hdir) as (w1 & H1 & Hf & _ & Hc & _ & Hd & _).
  unfold mbind at 1, M_bind at 1. rewrite H1.
  unfold mbind at 1, M_bind at 1, tryCatch.
  unfold mbind at 1, M_bind at 1, existsSync_SEEN_FILE. rewrite Hf.
  destruct Hno as [Hn|[(e & Hn)|(data & e & Hn & Hp)]]; rewrite Hn; simpl.
  - unfold mret, M_ret. eauto.
  - unfold mbind, M_bind, readFileSync_SEEN_FILE. rewrite Hf, Hn. simpl.
    unfold mret, M_ret. eexists. split; [reflexivity|]. simpl. auto.
  - unfold mbind, M_bind, readFileSync_SEEN_FILE. rewrite Hf, Hn. simpl.
    unfold parseJSON. rewrite Hp. simpl.
    unfold mret, M_ret. eexists. split; [reflexivity|]. simpl. auto.
Qed.

Lemma load_stored (w : World) (data : string) (seen : gmap string Z) :
  dataDir w = true \/ mkdirError w = None ->
  seenFile w = Some (Readable data) -> JSON_parse data = inr seen ->
  exists w',
    loadSeenMigrations JSON_parse w = (Ok seen, w') /\
    clock w' = clock w /\ dataDir w' = true.
Proof.
  intros Hdir Hn Hp. unfold loadSeenMigrations.
  destruct (ensureDataDir_ok w Hdir) as (w1 & H1 & Hf & _ & Hc & _ & Hd & _).
  unfold mbind at 1, M_bind at 1. rewrite H1.
  unfold mbind at 1, M_bind at 1, tryCatch.
  unfold mbind at 1, M_bind at 1, existsSync_SEEN_FILE. rewrite Hf, Hn. simpl.
  unfold mbind, M_bind, readFileSync_SEEN_FILE. rewrite Hf, Hn. simpl.
  unfold parseJSON. rewrite Hp. simpl.
  unfold mret, M_ret. eexists. split; [reflexivity|]. auto.
Qed.

(** Saving never throws once the directory is there. *)
Lemma save_ok (w : World) (seen : gmap string Z) :
  dataDir w = true ->
  exists w', saveSeenMigrations JSON_stringify seen w = (Ok (), w') /\
    dataDir w' = true /\
    (writeError w = None -> seenFile w' = Some (Readable (JSON_stringify seen))).
Proof.
  intros Hd. unfold saveSeenMigrations.
  destruct (ensureDataDir_ok w (or_introl Hd))
    as (w1 & H1 & Hf & Hw & _ & _ & Hd1 & _).
  unfold mbind, M_bind. rewrite H1.
  unfold tryCatch, writeFileSync_SEEN_FILE. rewrite Hw.
  destruct (writeError w) as [[e|e n]|]; simpl.
  - eexists. split; [reflexivity|]. simpl. split; [exact Hd1|discriminate].
  - eexists. split; [reflexivity|]. simpl. split; [exact Hd1|discriminate].
  - eexists. split; [reflexivity|]. simpl. split; [exact Hd1|reflexivity].
Qed.

Lemma getMigrationsToAlert_run (w w1 : World) (seen : gmap string Z)
    (ms : list Migration) (th : Q) :
  loadSeenMigrations JSON_parse w = (Ok seen, w1) ->
  dataDir w1 = true ->
  exists w',
    getMigrationsToAlert JSON_parse JSON_stringify ms th w =
      (Ok (snd (detect seen (clock w1) ms th)), w') /\
    dataDir w' = true /\
    (writeError w1 = None ->
     seenFile w' =
       Some (Readable (JSON_stringify (fst (detect seen (clock w1) ms th))))).
Proof.
  intros Hl Hd. unfold getMigrationsToAlert.
  unfold mbind at 1, M_bind at 1. rewrite Hl.
  unfold mbind at 1, M_bind at 1, Date_now.
  destruct (save_ok w1 (fst (detect seen (clock w1) ms th)) Hd)
    as (w2 & Hs & Hd2 & Hfile).
  unfold mbind, M_bind. rewrite Hs. unfold mret, M_ret.
  exists w2. split; [reflexivity|]. split; [exact Hd2|exact Hfile].
Qed.

(** When the ledger survives the round trip through the file, the next
    call, made at [now2], starts from the ledger this call left. *)
Lemma next_call_sees_ledger (w w1 : World) (seen : gmap string Z)
    (ms : list Migration) (th : Q) (now2 : Z) :
  (forall l, JSON_parse (JSON_stringify l) = inr l) ->
  loadSeenMigrations JSON_parse w = (Ok seen, w1) ->
  dataDir w1 = true -> writeError w1 = None ->
  exists w',
    getMigrationsToAlert JSON_parse JSON_stringify ms th w =
      (Ok (snd (detect seen (clock w1) ms th)), w') /\
    fst (getMigrationsToAlert JSON_parse JSON_stringify ms th (atTime now2 w')) =
      Ok (snd (detect (fst (detect seen (clock w1) ms th)) now2 ms th)).
Proof.
  intros Hround Hl Hd Hw.
  destruct (getMigrationsToAlert_run w w1 seen ms th Hl Hd)
    as (w' & Hrun & Hd' & Hfile).
  exists w'. split; [exact Hrun|].
  destruct (load_stored (atTime now2 w') _ _ (or_introl Hd') (Hfile Hw)
              (Hround _)) as (w2 & Hl2 & Hc2 & Hd2).
  destruct (getMigrationsToAlert_run (atTime now2 w') w2 _ ms th Hl2 Hd2)
    as (w'' & Hrun2 & _).
  rewrite Hrun2, Hc2. reflexivity.
Qed.

End WithJSON.

Lemma keepsClock_ret {A} (a : A) : keepsClock (mret a).
Proof. intros w r w' H. injection H as _ <-. reflexivity. Qed.

Lemma keepsClock_throw {A} (e : string) : keepsClock (throw (A := A) e).
Proof. intros w r w' H. injection H as _ <-. reflexivity. Qed.

Lemma keepsClock_bind {A B} (m : M A) (f : A -> M B) :
  keepsClock m -> (forall a, keepsClock (f a)) -> keepsClock (m ≫= f).
Proof.
  intros Hm Hf w r w'. unfold mbind, M_bind.
  destruct (m w) as [[a|e] w1] eqn:E; intros H.
  - apply Hf in H. apply Hm in E. congruence.
  - injection H as _ <-. eapply Hm; eauto.
Qed.

Lemma keepsClock_tryCatch {A} (m : M A) (h : string -> M A) :
  keepsClock m -> (forall e, keepsClock (h e)) -> keepsClock (tryCatch m h).
Proof.
  intros Hm Hh w r w'. unfold tryCatch.
  destruct (m w) as [[a|e] w1] eqn:E; intros H.
  - injection H as _ <-. eapply Hm; eauto.
  - apply Hh in H. apply Hm in E. congruence.
Qed.

Lemma keepsClock_existsSync_DATA_DIR : keepsClock existsSync_DATA_DIR.
Proof. intros w r w' H. injection H as _ <-. reflexivity. Qed.

Lemma keepsClock_existsSync_SEEN_FILE : keepsClock existsSync_SEEN_FILE.
Proof. intros w r w' H. injection H as _ <-. reflexivity. Qed.

Lemma keepsClock_mkdirSync : keepsClock mkdirSync_DATA_DIR.
Proof.
  intros w r w'. unfold mkdirSync_DATA_DIR.
  destruct (mkdirError w); intros H; injection H as _ <-; reflexivity.
Qed.

Lemma keepsClock_readFileSync : keepsClock readFileSync_SEEN_FILE.
Proof.
  intros w r w'. unfold readFileSync_SEEN_FILE.
  destruct (seenFile w) as [[e|data]|]; intros H; injection H as _ <-;
    reflexivity.
Qed.

Lemma keepsClock_console_error msg : keepsClock (console_error msg).
Proof. intros w r w' H. injection H as _ <-. reflexivity. Qed.

Lemma keepsClock_ensureDataDir : keepsClock ensureDataDir.
Proof.
  apply keepsClock_bind; [apply keepsClock_existsSync_DATA_DIR|].
  intros []; simpl; [apply keepsClock_ret|apply keepsClock_mkdirSync].
Qed.

(** Loading leaves the clock alone. *)
Lemma load_clock JSON_parse (w w1 : World) r :
  loadSeenMigrations JSON_parse w = (r, w1) -> clock w1 = clock w.
Proof.
  revert w r w1.
  change (keepsClock (loadSeenMigrations JSON_parse)).
  unfold loadSeenMigrations.
  apply keepsClock_bind; [apply keepsClock_ensureDataDir|]. intros _.
  apply keepsClock_bind.
  - apply keepsClock_tryCatch.
    + apply keepsClock_bind; [apply keepsClock_existsSync_SEEN_FILE|].
      intros []; [|apply keepsClock_ret].
      apply keepsClock_bind; [apply keepsClock_readFileSync|]. intros data.
      apply keepsClock_bind; [|intros v; apply keepsClock_ret].
      unfold parseJSON. destruct (JSON_parse data);
        [apply keepsClock_throw|apply keepsClock_ret].
    + intros e. apply keepsClock_bind; [apply keepsClock_console_error|].
      intros _. apply keepsClock_ret.
  - intros [v|]; apply keepsClock_ret.
Qed.

(** Whatever a call returns is what the pipeline returns on the ledger it
    loaded, at the time of the call. *)
Lemma getMigrationsToAlert_detect JSON_parse JSON_stringify
    (ms : list Migration) (th : Q) (w w' : World) (alerts : list Alert) :
  getMigrationsToAlert JSON_parse JSON_stringify ms th w = (Ok alerts, w') ->
  exists seen, alerts = snd (detect seen (clock w) ms th).
Proof.
  unfold getMigrationsToAlert. unfold mbind at 1, M_bind at 1.
  destruct (loadSeenMigrations JSON_parse w) as [[seen|e] w1] eqn:El;
    [|discriminate].
  apply load_clock in El.
  unfold mbind at 1, M_bind at 1, Date_now.
  unfold mbind, M_bind.
  destruct (saveSeenMigrations JSON_stringify _ w1) as [[[]|e] w2];
    [|discriminate].
  unfold mret, M_ret. intros H. injection H as <- _.
  exists seen. rewrite El. reflexivity.
Qed.

Lemma getMigrationsToAlert_returns JSON_parse JSON_stringify
    (ms : list Migration) (th : Q) (w : World) (alerts : list Alert) :
  fst (getMigrationsToAlert JSON_parse JSON_stringify ms th w) = Ok alerts ->
  exists seen, alerts = snd (detect seen (clock w) ms th).
Proof.
  destruct (getMigrationsToAlert JSON_parse JSON_stringify ms th w)
    as [r w'] eqn:E.
  simpl. intros ->. eapply getMigrationsToAlert_detect. exact E.
Qed.

(** Outside the [try] block, a failure to make the directory is not
    caught. *)
Lemma load_mkdir_failure JSON_parse (w : World) (e : string) :
  dataDir w = false -> mkdirError w = Some e ->
  loadSeenMigrations JSON_parse w = (Throw e, w).
Proof.
  intros Hd He. unfold loadSeenMigrations, mbind, M_bind.
  rewrite (ensureDataDir_throw w e Hd He). reflexivity.
Qed.

End StoreFacts.

(** ** The backing store, whatever the write does *)

Module StoreMore.
Import JS Tracker JSFacts TrackerFacts StoreFacts.

Lemma keeps_ret {A X} (f : World -> X) (a : A) : keeps f (mret a).
Proof. intros w r w' H. injection H as _ <-. reflexivity. Qed.

Lemma keeps_throw {A X} (f : World -> X) (e : string) : keeps f (throw (A := A) e).
Proof. intros w r w' H. injection H as _ <-. reflexivity. Qed.

Lemma keeps_bind {A B X} (f : World -> X) (m : M A) (k : A -> M B) :
  keeps f m -> (forall a, keeps f (k a)) -> keeps f (m ≫= k).
Proof.
  intros Hm Hk w r w'. unfold mbind, M_bind.
  destruct (m w) as [[a|e] w1] eqn:E; intros H.
  - apply Hk in H. apply Hm in E. congruence.
  - injection H as _ <-. eapply Hm; eauto.
Qed.

Lemma keeps_tryCatch {A X} (f : World -> X) (m : M A) (h : string -> M A) :
  keeps f m -> (forall e, keeps f (h e)) -> keeps f (tryCatch m h).
Proof.
  intros Hm Hh w r w'. unfold tryCatch.
  destruct (m w) as [[a|e] w1] eqn:E; intros H.
  - injection H as _ <-. eapply Hm; eauto.
  - apply Hh in H. apply Hm in E. congruence.
Qed.

(** The calls that only look at the world. *)
Lemma keeps_existsSync_DATA_DIR {X} (f : World -> X) : keeps f existsSync_DATA_DIR.
Proof. intros w r w' H. injection H as _ <-. reflexivity. Qed.

Lemma keeps_existsSync_SEEN_FILE {X} (f : World -> X) : keeps f existsSync_SEEN_FILE.
Proof. intros w r w' H. injection H as _ <-. reflexivity. Qed.

Lemma keeps_readFileSync {X} (f : World -> X) : keeps f readFileSync_SEEN_FILE.
Proof.
  intros w r w'. unfold readFileSync_SEEN_FILE.
  destruct (seenFile w) as [[e|data]|]; intros H; injection H as _ <-;
    reflexivity.
Qed.

(** Making the directory and logging leave the file and the two error
    answers alone. *)
Lemma keeps_file_mkdirSync : keeps seenFile mkdirSync_DATA_DIR.
Proof.
  intros w r w'. unfold mkdirSync_DATA_DIR.
  destruct (mkdirError w); intros H; injection H as _ <-; reflexivity.
Qed.

Lemma keeps_writeError_mkdirSync : keeps writeError mkdirSync_DATA_DIR.
Proof.
  intros w r w'. unfold mkdirSync_DATA_DIR.
  destruct (mkdirError w); intros H; injection H as _ <-; reflexivity.
Qed.

Lemma keeps_file_console_error msg : keeps seenFile (console_error msg).
Proof. intros w r w' H. injection H as _ <-. reflexivity. Qed.

Lemma keeps_writeError_console_error msg : keeps writeError (console_error msg).
Proof. intros w r w' H. injection H as _ <-. reflexivity. Qed.

Lemma keeps_file_ensureDataDir : keeps seenFile ensureDataDir.
Proof.
  apply keeps_bind; [apply keeps_existsSync_DATA_DIR|].
  intros []; simpl; [apply keeps_ret|apply keeps_file_mkdirSync].
Qed.

Lemma keeps_writeError_ensureDataDir : keeps writeError ensureDataDir.
Proof.
  apply keeps_bind; [apply keeps_existsSync_DATA_DIR|].
  intros []; simpl; [apply keeps_ret|apply keeps_writeError_mkdirSync].
Qed.

Section WithJSON.
Variable JSON_parse : string -> string + gmap string Z.
Variable JSON_stringify : gmap string Z -> string.

Lemma keeps_parseJSON {X} (f : World -> X) data : keeps f (parseJSON JSON_parse data).
Proof.
  unfold parseJSON. destruct (JSON_parse data);
    [apply keeps_throw|apply keeps_ret].
Qed.

(** Loading reads: it changes neither the file nor what a write would
    answer. *)
Lemma keeps_file_load : keeps seenFile (loadSeenMigrations JSON_parse).
Proof.
  unfold loadSeenMigrations.
  apply keeps_bind; [apply keeps_file_ensureDataDir|]. intros _.
  apply keeps_bind.
  - apply keeps_tryCatch.
    + apply keeps_bind; [apply keeps_existsSync_SEEN_FILE|].
      intros []; [|apply keeps_ret].
      apply keeps_bind; [apply keeps_readFileSync|]. intros data.
      apply keeps_bind; [apply keeps_parseJSON|intros v; apply keeps_ret].
    + intros e. apply keeps_bind; [apply keeps_file_console_error|].
      intros _. apply keeps_ret.
  - intros [v|]; apply keeps_ret.
Qed.

Lemma keeps_writeError_load : keeps writeError (loadSeenMigrations JSON_parse).
Proof.
  unfold loadSeenMigrations.
  apply keeps_bind; [apply keeps_writeError_ensureDataDir|]. intros _.
  apply keeps_bind.
  - apply keeps_tryCatch.
    + apply keeps_bind; [apply keeps_existsSync_SEEN_FILE|].
      intros []; [|apply keeps_ret].
      apply keeps_bind; [apply keeps_readFileSync|]. intros data.
      apply keeps_bind; [apply keeps_parseJSON|intros v; apply keeps_ret].
    + intros e. apply keeps_bind; [apply keeps_writeError_console_error|].
      intros _. apply keeps_ret.
  - intros [v|]; apply keeps_ret.
Qed.

(** With a usable directory, loading always delivers a ledger. *)
Lemma load_total (w : World) :
  dataDir w = true \/ mkdirError w = None ->
  exists seen w1,
    loadSeenMigrations JSON_parse w = (Ok seen, w1) /\
    dataDir w1 = true /\ clock w1 = clock w /\
    seenFile w1 = seenFile w /\ writeError w1 = writeError w.
Proof.
  intros Hdir.
  assert (H : exists seen w1,
             loadSeenMigrations JSON_parse w = (Ok seen, w1) /\
             clock w1 = clock w /\ dataDir w1 = true).
  { destruct (seenFile w) as [[e|data]|] eqn:Ef.
    - destruct (load_noLedger JSON_parse w Hdir) as (w1 & H).
      { right. left. eauto. }
      exists ∅, w1. exact H.
    - destruct (JSON_parse data) as [e|seen] eqn:Ep.
      + destruct (load_noLedger JSON_parse w Hdir) as (w1 & H).
        { right. right. eauto. }
        exists ∅, w1. exact H.
      + destruct (load_stored JSON_parse w data seen Hdir Ef Ep) as (w1 & H).
        exists seen, w1. exact H.
    - destruct (load_noLedger JSON_parse w Hdir) as (w1 & H).
      { left. exact Ef. }
      exists ∅, w1. exact H. }
  destruct H as (seen & w1 & Hl & Hc & Hd).
  exists seen, w1. split; [exact Hl|]. split; [exact Hd|]. split; [exact Hc|].
  split; [eapply keeps_file_load|eapply keeps_writeError_load]; eauto.
Qed.

(** What saving does when the directory is usable. *)
Lemma save_usable (w : World) (seen : gmap string Z) :
  dataDir w = true \/ mkdirError w = None ->
  exists w',
    saveSeenMigrations JSON_stringify seen w = (Ok (), w') /\
    dataDir w' = true /\ clock w' = clock w /\
    (writeError w = None ->
     seenFile w' = Some (Readable (JSON_stringify seen)) /\
     console w' = console w) /\
    (forall f, writeError w = Some f ->
     seenFile w' =
       match f with
       | OpenFails _ => seenFile w
       | WriteFails _ written =>
           Some (Readable (String.substring 0 written (JSON_stringify seen)))
       end /\
     console w' =
       console w ++
       ["[Tracker] Error saving seen migrations: " +:+ failureMessage f]).
Proof.
  intros Hdir. unfold saveSeenMigrations.
  destruct (ensureDataDir_ok w Hdir)
    as (w1 & H1 & Hf & Hw & Hc & Hcon & Hd1 & _).
  unfold mbind, M_bind. rewrite H1.
  unfold tryCatch, writeFileSync_SEEN_FILE. rewrite Hw.
  destruct (writeError w) as [[e|e n]|]; cbn [console_error].
  - eexists. split; [reflexivity|]. cbn [dataDir clock seenFile console].
    split; [exact Hd1|]. split; [exact Hc|]. split; [discriminate|].
    intros f Hfail. injection Hfail as <-. rewrite Hf, Hcon. auto.
  - eexists. split; [reflexivity|]. cbn [dataDir clock seenFile console].
    split; [exact Hd1|]. split; [exact Hc|]. split; [discriminate|].
    intros f Hfail. injection Hfail as <-. rewrite Hcon. auto.
  - eexists. split; [reflexivity|]. cbn [dataDir clock seenFile console].
    split; [exact Hd1|]. split; [exact Hc|]. split; [|discriminate].
    intros _. rewrite Hcon. auto.
Qed.

(** A call is its load, the loop on what was loaded, and the save. *)
Lemma getMigrationsToAlert_save (w w1 w' : World) (seen : gmap string Z)
    (ms : list Migration) (th : Q) :
  loadSeenMigrations JSON_parse w = (Ok seen, w1) ->
  saveSeenMigrations JSON_stringify (fst (detect seen (clock w1) ms th)) w1 =
    (Ok (), w') ->
  getMigrationsToAlert JSON_parse JSON_stringify ms th w =
    (Ok (snd (detect seen (clock w1) ms th)), w').
Proof.
  intros Hl Hs. unfold getMigrationsToAlert.
  unfold mbind at 1, M_bind at 1. rewrite Hl.
  unfold mbind at 1, M_bind at 1, Date_now.
  unfold mbind, M_bind. cbn zeta. rewrite Hs. reflexivity.
Qed.

End WithJSON.

(** Clearing with a usable directory, when there is no file or the
    unlink goes through. *)
Lemma clearTracking_ok (unlinkError : option string) (w : World) :
  dataDir w = true \/ mkdirError w = None ->
  seenFile w = None \/ unlinkError = None ->
  exists w',
    clearTracking unlinkError w = (Ok (), w') /\
    seenFile w' = None /\ dataDir w' = true /\ clock w' = clock w.
Proof.
  intros Hdir Hun. unfold clearTracking.
  destruct (ensureDataDir_ok w Hdir) as (w1 & H1 & Hf & _ & Hc & _ & Hd & _).
  unfold mbind at 1, M_bind at 1. rewrite H1.
  unfold mbind, M_bind, existsSync_SEEN_FILE. rewrite Hf.
  destruct (seenFile w) as [file|] eqn:Ef; simpl.
  - destruct Hun as [Hun|Hun]; [discriminate|]. subst unlinkError.
    unfold unlinkSync_SEEN_FILE. eexists. split; [reflexivity|]. simpl. auto.
  - unfold mret, M_ret. exists w1.
    split; [reflexivity|]. split; [congruence|]. split; assumption.
Qed.

End StoreMore.

(** ** Calls of [getMigrationsToAlert] *)

Module CallFacts.
Import JS Tracker JSFacts TrackerFacts StoreFacts StoreMore.

(** What the loop and the eviction do to an entry whose key does not
    fire. *)
Lemma detect_eviction (seen : gmap string Z) (now : Z) (ms : list Migration)
    (th : Q) (key : string) (ts : Z) :
  seen !! key = Some ts ->
  (forall a, a ∈ snd (detect seen now ms th) -> keyOf a <> Some key) ->
  (now - ts <= retentionMs -> fst (detect seen now ms th) !! key = Some ts) /\
  (fst (detect seen now ms th) !! key = None <-> retentionMs < now - ts) /\
  (now - ts = retentionMs -> fst (detect seen now ms th) !! key = Some ts).
Proof.
  rewrite detect_emit. simpl. intros Hk Hq.
  pose proof (emit_frame now th key ms seen Hq) as Hf. rewrite Hk in Hf.
  assert (Hkeep : now - ts <= retentionMs ->
                  evict now (fst (emit now th seen ms)) !! key = Some ts).
  { intros Hle. apply lookup_evict_Some. auto. }
  split; [exact Hkeep|]. split.
  - rewrite lookup_evict_None. rewrite Hf. split.
    + intros [H|(t & H & Hlt)]; [discriminate|]. injection H as <-. exact Hlt.
    + intros Hlt. right. exists ts. auto.
  - intros Heq. apply Hkeep. lia.
Qed.

(** Two runs of the loop, the second on the ledger the first left. *)
Lemma detect_rerun (seen0 : gmap string Z) (now1 now2 : Z)
    (S : list Migration) (th : Q) :
  now1 <> 0 ->
  ((forall m key a t,
       m ∈ S -> candidate th m = Some (key, a) ->
       fst (detect seen0 now1 S th) !! key = Some t ->
       now2 - t < cooldownMs) ->
   snd (detect (fst (detect seen0 now1 S th)) now2 S th) = []) /\
  ((forall m key a,
       m ∈ S -> candidate th m = Some (key, a) ->
       shouldFire seen0 key now1 = true) ->
   now2 - now1 < cooldownMs ->
   snd (detect (fst (detect seen0 now1 S th)) now2 S th) = []) /\
  (seen0 = ∅ -> now2 - now1 < cooldownMs ->
   snd (detect (fst (detect seen0 now1 S th)) now2 S th) = []) /\
  (now2 - now1 < cooldownMs ->
   forall a1 a2,
     a1 ∈ snd (detect seen0 now1 S th) ->
     a2 ∈ snd (detect (fst (detect seen0 now1 S th)) now2 S th) ->
     keyOf a2 <> keyOf a1).
Proof.
  intros Hnow.
  assert (Hkept : forall key,
             fst (emit now1 th seen0 S) !! key = Some now1 ->
             fst (detect seen0 now1 S th) !! key = Some now1).
  { intros key Hl. rewrite fst_detect. apply lookup_evict_Some.
    split; [exact Hl|]. rewrite Z.sub_diag, retentionMs_eq. lia. }
  assert (Hwindow : (forall m key a t,
             m ∈ S -> candidate th m = Some (key, a) ->
             fst (detect seen0 now1 S th) !! key = Some t ->
             now2 - t < cooldownMs) ->
           snd (detect (fst (detect seen0 now1 S th)) now2 S th) = []).
  { intros Hin2. rewrite snd_detect. apply emit_nothing.
    intros m key a Hin Hc. apply shouldFire_false.
    destruct (shouldFire seen0 key now1) eqn:E1.
    - exists now1.
      assert (Hl : fst (detect seen0 now1 S th) !! key = Some now1)
        by (apply Hkept; eapply emit_due; eauto).
      split; [exact Hl|]. split; [exact Hnow|]. eapply Hin2; eauto.
    - pose proof E1 as E1'. apply shouldFire_false in E1'.
      destruct E1' as (t & Ht & Hne & Hlt). exists t.
      assert (Hl : fst (detect seen0 now1 S th) !! key = Some t).
      { rewrite fst_detect. apply lookup_evict_Some.
        destruct (emit_suppressed now1 th key S seen0 E1) as [_ Hsame].
        rewrite Hsame. split; [exact Ht|].
        pose proof cooldown_lt_retention. lia. }
      split; [exact Hl|]. split; [exact Hne|]. eapply Hin2; eauto. }
  assert (Hdue : (forall m key a,
             m ∈ S -> candidate th m = Some (key, a) ->
             shouldFire seen0 key now1 = true) ->
           now2 - now1 < cooldownMs ->
           snd (detect (fst (detect seen0 now1 S th)) now2 S th) = []).
  { intros Hall Hlt. apply Hwindow. intros m key a t Hin Hc Hl.
    rewrite (Hkept key) in Hl.
    - injection Hl as <-. exact Hlt.
    - eapply emit_due; eauto. }
  split; [exact Hwindow|]. split; [exact Hdue|]. split.
  - intros -> Hlt. apply Hdue; [|exact Hlt]. intros m key a _ _.
    unfold shouldFire. rewrite lookup_empty. reflexivity.
  - intros Hlt a1 a2 H1 H2 Heq.
    rewrite snd_detect in H1.
    destruct (emit_source _ _ _ _ _ H1) as (m & key & _ & Hc).
    pose proof (keyOf_candidate _ _ _ _ Hc) as Hk1.
    pose proof (Hkept key (emit_fired now1 th key S seen0 a1 H1 Hk1)) as Hl.
    assert (Hs : shouldFire (fst (detect seen0 now1 S th)) key now2 = false).
    { apply shouldFire_false. exists now1. auto. }
    rewrite snd_detect in H2.
    destruct (emit_suppressed now2 th key S _ Hs) as [Hno _].
    apply (Hno a2 H2). congruence.
Qed.

Section WithJSON.
Variable JSON_parse : string -> string + gmap string Z.
Variable JSON_stringify : gmap string Z -> string.

(** One call on a usable directory: what it returns and what it leaves
    in the file, by what the write does. *)
Lemma call_outcome (w : World) (seen : gmap string Z)
    (ms : list Migration) (th : Q) :
  dataDir w = true \/ mkdirError w = None ->
  fst (loadSeenMigrations JSON_parse w) = Ok seen ->
  exists w',
    getMigrationsToAlert JSON_parse JSON_stringify ms th w =
      (Ok (snd (detect seen (clock w) ms th)), w') /\
    dataDir w' = true /\
    (writeError w = None ->
     seenFile w' =
       Some (Readable (JSON_stringify (fst (detect seen (clock w) ms th))))) /\
    (forall f, writeError w = Some f ->
     seenFile w' =
       match f with
       | OpenFails _ => seenFile w
       | WriteFails _ written =>
           Some (Readable
                   (String.substring 0 written
                      (JSON_stringify (fst (detect seen (clock w) ms th)))))
       end).
Proof.
  intros Hdir Hseen.
  destruct (load_total JSON_parse w Hdir)
    as (seen' & w1 & Hl & Hd1 & Hc1 & Hf1 & Hw1).
  rewrite Hl in Hseen. cbn [fst] in Hseen. injection Hseen as ->.
  destruct (save_usable JSON_stringify w1
              (fst (detect seen (clock w1) ms th)) (or_introl Hd1))
    as (w' & Hs & Hd' & _ & Hgood & Hfail).
  exists w'. rewrite <- Hc1. split; [|split; [exact Hd'|split]].
  - apply (getMigrationsToAlert_save JSON_parse JSON_stringify w w1 w');
      assumption.
  - intros Hw. rewrite <- Hw1 in Hw. apply (Hgood Hw).
  - intros f Hw. rewrite <- Hw1 in Hw. destruct (Hfail f Hw) as [Hfile _].
    rewrite Hfile, Hf1. reflexivity.
Qed.

(** A call that finds the stored text readable as the ledger [seen]. *)
Lemma call_on_stored (w : World) (data : string) (seen : gmap string Z)
    (ms : list Migration) (th : Q) :
  dataDir w = true ->
  seenFile w = Some (Readable data) -> JSON_parse data = inr seen ->
  fst (loadSeenMigrations JSON_parse w) = Ok seen /\
  fst (getMigrationsToAlert JSON_parse JSON_stringify ms th w) =
    Ok (snd (detect seen (clock w) ms th)).
Proof.
  intros Hd Hf Hp.
  destruct (load_stored JSON_parse w data seen (or_introl Hd) Hf Hp)
    as (w1 & Hl & _).
  assert (Hseen : fst (loadSeenMigrations JSON_parse w) = Ok seen)
    by (rewrite Hl; reflexivity).
  split; [exact Hseen|].
  destruct (call_outcome w seen ms th (or_introl Hd) Hseen) as (w' & Hrun & _).
  rewrite Hrun. reflexivity.
Qed.

(** Two calls in a row, when the write of the first goes through and
    reads back. *)
Lemma two_calls (w : World) (seen0 : gmap string Z) (S : list Migration)
    (th : Q) (now2 : Z) :
  dataDir w = true \/ mkdirError w = None ->
  fst (loadSeenMigrations JSON_parse w) = Ok seen0 ->
  writeError w = None ->
  JSON_parse (JSON_stringify (fst (detect seen0 (clock w) S th))) =
    inr (fst (detect seen0 (clock w) S th)) ->
  exists w',
    getMigrationsToAlert JSON_parse JSON_stringify S th w =
      (Ok (snd (detect seen0 (clock w) S th)), w') /\
    fst (getMigrationsToAlert JSON_parse JSON_stringify S th (atTime now2 w')) =
      Ok (snd (detect (fst (detect seen0 (clock w) S th)) now2 S th)).
Proof.
  intros Hdir Hseen Hw Hround.
  destruct (call_outcome w seen0 S th Hdir Hseen)
    as (w' & Hrun & Hd' & Hgood & _).
  exists w'. split; [exact Hrun|].
  apply (call_on_stored (atTime now2 w')
           (JSON_stringify (fst (detect seen0 (clock w) S th))));
    [exact Hd'|exact (Hgood Hw)|exact Hround].
Qed.

(** With a usable directory, what loading returns is decided by the
    file. *)
Lemma load_same_file (w w2 : World) :
  dataDir w = true \/ mkdirError w = None ->
  dataDir w2 = true \/ mkdirError w2 = None ->
  seenFile w2 = seenFile w ->
  fst (loadSeenMigrations JSON_parse w2) = fst (loadSeenMigrations JSON_parse w).
Proof.
  intros Hdir Hdir2 Hfile.
  assert (Hcases : noLedger JSON_parse w \/
                   exists data seen, seenFile w = Some (Readable data) /\
                                     JSON_parse data = inr seen).
  { unfold noLedger. destruct (seenFile w) as [[e|data]|]; eauto.
    destruct (JSON_parse data) as [e|seen] eqn:Ep; eauto 10. }
  destruct Hcases as [Hno|(data & seen & Hf & Hp)].
  - assert (Hno2 : noLedger JSON_parse w2)
      by (unfold noLedger in *; rewrite Hfile; exact Hno).
    destruct (load_noLedger JSON_parse w Hdir Hno) as (w1 & Hl & _).
    destruct (load_noLedger JSON_parse w2 Hdir2 Hno2) as (w3 & Hl2 & _).
    rewrite Hl, Hl2. reflexivity.
  - destruct (load_stored JSON_parse w data seen Hdir Hf Hp) as (w1 & Hl & _).
    rewrite <- Hfile in Hf.
    destruct (load_stored JSON_parse w2 data seen Hdir2 Hf Hp) as (w3 & Hl2 & _).
    rewrite Hl, Hl2. reflexivity.
Qed.

(** Two calls in a row, when the file can not be opened for writing:
    the second starts from the stored ledger of the first. *)
Lemma two_calls_locked (w : World) (seen0 : gmap string Z) (S : list Migration)
    (th : Q) (now2 : Z) (e : string) :
  dataDir w = true \/ mkdirError w = None ->
  fst (loadSeenMigrations JSON_parse w) = Ok seen0 ->
  writeError w = Some (OpenFails e) ->
  exists w',
    getMigrationsToAlert JSON_parse JSON_stringify S th w =
      (Ok (snd (detect seen0 (clock w) S th)), w') /\
    fst (getMigrationsToAlert JSON_parse JSON_stringify S th (atTime now2 w')) =
      Ok (snd (detect seen0 now2 S th)).
Proof.
  intros Hdir Hseen Hw.
  destruct (call_outcome w seen0 S th Hdir Hseen)
    as (w' & Hrun & Hd' & _ & Hfail).
  exists w'. split; [exact Hrun|].
  assert (Hseen2 : fst (loadSeenMigrations JSON_parse (atTime now2 w')) =
                   Ok seen0).
  { rewrite <- Hseen. apply load_same_file; [exact Hdir|left; exact Hd'|].
    exact (Hfail _ Hw). }
  destruct (call_outcome (atTime now2 w') seen0 S th (or_introl Hd') Hseen2)
    as (w'' & Hrun2 & _).
  rewrite Hrun2. reflexivity.
Qed.

End WithJSON.

End CallFacts.

(** ** The matcher *)

Module RegexFacts.
Import Regex.

Lemma consumed_app (pre rest : input) : consumed (pre ++ rest) rest = pre.
Proof.
  unfold consumed. rewrite length_app.
  replace (length pre + length rest - length rest)%nat with (length pre) by lia.
  apply take_app_length.
Qed.

(** A run of class characters followed by something else is taken
    whole at the first try. *)
Lemma greedy_head (p : ascii -> bool) (ds rest : input) :
  Forall (fun c => p c = true) ds ->
  match rest with c :: _ => p c = false | [] => True end ->
  exists l, greedy p (ds ++ rest) = rest :: l.
Proof.
  intros Hds Hrest. induction Hds as [|d ds Hd _ IH]; simpl.
  - destruct rest as [|c rest]; simpl; [eauto|]. rewrite Hrest. eauto.
  - rewrite Hd. destruct IH as [l ->]. simpl. eauto.
Qed.

Lemma space_not_digit c : isSpace c = true -> isDigit c = false.
Proof.
  destruct c as [[|] [|] [|] [|] [|] [|] [|] [|]];
    vm_compute; congruence.
Qed.

Lemma toLower_cases c (l : ascii) :
  l = "h"%char \/ l = "m"%char \/ l = "s"%char ->
  toLower c = l ->
  isDigit c = false /\ isSpace c = false /\
  (c = l \/ toLower l <> l \/ c = ascii_of_nat (nat_of_ascii l - 32)).
Proof.
  intros [->|[->| ->]];
    destruct c as [[|] [|] [|] [|] [|] [|] [|] [|]];
    vm_compute; intros H; try discriminate H; auto.
Qed.

Lemma search_In r : forall s caps,
  search r s = Some caps -> exists s' rest, In (caps, rest) (run r [] s').
Proof.
  induction s as [|c s IH]; intros caps; simpl.
  - destruct (run r [] []) as [|[caps0 rest0] l] eqn:E; [discriminate|].
    intros H. injection H as <-. exists [], rest0. rewrite E. left. reflexivity.
  - destruct (run r [] (c :: s)) as [|[caps0 rest0] l] eqn:E.
    + apply IH.
    + intros H. injection H as <-. exists (c :: s), rest0. rewrite E.
      left. reflexivity.
Qed.

Lemma search_here r s caps rest l :
  run r [] s = (caps, rest) :: l -> search r s = Some caps.
Proof. intros H. destruct s; simpl; rewrite H; reflexivity. Qed.

End RegexFacts.

(** ** The time parser *)

Module ScraperFacts.
Import Regex Scraper RegexFacts.

(** The letters the compact pattern ends in. *)
Lemma unit_run caps c s st :
  In st (run (Alt (ci "h") (Alt (ci "m") (ci "s"))) caps (c :: s)) ->
  st = (caps, s) /\
  (toLower c = "h"%char \/ toLower c = "m"%char \/ toLower c = "s"%char).
Proof.
  simpl.
  destruct (Ascii.eqb (toLower c) "h") eqn:Eh;
    destruct (Ascii.eqb (toLower c) "m") eqn:Em;
    destruct (Ascii.eqb (toLower c) "s") eqn:Es; simpl;
    try apply Ascii.eqb_eq in Eh; try apply Ascii.eqb_eq in Em;
    try apply Ascii.eqb_eq in Es;
    intuition (subst; auto; congruence).
Qed.

Lemma unit_run_nil caps : run (Alt (ci "h") (Alt (ci "m") (ci "s"))) caps [] = [].
Proof. reflexivity. Qed.

(** Every match of the compact pattern binds group 1 and binds group 2
    to one letter that is h, m or s up to case. *)
Lemma shortRe_shape s st :
  In st (run shortRe [] s) ->
  exists ds u,
    fst st = [(2%nat, [u]); (1%nat, ds)] /\
    (toLower u = "h"%char \/ toLower u = "m"%char \/ toLower u = "s"%char).
Proof.
  unfold shortRe.
  change (run (Cat (Grp 1 (Plus isDigit))
                 (Cat (Star isSpace) (Grp 2 (Alt (ci "h") (Alt (ci "m") (ci "s"))))))
              [] s)
    with (flat_map
            (fun st1 : captures * input =>
               flat_map
                 (fun st2 : captures * input =>
                    map (fun st3 : captures * input =>
                           ((2%nat, consumed (snd st2) (snd st3)) :: fst st3, snd st3))
                        (run (Alt (ci "h") (Alt (ci "m") (ci "s"))) (fst st2) (snd st2)))
                 (map (pair (fst st1)) (greedy isSpace (snd st1))))
            (map (fun st0 : captures * input =>
                    ((1%nat, consumed s (snd st0)) :: fst st0, snd st0))
                 (run (Plus isDigit) [] s))).
  intros H. apply in_flat_map in H. destruct H as (st1 & H1 & H).
  apply in_flat_map in H. destruct H as (st2 & H2 & H).
  apply in_map_iff in H. destruct H as (st3 & <- & H3).
  apply in_map_iff in H1. destruct H1 as (st0 & <- & H0).
  apply in_map_iff in H2. destruct H2 as (s2 & <- & _).
  cbn [fst snd] in *.
  assert (Hc0 : fst st0 = []).
  { destruct s as [|c s]; simpl in H0; [contradiction|].
    destruct (isDigit c); [|contradiction].
    apply in_map_iff in H0. destruct H0 as (x & <- & _). reflexivity. }
  destruct s2 as [|u s2]; [rewrite unit_run_nil in H3; contradiction|].
  apply unit_run in H3. destruct H3 as [-> Hu]. cbn [fst snd].
  exists (consumed s (snd st0)), u. rewrite Hc0. split; [|exact Hu].
  change (u :: s2) with ([u] ++ s2). rewrite consumed_app. reflexivity.
Qed.

(** The [switch] of the compact form always returns. *)
Lemma shortCase_unit value u :
  toLower u = "h"%char \/ toLower u = "m"%char \/ toLower u = "s"%char ->
  shortCase value (string_of_list_ascii (toLowerCase [u])) =
  Some (if Ascii.eqb (toLower u) "h" then value * 60
        else if Ascii.eqb (toLower u) "m" then value
        else ceilDiv60 value).
Proof.
  unfold toLowerCase. simpl. intros [->|[->| ->]]; reflexivity.
Qed.

(** The compact pattern matches a compact-unit text at its start, with
    the digits and the unit letter as groups. *)
Lemma shortRe_compact (d : ascii) (ds ws : input) (u : ascii) (rest : input) :
  Forall (fun c => isDigit c = true) (d :: ds) ->
  Forall (fun c => isSpace c = true) ws ->
  toLower u = "h"%char \/ toLower u = "m"%char \/ toLower u = "s"%char ->
  search shortRe ((d :: ds) ++ ws ++ u :: rest) =
  Some [(2%nat, [u]); (1%nat, d :: ds)].
Proof.
  intros Hds Hws Hu.
  assert (Hud : isDigit u = false /\ isSpace u = false).
  { destruct Hu as [H|[H|H]];
      (eapply toLower_cases in H; [destruct H as (H1 & H2 & _); auto|auto]). }
  destruct Hud as [Hud Hus].
  assert (Hfirst : match ws ++ u :: rest with
                   | c :: _ => isDigit c = false
                   | [] => True
                   end).
  { destruct ws as [|w ws]; simpl; [exact Hud|].
    apply space_not_digit. inversion Hws. assumption. }
  inversion Hds as [|? ? Hd Hds']. subst.
  destruct (greedy_head isDigit ds (ws ++ u :: rest) Hds' Hfirst) as [l1 E1].
  destruct (greedy_head isSpace ws (u :: rest) Hws Hus) as [l2 E2].
  assert (Hunit : run (Alt (ci "h") (Alt (ci "m") (ci "s")))
                    [(1%nat, d :: ds)] (u :: rest)
                  = [([(1%nat, d :: ds)], rest)]).
  { simpl. destruct Hu as [H|[H|H]]; rewrite H; reflexivity. }
  assert (Hrun : exists l,
             run shortRe [] ((d :: ds) ++ ws ++ u :: rest) =
             ([(2%nat, [u]); (1%nat, d :: ds)], rest) :: l).
  { unfold shortRe.
    change (run (Cat (Grp 1 (Plus isDigit))
                   (Cat (Star isSpace)
                      (Grp 2 (Alt (ci "h") (Alt (ci "m") (ci "s"))))))
                [] ((d :: ds) ++ ws ++ u :: rest))
      with (flat_map
              (fun st1 : captures * input =>
                 flat_map
                   (fun st2 : captures * input =>
                      map (fun st3 : captures * input =>
                             ((2%nat, consumed (snd st2) (snd st3)) :: fst st3,
                              snd st3))
                          (run (Alt (ci "h") (Alt (ci "m") (ci "s")))
                             (fst st2) (snd st2)))
                   (map (pair (fst st1)) (greedy isSpace (snd st1))))
              (map (fun st0 : captures * input =>
                      ((1%nat, consumed ((d :: ds) ++ ws ++ u :: rest) (snd st0))
                         :: fst st0, snd st0))
                   (run (Plus isDigit) [] ((d :: ds) ++ ws ++ u :: rest)))).
    change (run (Plus isDigit) [] ((d :: ds) ++ ws ++ u :: rest))
      with (if isDigit d
            then map (pair ([] : captures)) (greedy isDigit (ds ++ ws ++ u :: rest))
            else []).
    rewrite Hd, E1. cbn [map flat_map fst snd].
    rewrite consumed_app, E2. cbn [map flat_map fst snd app].
    rewrite Hunit. cbn [map flat_map fst snd app].
    change (u :: rest) with ([u] ++ rest). rewrite consumed_app.
    eexists. reflexivity. }
  destruct Hrun as [l Hrun]. eapply search_here. exact Hrun.
Qed.

Lemma search_shortRe_shape s m :
  search shortRe s = Some m ->
  exists ds u,
    m = [(2%nat, [u]); (1%nat, ds)] /\
    (toLower u = "h"%char \/ toLower u = "m"%char \/ toLower u = "s"%char).
Proof.
  intros H. apply search_In in H. destruct H as (s' & rest & H).
  apply shortRe_shape in H. exact H.
Qed.

(** What the first attempt returns on a match. *)
Lemma tryShort_match s ds u :
  search shortRe s = Some [(2%nat, [u]); (1%nat, ds)] ->
  toLower u = "h"%char \/ toLower u = "m"%char \/ toLower u = "s"%char ->
  tryShort s =
  Some (if Ascii.eqb (toLower u) "h" then parseInt ds * 60
        else if Ascii.eqb (toLower u) "m" then parseInt ds
        else ceilDiv60 (parseInt ds)).
Proof.
  intros Hs Hu. unfold tryShort. rewrite Hs.
  change (group 2 [(2%nat, [u]); (1%nat, ds)]) with [u].
  change (group 1 [(2%nat, [u]); (1%nat, ds)]) with ds.
  apply shortCase_unit. exact Hu.
Qed.

(** A result of the first attempt is the result of the parser. *)
Lemma parse_tryShort text r :
  tryShort (list_ascii_of_string text) = Some r ->
  Scraper.parseTimeToMinutes (Some text) = Some r.
Proof.
  intros H. unfold parseTimeToMinutes.
  destruct text as [|c text]; [vm_compute in H; discriminate|].
  change (JS.truthy (Some (String c text))) with true. cbn [negb].
  rewrite H. reflexivity.
Qed.

Lemma ceilDiv60_spec v :
  60 * (ceilDiv60 v - 1) < v <= 60 * ceilDiv60 v.
Proof.
  unfold ceilDiv60, Qceiling, Qfloor, Qdiv, Qmult, Qinv, Qopp, inject_Z. simpl.
  change (Z.pos (1 * 60)) with 60. rewrite Z.mul_1_r.
  pose proof (Z.div_mod (- v) 60 ltac:(lia)) as Hdm.
  pose proof (Z.mod_pos_bound (- v) 60 ltac:(lia)) as Hb.
  lia.
Qed.

End ScraperFacts.

(** * The properties of the design document *)

Import JS Tracker Regex Scraper.
Import JSFacts TrackerFacts StoreFacts StoreMore CallFacts RegexFacts ScraperFacts.

(** C1, as the code has it.  After [record(k, t)] with a non-zero time
    [t], [shouldFire(k, t')] is true if and only if the entry's age
    [t' - t] is at least the cooldown of ten minutes (not only when it
    exceeds it); it is false one millisecond before the cooldown has
    passed and true one millisecond after.  On any ledger the test is true
    exactly when the key has no entry, a zero entry, or an entry at least
    ten minutes old.  The test changes nothing: an observation that passes
    the filters leaves the ledger and the alerts as they were when the
    test fails, and records [now] and pushes its alert when it succeeds. *)
Theorem shouldFire_after_record (seen : gmap string Z) (k : string) (t t' : Z) :
  t <> 0 ->
  (shouldFire (record seen k t) k t' = true <-> cooldownMs <= t' - t) /\
  shouldFire (record seen k t) k (t + cooldownMs - 1) = false /\
  shouldFire (record seen k t) k (t + cooldownMs + 1) = true /\
  (shouldFire seen k t' = true <->
     seen !! k = None \/ seen !! k = Some 0 \/
     exists t0, seen !! k = Some t0 /\ cooldownMs <= t' - t0) /\
  (forall th m a acc,
      candidate th m = Some (k, a) ->
      visit t th (seen, acc) m =
        if shouldFire seen k t then (record seen k t, acc ++ [a]) else (seen, acc)).
Proof.
  intros Ht. repeat split.
  - rewrite shouldFire_record_eq by exact Ht.
    rewrite negb_true_iff, Z.ltb_ge. tauto.
  - rewrite shouldFire_record_eq by exact Ht.
    rewrite negb_true_iff, Z.ltb_ge. tauto.
  - rewrite shouldFire_record_eq by exact Ht.
    rewrite negb_false_iff, Z.ltb_lt. lia.
  - rewrite shouldFire_record_eq by exact Ht.
    rewrite negb_true_iff, Z.ltb_ge. lia.
  - apply shouldFire_true.
  - apply shouldFire_true.
  - intros th m a acc Hc. unfold visit. rewrite Hc. simpl.
    destruct (shouldFire seen k t); reflexivity.
Qed.

Lemma shouldFire_after_record_witness :
  Examples.T0 <> 0 /\
  shouldFire (record ∅ "X_soon" Examples.T0) "X_soon" (Examples.T0 + cooldownMs - 1) = false.
Proof.
  split.
  - discriminate.
  - apply (shouldFire_after_record ∅ "X_soon" Examples.T0 Examples.T0). discriminate.
Defined.

(** C1 as stated fails at the boundary: with the entry recorded at [T0],
    the test at [T0] plus exactly ten minutes is true although the key has
    an entry and its age does not exceed the cooldown; so the test is not
    equivalent to "no entry, or an age that exceeds the cooldown". *)
Lemma shouldFire_at_cooldown_counterexample :
  shouldFire (record ∅ "X_soon" Examples.T0) "X_soon" Examples.T10 = true /\
  record ∅ "X_soon" Examples.T0 !! "X_soon"%string = Some Examples.T0 /\
  ~ (cooldownMs < Examples.T10 - Examples.T0) /\
  ~ (forall (seen : gmap string Z) (k : string) (t t' : Z),
        t <> 0 ->
        (shouldFire (record seen k t) k t' = true <->
         record seen k t !! k = None \/ cooldownMs < t' - t)).
Proof.
  assert (H1 : shouldFire (record ∅ "X_soon" Examples.T0) "X_soon" Examples.T10
               = true) by (vm_compute; reflexivity).
  assert (H2 : record ∅ "X_soon" Examples.T0 !! "X_soon"%string
               = Some Examples.T0) by apply lookup_record_eq.
  assert (H3 : ~ (cooldownMs < Examples.T10 - Examples.T0))
    by (vm_compute; discriminate).
  repeat split; try assumption.
  intros Hall.
  assert (Hne : Examples.T0 <> 0) by discriminate.
  apply (Hall ∅ "X_soon"%string Examples.T0 Examples.T10 Hne) in H1.
  destruct H1 as [H1|H1]; [congruence|contradiction].
Qed.

(** C2. Whatever the ledger, the time, the batch and the threshold, every
    alert returned comes from an observation of the batch whose debug flag
    is not set and whose [minutesUntil] is a number, neither [null] nor
    [undefined]; the alert carries that very number, which is within the
    threshold.  When the batch was annotated from the time texts, the time
    text of every alerted observation parsed, to that number.  This holds
    of the pipeline on every ledger and of every list that
    [getMigrationsToAlert] returns. *)
Theorem alerts_have_known_timing (ms : list Migration) (th : Q) (a : Alert) :
  (forall (seen : gmap string Z) (now : Z),
      a ∈ snd (detect seen now ms th) ->
      migration a ∈ ms /\
      debug (migration a) = false /\
      minutesUntil (migration a) = Number (alertMinutes a) /\
      minutesUntil (migration a) <> Null /\
      minutesUntil (migration a) <> Undefined /\
      (alertMinutes a <= th)%Q /\
      (forall raws, ms = map Index.annotate raws ->
         exists n, parseTimeToMinutes (timeText (migration a)) = Some n /\
                   alertMinutes a = inject_Z n)) /\
  (forall JSON_parse JSON_stringify (w : World) (alerts : list Alert),
      fst (getMigrationsToAlert JSON_parse JSON_stringify ms th w) = Ok alerts ->
      a ∈ alerts ->
      migration a ∈ ms /\
      debug (migration a) = false /\
      minutesUntil (migration a) = Number (alertMinutes a) /\
      (forall raws, ms = map Index.annotate raws ->
         parseTimeToMinutes (timeText (migration a)) <> None)).
Proof.
  split.
  - intros seen now Ha. apply detect_known_timing in Ha.
    destruct Ha as (Hin & Hd & Hmu & Hle).
    repeat split; auto; try (rewrite Hmu; discriminate).
    intros raws ->. eapply annotate_number; eauto.
  - intros JSON_parse JSON_stringify w alerts Hrun Ha.
    apply getMigrationsToAlert_returns in Hrun. destruct Hrun as (seen & ->).
    apply detect_known_timing in Ha. destruct Ha as (Hin & Hd & Hmu & Hle).
    repeat split; auto.
    intros raws -> Hnone.
    destruct (annotate_number _ _ _ Hin Hmu) as (n & Hn & _). congruence.
Qed.

Lemma alerts_have_known_timing_witness :
  fst (getMigrationsToAlert Examples.rejectAll Examples.writeNothing
         [Examples.X4] 30 Examples.corruptWorld) = Ok [Examples.alertX4] /\
  Examples.alertX4 ∈ [Examples.alertX4] /\
  debug (migration Examples.alertX4) = false.
Proof.
  assert (H1 : fst (getMigrationsToAlert Examples.rejectAll Examples.writeNothing
                      [Examples.X4] 30 Examples.corruptWorld)
               = Ok [Examples.alertX4]) by (vm_compute; reflexivity).
  assert (H2 : Examples.alertX4 ∈ [Examples.alertX4])
    by (apply list_elem_of_singleton; reflexivity).
  split; [exact H1|]. split; [exact H2|].
  apply (proj2 (alerts_have_known_timing [Examples.X4] 30 Examples.alertX4)
           Examples.rejectAll Examples.writeNothing Examples.corruptWorld
           [Examples.alertX4] H1 H2).
Defined.

(** C3. Tier classification is a total function of the minutes with
    inclusive upper edges: at most 5 is imminent, above 5 and at most 15
    is soon, above 15 and at most 30 is upcoming, above 30 is scheduled.
    The four conditions are exclusive and exhaustive, so exactly one tier
    is assigned; 5, 15 and 30 map to imminent, soon and upcoming, and
    30.0001 maps to scheduled.  Every alert carries the tier of its
    minutes. *)
Theorem tier_classification :
  (forall m : Q,
      (tierOf m = imminent <-> (m <= 5)%Q) /\
      (tierOf m = soon <-> (5 < m /\ m <= 15)%Q) /\
      (tierOf m = upcoming <-> (15 < m /\ m <= 30)%Q) /\
      (tierOf m = scheduled <-> (30 < m)%Q)) /\
  tierOf 5 = imminent /\
  tierOf 15 = soon /\
  tierOf 30 = upcoming /\
  tierOf (300001 # 10000) = scheduled /\
  (forall (seen : gmap string Z) (now : Z) (ms : list Migration) (th : Q) (a : Alert),
      a ∈ snd (detect seen now ms th) -> alertTier a = tierOf (alertMinutes a)).
Proof.
  split; [|repeat (split; [reflexivity|]); apply detect_tier].
  intros m. split; [apply tierOf_imminent|].
  split; [apply tierOf_soon|].
  split; [apply tierOf_upcoming|apply tierOf_scheduled].
Qed.

Lemma tier_classification_witness :
  Examples.alertX20 ∈ snd (detect ∅ Examples.T0 [Examples.X4; Examples.X20] 30) /\
  alertTier Examples.alertX20 = tierOf (alertMinutes Examples.alertX20) /\
  (tierOf (alertMinutes Examples.alertX20) = upcoming <->
   (15 < alertMinutes Examples.alertX20 /\ alertMinutes Examples.alertX20 <= 30)%Q).
Proof.
  assert (H : Examples.alertX20 ∈
              snd (detect ∅ Examples.T0 [Examples.X4; Examples.X20] 30)).
  { vm_compute. right. left. }
  split; [exact H|]. split.
  - exact (proj2 (proj2 (proj2 (proj2 (proj2 tier_classification))))
             ∅ Examples.T0 [Examples.X4; Examples.X20] 30%Q Examples.alertX20 H).
  - exact (proj1 (proj2 (proj2 (proj1 tier_classification
                                  (alertMinutes Examples.alertX20))))).
Defined.

(** C4. [parseTimeToMinutes] returns 30 for "30m", 120 for "2h", 1 for
    "45s", 90 for "1:30" and [null] for "garbage".  On every text that
    starts with digits, optional white space and one of the letters h, m,
    s in either case, it returns the digits' value times 60 for h, the
    value for m, and the value divided by 60, rounded up, for s.  The
    compact form is tried first and wins: whenever its pattern matches
    anywhere in a text, the result is computed from that match alone,
    whatever word or clock forms the text also holds. *)
Theorem parseTimeToMinutes_compact_first :
  parseTimeToMinutes (Some "30m"%string) = Some 30 /\
  parseTimeToMinutes (Some "2h"%string) = Some 120 /\
  parseTimeToMinutes (Some "45s"%string) = Some 1 /\
  parseTimeToMinutes (Some "1:30"%string) = Some 90 /\
  parseTimeToMinutes (Some "garbage"%string) = None /\
  (forall (d : ascii) (ds ws : list ascii) (u : ascii) (rest : list ascii),
      Forall (fun c => isDigit c = true) (d :: ds) ->
      Forall (fun c => isSpace c = true) ws ->
      toLower u = "h"%char \/ toLower u = "m"%char \/ toLower u = "s"%char ->
      parseTimeToMinutes
        (Some (string_of_list_ascii ((d :: ds) ++ ws ++ u :: rest))) =
      Some (if Ascii.eqb (toLower u) "h" then parseInt (d :: ds) * 60
            else if Ascii.eqb (toLower u) "m" then parseInt (d :: ds)
            else ceilDiv60 (parseInt (d :: ds)))) /\
  (forall (text : string) (m : list (nat * list ascii)),
      search shortRe (list_ascii_of_string text) = Some m ->
      exists ds u,
        m = [(2%nat, [u]); (1%nat, ds)] /\
        (toLower u = "h"%char \/ toLower u = "m"%char \/ toLower u = "s"%char) /\
        parseTimeToMinutes (Some text) =
        Some (if Ascii.eqb (toLower u) "h" then parseInt ds * 60
              else if Ascii.eqb (toLower u) "m" then parseInt ds
              else ceilDiv60 (parseInt ds))) /\
  (forall v : Z, 60 * (ceilDiv60 v - 1) < v <= 60 * ceilDiv60 v) /\
  parseTimeToMinutes (Some "1:30 5m"%string) = Some 5 /\
  parseTimeToMinutes (Some "2 hours"%string) = Some 120.
Proof.
  repeat (split; [vm_compute; reflexivity|]).
  split; [|split; [|split; [|split; vm_compute; reflexivity]]].
  - intros d ds ws u rest Hds Hws Hu.
    apply parse_tryShort. rewrite list_ascii_of_string_of_list_ascii.
    apply tryShort_match; [|exact Hu].
    apply shortRe_compact; assumption.
  - intros text m Hs.
    destruct (search_shortRe_shape _ _ Hs) as (ds & u & -> & Hu).
    exists ds, u. split; [reflexivity|]. split; [exact Hu|].
    apply parse_tryShort. apply tryShort_match; assumption.
  - apply ceilDiv60_spec.
Qed.

Lemma parseTimeToMinutes_compact_first_witness :
  Forall (fun c => isDigit c = true) ["9"%char; "0"%char] /\
  Forall (fun c => isSpace c = true) [" "%char] /\
  (toLower "S" = "h"%char \/ toLower "S" = "m"%char \/ toLower "S" = "s"%char) /\
  parseTimeToMinutes (Some "90 Seconds"%string) = Some 2.
Proof.
  assert (H1 : Forall (fun c => isDigit c = true) ["9"%char; "0"%char])
    by (repeat constructor).
  assert (H2 : Forall (fun c => isSpace c = true) [" "%char])
    by (repeat constructor).
  assert (H3 : toLower "S" = "h"%char \/ toLower "S" = "m"%char \/
               toLower "S" = "s"%char)
    by (right; right; reflexivity).
  split; [exact H1|]. split; [exact H2|]. split; [exact H3|].
  apply (proj1 (proj2 (proj2 (proj2 (proj2 (proj2
           parseTimeToMinutes_compact_first)))))
           "9"%char ["0"%char] [" "%char] "S"%char
           (list_ascii_of_string "econds") H1 H2 H3).
Defined.




(** C6, as the code has it.  Two observations of one entity with the time
    texts "4m" and "20m", fed in one cycle with a threshold of at least
    20 minutes, are classified imminent and upcoming and have different
    ledger keys.  The cycle returns each of them exactly when its own key
    may fire on the ledger the cycle started from, whatever happens to
    the other; so both fire whenever neither key is inside its cooldown,
    as on the empty ledger.  For every entity and ledger, recording one
    tier leaves the test of every other tier of that entity unchanged,
    and a key's entry is untouched by a batch in which no observation has
    that key. *)
Theorem tiers_fire_independently :
  (forall (seen : gmap string Z) (now : Z) (th : Q) (e : string) (m4 m20 : Migration),
      entityId m4 = Some e -> entityId m20 = Some e -> e <> ""%string ->
      debug m4 = false -> debug m20 = false ->
      timeText m4 = Some "4m"%string -> timeText m20 = Some "20m"%string ->
      (20 <= th)%Q ->
      candidate th (Index.annotate m4) =
        Some (alertKey e imminent, mkAlert (Index.annotate m4) imminent (inject_Z 4)) /\
      candidate th (Index.annotate m20) =
        Some (alertKey e upcoming, mkAlert (Index.annotate m20) upcoming (inject_Z 20)) /\
      alertKey e imminent <> alertKey e upcoming /\
      snd (detect seen now [Index.annotate m4; Index.annotate m20] th) =
        (if shouldFire seen (alertKey e imminent) now
         then [mkAlert (Index.annotate m4) imminent (inject_Z 4)] else []) ++
        (if shouldFire seen (alertKey e upcoming) now
         then [mkAlert (Index.annotate m20) upcoming (inject_Z 20)] else []) /\
      snd (detect ∅ now [Index.annotate m4; Index.annotate m20] th) =
        [mkAlert (Index.annotate m4) imminent (inject_Z 4);
         mkAlert (Index.annotate m20) upcoming (inject_Z 20)]) /\
  (forall (seen : gmap string Z) (e : string) (t1 t2 : Tier) (now now' : Z),
      t1 <> t2 ->
      shouldFire (record seen (alertKey e t1) now) (alertKey e t2) now' =
      shouldFire seen (alertKey e t2) now') /\
  (forall (seen : gmap string Z) (now : Z) (th : Q) (ms : list Migration) (key : string),
      (forall m key' a, m ∈ ms -> candidate th m = Some (key', a) -> key' <> key) ->
      fst (scan now th (seen, []) ms) !! key = seen !! key).
Proof.
  split; [|split].
  - intros seen now th e m4 m20 He4 He20 Hne Hd4 Hd20 Ht4 Ht20 Hth.
    assert (Hkeys : alertKey e imminent <> alertKey e upcoming).
    { intros H. apply alertKey_tier_inj in H. discriminate. }
    assert (Hc4 : candidate th (Index.annotate m4) =
              Some (alertKey e imminent,
                    mkAlert (Index.annotate m4) imminent (inject_Z 4))).
    { apply (candidate_number th (Index.annotate m4) e (inject_Z 4));
        [assumption | assumption | assumption | | unfold inject_Z; lra].
      unfold Index.annotate. simpl. rewrite Ht4. reflexivity. }
    assert (Hc20 : candidate th (Index.annotate m20) =
              Some (alertKey e upcoming,
                    mkAlert (Index.annotate m20) upcoming (inject_Z 20))).
    { apply (candidate_number th (Index.annotate m20) e (inject_Z 20));
        [assumption | assumption | assumption | | unfold inject_Z; lra].
      unfold Index.annotate. simpl. rewrite Ht20. reflexivity. }
    assert (Hout : forall s,
       snd (detect s now [Index.annotate m4; Index.annotate m20] th) =
        (if shouldFire s (alertKey e imminent) now
         then [mkAlert (Index.annotate m4) imminent (inject_Z 4)] else []) ++
        (if shouldFire s (alertKey e upcoming) now
         then [mkAlert (Index.annotate m20) upcoming (inject_Z 20)] else [])).
    { intros s. rewrite detect_emit. simpl. rewrite Hc4, Hc20.
      destruct (shouldFire s (alertKey e imminent) now) eqn:E4; simpl.
      - rewrite shouldFire_record_ne by exact Hkeys.
        destruct (shouldFire s (alertKey e upcoming) now); reflexivity.
      - destruct (shouldFire s (alertKey e upcoming) now); reflexivity. }
    split; [exact Hc4|]. split; [exact Hc20|]. split; [exact Hkeys|].
    split; [apply Hout|].
    rewrite Hout. unfold shouldFire. rewrite !lookup_empty. reflexivity.
  - intros seen e t1 t2 now now' Hne. apply shouldFire_record_ne.
    intros H. apply alertKey_tier_inj in H. contradiction.
  - intros seen now th ms key Hother. rewrite scan_emit. simpl.
    apply emit_frame. intros a Ha Hk.
    destruct (emit_source _ _ _ _ _ Ha) as (m & key' & Hin & Hc).
    rewrite (keyOf_candidate _ _ _ _ Hc) in Hk. injection Hk as ->.
    eapply Hother; eauto.
Qed.

Lemma tiers_fire_independently_witness :
  entityId (Examples.tokenX "4m") = Some "X"%string /\
  entityId (Examples.tokenX "20m") = Some "X"%string /\
  "X"%string <> ""%string /\
  debug (Examples.tokenX "4m") = false /\
  debug (Examples.tokenX "20m") = false /\
  timeText (Examples.tokenX "4m") = Some "4m"%string /\
  timeText (Examples.tokenX "20m") = Some "20m"%string /\
  (20 <= 30)%Q /\
  snd (detect ∅ Examples.T0 [Examples.X4; Examples.X20] 30) =
    [Examples.alertX4; Examples.alertX20].
Proof.
  assert (Hne : "X"%string <> ""%string) by discriminate.
  assert (Hth : (20 <= 30)%Q) by (unfold Qle; simpl; lia).
  repeat (split; [first [reflexivity | exact Hne | exact Hth]|]).
  apply (proj1 tiers_fire_independently ∅ Examples.T0 30%Q "X"%string
           (Examples.tokenX "4m") (Examples.tokenX "20m")
           eq_refl eq_refl Hne eq_refl eq_refl eq_refl eq_refl Hth).
Defined.

(** C6 as stated fails when one of the two keys is inside its cooldown:
    the imminent alert of X fired at [T0], and in the cycle one minute
    later the "4m" observation is held back while the "20m" one fires.
    It also fails under a threshold below 20 minutes, which drops the
    "20m" observation before it is classified. *)
Lemma tiers_counterexample :
  entityId Examples.X4 = entityId Examples.X20 /\
  timeText Examples.X4 = Some "4m"%string /\
  timeText Examples.X20 = Some "20m"%string /\
  snd (detect Examples.firedAtT0 Examples.T1 [Examples.X4; Examples.X20] 30)
    = [Examples.alertX20] /\
  snd (detect ∅ Examples.T1 [Examples.X4; Examples.X20] 10) = [Examples.alertX4].
Proof. repeat split; vm_compute; reflexivity. Qed.

(** C7, as the code has it.  Let a first call of [getMigrationsToAlert]
    on [S] be made at a non-zero time [now1] on a usable data directory,
    from whatever ledger is stored, and a second call on [S] with the
    same threshold at [now2].  When the write of the first call goes
    through and what it wrote reads back, the second call starts from
    the ledger the first one left; then, if it comes less than ten
    minutes after the first, no key that fired in the first call fires
    in the second, and the second call returns no alert at all when no
    key of [S] was held back in the first call, as from the empty
    ledger, or more generally when it is inside the cooldown window of
    every key of [S]: less than ten minutes after the timestamp the
    ledger holds for it.  When the file can not be opened for writing,
    the failure is swallowed and the second call starts from the stored
    ledger of the first, as if the first had not been made. *)
Theorem rerun_within_cooldown
    (JSON_parse : string -> string + gmap string Z)
    (JSON_stringify : gmap string Z -> string)
    (w : World) (seen0 : gmap string Z) (S : list Migration) (th : Q)
    (now2 : Z) :
  clock w <> 0 ->
  dataDir w = true \/ mkdirError w = None ->
  fst (loadSeenMigrations JSON_parse w) = Ok seen0 ->
  let now1 := clock w in
  let alerts1 := snd (detect seen0 now1 S th) in
  let ledger1 := fst (detect seen0 now1 S th) in
  let alerts2 := snd (detect ledger1 now2 S th) in
  (writeError w = None ->
   JSON_parse (JSON_stringify ledger1) = inr ledger1 ->
   exists w',
     getMigrationsToAlert JSON_parse JSON_stringify S th w = (Ok alerts1, w') /\
     fst (getMigrationsToAlert JSON_parse JSON_stringify S th (atTime now2 w'))
       = Ok alerts2) /\
  ((forall m key a t,
       m ∈ S -> candidate th m = Some (key, a) ->
       ledger1 !! key = Some t -> now2 - t < cooldownMs) ->
   alerts2 = []) /\
  ((forall m key a,
       m ∈ S -> candidate th m = Some (key, a) ->
       shouldFire seen0 key now1 = true) ->
   now2 - now1 < cooldownMs -> alerts2 = []) /\
  (seen0 = ∅ -> now2 - now1 < cooldownMs -> alerts2 = []) /\
  (now2 - now1 < cooldownMs ->
   forall a1 a2, a1 ∈ alerts1 -> a2 ∈ alerts2 -> keyOf a2 <> keyOf a1) /\
  (forall e, writeError w = Some (OpenFails e) ->
   exists w',
     getMigrationsToAlert JSON_parse JSON_stringify S th w = (Ok alerts1, w') /\
     fst (getMigrationsToAlert JSON_parse JSON_stringify S th (atTime now2 w'))
       = Ok (snd (detect seen0 now2 S th))).
Proof.
  intros Hnow Hdir Hseen now1 alerts1 ledger1 alerts2.
  destruct (detect_rerun seen0 now1 now2 S th Hnow) as (H1 & H2 & H3 & H4).
  split; [|split; [exact H1|split; [exact H2|split; [exact H3|split]]]].
  - intros Hw Hround.
    apply (two_calls JSON_parse JSON_stringify w seen0 S th now2);
      assumption.
  - exact H4.
  - intros e Hw.
    apply (two_calls_locked JSON_parse JSON_stringify w seen0 S th now2 e);
      assumption.
Qed.

Lemma rerun_within_cooldown_witness :
  exists w',
    getMigrationsToAlert Samples.parseX4 Samples.stringifyEmpty
      [Examples.X4] 30 Samples.firstStart = (Ok [Examples.alertX4], w') /\
    fst (getMigrationsToAlert Samples.parseX4 Samples.stringifyEmpty
           [Examples.X4] 30 (atTime Examples.T1 w')) = Ok [].
Proof.
  destruct (rerun_within_cooldown Samples.parseX4 Samples.stringifyEmpty
              Samples.firstStart ∅ [Examples.X4] 30%Q Examples.T1)
    as (Hcalls & _ & _ & Hempty & _).
  - discriminate.
  - right. reflexivity.
  - reflexivity.
  - destruct Hcalls as (w' & Hfirst & Hsecond).
    + reflexivity.
    + reflexivity.
    + exists w'. split.
      * rewrite Hfirst. reflexivity.
      * rewrite Hsecond. apply f_equal. apply Hempty; reflexivity.
Defined.

(** C7 as stated fails in two ways.  It fails when the ledger already
    holds a key of the batch: the imminent alert of X fired at [T0]; a
    run five minutes later is held back by that entry and returns
    nothing; the same batch fed again five minutes after that run, well
    inside the cooldown since it, returns the alert once more, the entry
    being ten minutes old by then.  And it fails when the ledger of the
    first call is not stored: where the file can not be opened for
    writing, the call at [T0] returns the alert of X and the call one
    minute later returns it again. *)
Lemma rerun_counterexample :
  Examples.T5 <> 0 /\
  Examples.T10 - Examples.T5 < cooldownMs /\
  snd (detect Examples.firedAtT0 Examples.T5 [Examples.X4] 30) = [] /\
  fst (detect Examples.firedAtT0 Examples.T5 [Examples.X4] 30) !! "X_imminent"%string
    = Some Examples.T0 /\
  snd (detect (fst (detect Examples.firedAtT0 Examples.T5 [Examples.X4] 30))
         Examples.T10 [Examples.X4] 30) = [Examples.alertX4] /\
  ~ (forall (seen0 : gmap string Z) (now1 now2 : Z) (S : list Migration) (th : Q),
        now1 <> 0 -> 0 <= now2 - now1 < cooldownMs ->
        snd (detect (fst (detect seen0 now1 S th)) now2 S th) = []) /\
  fst (getMigrationsToAlert Examples.rejectAll Examples.writeNothing
         [Examples.X4] 30 Examples.lockedFresh) = Ok [Examples.alertX4] /\
  fst (getMigrationsToAlert Examples.rejectAll Examples.writeNothing
         [Examples.X4] 30
         (atTime Examples.T1
            (snd (getMigrationsToAlert Examples.rejectAll Examples.writeNothing
                    [Examples.X4] 30 Examples.lockedFresh)))) =
    Ok [Examples.alertX4].
Proof.
  assert (H1 : Examples.T5 <> 0) by discriminate.
  assert (H2 : Examples.T10 - Examples.T5 < cooldownMs) by reflexivity.
  assert (H3 : snd (detect (fst (detect Examples.firedAtT0 Examples.T5
                                   [Examples.X4] 30))
                      Examples.T10 [Examples.X4] 30) = [Examples.alertX4])
    by (vm_compute; reflexivity).
  split; [exact H1|]. split; [exact H2|].
  split; [vm_compute; reflexivity|]. split; [vm_compute; reflexivity|].
  split; [exact H3|]. split.
  - intros Hall.
    rewrite (Hall Examples.firedAtT0 Examples.T5 Examples.T10 [Examples.X4]
               30%Q H1) in H3.
    + discriminate.
    + split; [discriminate|exact H2].
  - split; vm_compute; reflexivity.
Qed.

(** C8, as the code has it.  Let [getMigrationsToAlert] be called at time
    [now] on a usable data directory, let the ledger it loads hold an
    entry for a key, and let that key not fire during the call.  The
    call returns normally.  In the ledger it hands to the save, the
    entry keeps its timestamp if its age is at most 24 hours and is
    gone if and only if its age exceeds 24 hours; at exactly 24 hours it
    is kept.  That ledger is the stored ledger after the call when the
    write goes through: the file then holds its text, and the next load
    returns it when the text reads back.  When the write fails on
    opening the file, the failure is swallowed and the stored ledger is
    left as it was, the entries older than 24 hours included. *)
Theorem eviction_frame
    (JSON_parse : string -> string + gmap string Z)
    (JSON_stringify : gmap string Z -> string)
    (w : World) (seen : gmap string Z) (ms : list Migration) (th : Q)
    (key : string) (ts : Z) :
  dataDir w = true \/ mkdirError w = None ->
  fst (loadSeenMigrations JSON_parse w) = Ok seen ->
  seen !! key = Some ts ->
  (forall a, a ∈ snd (detect seen (clock w) ms th) -> keyOf a <> Some key) ->
  let now := clock w in
  let ledger := fst (detect seen now ms th) in
  exists w',
    getMigrationsToAlert JSON_parse JSON_stringify ms th w =
      (Ok (snd (detect seen now ms th)), w') /\
    (now - ts <= retentionMs -> ledger !! key = Some ts) /\
    (ledger !! key = None <-> retentionMs < now - ts) /\
    (now - ts = retentionMs -> ledger !! key = Some ts) /\
    (writeError w = None ->
     seenFile w' = Some (Readable (JSON_stringify ledger)) /\
     (JSON_parse (JSON_stringify ledger) = inr ledger ->
      forall now',
        fst (loadSeenMigrations JSON_parse (atTime now' w')) = Ok ledger)) /\
    (forall e, writeError w = Some (OpenFails e) -> seenFile w' = seenFile w).
Proof.
  intros Hdir Hseen Hk Hq now ledger.
  destruct (call_outcome JSON_parse JSON_stringify w seen ms th Hdir Hseen)
    as (w' & Hrun & Hd' & Hgood & Hfail).
  destruct (detect_eviction seen now ms th key ts Hk Hq) as (H1 & H2 & H3).
  exists w'. split; [exact Hrun|]. split; [exact H1|]. split; [exact H2|].
  split; [exact H3|]. split.
  - intros Hw. specialize (Hgood Hw). split; [exact Hgood|].
    intros Hround now'.
    destruct (load_stored JSON_parse (atTime now' w') _ ledger
                (or_introl Hd') Hgood Hround) as (w2 & Hl2 & _).
    rewrite Hl2. reflexivity.
  - intros e Hw. apply (Hfail _ Hw).
Qed.

Lemma eviction_frame_witness :
  fst (getMigrationsToAlert (Examples.parseOld (Examples.T0 - retentionMs))
         Examples.writeNothing [Examples.X4] 30
         (Examples.oldWorld (Examples.T0 - retentionMs) None)) =
    Ok [Examples.alertX4] /\
  fst (detect (Examples.oldLedger (Examples.T0 - retentionMs)) Examples.T0
         [Examples.X4] 30) !! "OLD_imminent"%string =
    Some (Examples.T0 - retentionMs).
Proof.
  set (ts := Examples.T0 - retentionMs).
  assert (Hfired : snd (detect (Examples.oldLedger ts) Examples.T0
                          [Examples.X4] 30) = [Examples.alertX4])
    by (vm_compute; reflexivity).
  destruct (eviction_frame (Examples.parseOld ts) Examples.writeNothing
              (Examples.oldWorld ts None) (Examples.oldLedger ts)
              [Examples.X4] 30%Q "OLD_imminent"%string ts)
    as (w' & Hrun & _ & _ & Hboundary & _).
  - left. reflexivity.
  - reflexivity.
  - vm_compute. reflexivity.
  - intros a Ha. change (clock (Examples.oldWorld ts None)) with Examples.T0 in Ha.
    rewrite Hfired in Ha. apply list_elem_of_singleton in Ha. subst a.
    discriminate.
  - split.
    + rewrite Hrun. cbn [fst].
      change (clock (Examples.oldWorld ts None)) with Examples.T0.
      rewrite Hfired. reflexivity.
    + apply Hboundary. unfold ts. cbn [clock Examples.oldWorld]. lia.
Defined.

(** The claim fails after a call whose write fails: the stored ledger
    holds an entry one millisecond older than 24 hours, its key does not
    fire, the call returns its alert normally, and the ledger that the
    next load returns still holds the entry. *)
Lemma eviction_counterexample :
  let stale := Examples.T0 - retentionMs - 1 in
  let w := Examples.oldWorld stale (Some (OpenFails "EACCES")) in
  let call := getMigrationsToAlert (Examples.parseOld stale)
                Examples.writeNothing [Examples.X4] 30 w in
  fst (loadSeenMigrations (Examples.parseOld stale) w) =
    Ok (Examples.oldLedger stale) /\
  clock w = Examples.T0 /\
  retentionMs < Examples.T0 - stale /\
  fst call = Ok [Examples.alertX4] /\
  keyOf Examples.alertX4 <> Some "OLD_imminent"%string /\
  fst (loadSeenMigrations (Examples.parseOld stale)
         (atTime Examples.T1 (snd call))) = Ok (Examples.oldLedger stale) /\
  Examples.oldLedger stale !! "OLD_imminent"%string = Some stale.
Proof.
  cbv zeta. split; [reflexivity|]. split; [reflexivity|].
  split; [reflexivity|]. split; [vm_compute; reflexivity|].
  split; [discriminate|]. split; vm_compute; reflexivity.
Qed.




(** C10. In one call made at a non-zero time, no two alerts of the output
    have the same ledger key, hence no two have the same pair of entity
    identifier and tier.  When two observations of the batch that pass
    the filters share entity identifier and tier, the later one is passed
    over: on its turn the ledger and the alerts stay as they are, because
    the key's entry, whether just recorded or already there, is younger
    than the cooldown; the call returns the same alerts and ledger as
    without it. *)
Theorem one_alert_per_key (seen : gmap string Z) (now : Z)
    (ms : list Migration) (th : Q) :
  now <> 0 ->
  NoDup (keyOf <$> snd (detect seen now ms th)) /\
  NoDup (pairOf <$> snd (detect seen now ms th)) /\
  (forall l1 m1 l2 m2 l3 key1 a1 key2 a2,
      ms = l1 ++ m1 :: l2 ++ m2 :: l3 ->
      candidate th m1 = Some (key1, a1) ->
      candidate th m2 = Some (key2, a2) ->
      entityId m1 = entityId m2 -> alertTier a1 = alertTier a2 ->
      key1 = key2 /\
      visit now th (scan now th (seen, []) (l1 ++ m1 :: l2)) m2 =
        scan now th (seen, []) (l1 ++ m1 :: l2) /\
      detect seen now ms th = detect seen now (l1 ++ m1 :: l2 ++ l3) th) /\
  (forall JSON_parse JSON_stringify (w : World) (alerts : list Alert),
      clock w = now ->
      fst (getMigrationsToAlert JSON_parse JSON_stringify ms th w) = Ok alerts ->
      NoDup (pairOf <$> alerts)).
Proof.
  intros Hnow. split; [|split; [|split]].
  - rewrite snd_detect. apply emit_NoDup. exact Hnow.
  - apply detect_NoDup_pairs. exact Hnow.
  - intros l1 m1 l2 m2 l3 key1 a1 key2 a2 -> Hc1 Hc2 He Ht.
    assert (Hkey : key1 = key2).
    { destruct (candidate_key _ _ _ _ Hc1) as (e1 & He1 & ->).
      destruct (candidate_key _ _ _ _ Hc2) as (e2 & He2 & ->).
      congruence. }
    subst key2. split; [reflexivity|]. split.
    + eapply visit_duplicate; eauto.
    + eapply detect_duplicate; eauto.
  - intros JSON_parse JSON_stringify w alerts Hc Hrun.
    apply getMigrationsToAlert_returns in Hrun. destruct Hrun as (s & ->).
    rewrite Hc. apply detect_NoDup_pairs. exact Hnow.
Qed.

Lemma one_alert_per_key_witness :
  Examples.T0 <> 0 /\
  NoDup (keyOf <$> snd (detect ∅ Examples.T0 [Examples.X4; Examples.X4] 30)) /\
  snd (detect ∅ Examples.T0 [Examples.X4; Examples.X4] 30) = [Examples.alertX4].
Proof.
  assert (H : Examples.T0 <> 0) by discriminate.
  split; [exact H|]. split.
  - apply (one_alert_per_key ∅ Examples.T0 [Examples.X4; Examples.X4] 30 H).
  - vm_compute. reflexivity.
Defined.


(** * Further properties of the code *)

(** ** More about the tracker's loop and ledger *)

Module LoopFacts.
Import JS Tracker JSFacts TrackerFacts.

Lemma candidate_migration th m key a :
  candidate th m = Some (key, a) -> migration a = m.
Proof.
  intros H. apply candidate_Some in H.
  destruct H as (_ & e & mu & _ & _ & _ & _ & -> & _). reflexivity.
Qed.

(** The alerted observations are met in the order of the batch. *)
Lemma emit_sublist now th ms : forall seen,
  migration <$> snd (emit now th seen ms) `sublist_of` ms.
Proof.
  induction ms as [|m ms IH]; intros seen; simpl; [constructor|].
  destruct (candidate th m) as [[key a]|] eqn:Ec.
  - destruct (shouldFire seen key now); simpl.
    + rewrite (candidate_migration _ _ _ _ Ec). apply sublist_skip, IH.
    + apply sublist_cons, IH.
  - apply sublist_cons, IH.
Qed.

(** A key that may fire and is met in the batch does fire. *)
Lemma emit_due_alert now th key ms : forall seen m a,
  m ∈ ms -> candidate th m = Some (key, a) ->
  shouldFire seen key now = true ->
  exists a', a' ∈ snd (emit now th seen ms) /\ keyOf a' = Some key.
Proof.
  induction ms as [|m0 ms IH]; intros seen m a Hin Hc Hs.
  - apply elem_of_nil in Hin. contradiction.
  - simpl. destruct (candidate th m0) as [[k0 a0]|] eqn:Ec.
    + destruct (decide (k0 = key)) as [->|Hne].
      * rewrite Hs. simpl. exists a0. split; [left|].
        eapply keyOf_candidate; eauto.
      * apply elem_of_cons in Hin. destruct Hin as [->|Hin]; [congruence|].
        destruct (shouldFire seen k0 now); simpl.
        -- destruct (IH (record seen k0 now) m a Hin Hc) as (a' & Ha' & Hk).
           { rewrite shouldFire_record_ne by exact Hne. exact Hs. }
           exists a'. split; [right; exact Ha'|exact Hk].
        -- eapply IH; eauto.
    + apply elem_of_cons in Hin. destruct Hin as [->|Hin]; [congruence|].
      eapply IH; eauto.
Qed.

(** The keys that fire in a run. *)
Lemma detect_fired_iff seen now ms th key :
  (exists a, a ∈ snd (detect seen now ms th) /\ keyOf a = Some key) <->
  (exists m a, m ∈ ms /\ candidate th m = Some (key, a)) /\
  shouldFire seen key now = true.
Proof.
  rewrite snd_detect. split.
  - intros (a & Ha & Hk).
    destruct (emit_source _ _ _ _ _ Ha) as (m & key' & Hin & Hc).
    pose proof (keyOf_candidate _ _ _ _ Hc) as Hk'.
    assert (key' = key) by congruence. subst key'.
    split; [eauto|].
    destruct (shouldFire seen key now) eqn:Es; [reflexivity|].
    destruct (emit_suppressed now th key ms seen Es) as [Hno _].
    exfalso. apply (Hno a Ha Hk).
  - intros [(m & a & Hin & Hc) Hs]. eapply emit_due_alert; eauto.
Qed.

(** A wider threshold lets through whatever a narrower one does. *)
Lemma candidate_mono th1 th2 m key a :
  (th1 <= th2)%Q -> candidate th1 m = Some (key, a) ->
  candidate th2 m = Some (key, a).
Proof.
  intros Hle H. apply candidate_Some in H.
  destruct H as (Hd & e & mu & He & Hne & Hmu & Hmle & -> & ->).
  apply candidate_number; auto. eapply Qle_trans; eauto.
Qed.

(** Whether a key is among the keys of a list of alerts. *)
Lemma fired_or_not (l : list Alert) (key : string) :
  (exists a, a ∈ l /\ keyOf a = Some key) \/
  (forall a, a ∈ l -> keyOf a <> Some key).
Proof.
  induction l as [|a0 l IH].
  - right. intros a Ha. apply elem_of_nil in Ha. contradiction.
  - destruct (decide (keyOf a0 = Some key)) as [Hk|Hk].
    + left. exists a0. split; [left|exact Hk].
    + destruct IH as [(a & Ha & Hka)|Hno].
      * left. exists a. split; [right; exact Ha|exact Hka].
      * right. intros a Ha. apply elem_of_cons in Ha.
        destruct Ha as [->|Ha]; [exact Hk|apply Hno; exact Ha].
Qed.

End LoopFacts.

Import LoopFacts.

(** X1. The alerts come in the order of the batch: the observations of the
    returned alerts are a subsequence of the observations fed in, with
    nothing reordered or doubled. *)
Theorem alerts_keep_batch_order (seen : gmap string Z) (now : Z)
    (ms : list Migration) (th : Q) :
  migration <$> snd (detect seen now ms th) `sublist_of` ms.
Proof. rewrite snd_detect. apply emit_sublist. Qed.

(** X2. A key fires in a call exactly when some observation of the batch
    passes the filters with that key and the key may fire on the ledger
    the call starts from: no eligible key is dropped and none fires
    without cause. *)
Theorem key_fires_iff_due (seen : gmap string Z) (now : Z)
    (ms : list Migration) (th : Q) (key : string) :
  (exists a, a ∈ snd (detect seen now ms th) /\ keyOf a = Some key) <->
  (exists m a, m ∈ ms /\ candidate th m = Some (key, a)) /\
  shouldFire seen key now = true.
Proof. apply detect_fired_iff. Qed.

(** X3. Raising the threshold never silences a key: every key that fires
    under a threshold fires under every larger one, on the same ledger
    and batch. *)
Theorem wider_threshold_keeps_keys (seen : gmap string Z) (now : Z)
    (ms : list Migration) (th1 th2 : Q) (a1 : Alert) :
  (th1 <= th2)%Q ->
  a1 ∈ snd (detect seen now ms th1) ->
  exists a2, a2 ∈ snd (detect seen now ms th2) /\ keyOf a2 = keyOf a1.
Proof.
  intros Hle Ha.
  assert (Hk : exists key, keyOf a1 = Some key).
  { rewrite snd_detect in Ha.
    destruct (emit_source _ _ _ _ _ Ha) as (m & key & _ & Hc).
    exists key. eapply keyOf_candidate; eauto. }
  destruct Hk as (key & Hk). rewrite Hk.
  apply detect_fired_iff.
  destruct (proj1 (detect_fired_iff seen now ms th1 key)) as [(m & a & Hin & Hc) Hs].
  { eauto. }
  split; [|exact Hs]. exists m, a. split; [exact Hin|].
  eapply candidate_mono; eauto.
Qed.

Lemma wider_threshold_keeps_keys_witness :
  (10 <= 30)%Q /\
  Examples.alertX4 ∈ snd (detect ∅ Examples.T0 [Examples.X4; Examples.X20] 10) /\
  exists a2, a2 ∈ snd (detect ∅ Examples.T0 [Examples.X4; Examples.X20] 30) /\
             keyOf a2 = keyOf Examples.alertX4.
Proof.
  assert (H1 : (10 <= 30)%Q) by (unfold Qle; simpl; lia).
  assert (H2 : Examples.alertX4 ∈
               snd (detect ∅ Examples.T0 [Examples.X4; Examples.X20] 10)).
  { vm_compute. left. }
  split; [exact H1|]. split; [exact H2|].
  exact (wider_threshold_keeps_keys ∅ Examples.T0 [Examples.X4; Examples.X20]
           10%Q 30%Q Examples.alertX4 H1 H2).
Defined.

(** X4. Under a threshold of at most 30 minutes, the default, no alert is
    of the scheduled tier: every alert is imminent, soon or upcoming. *)
Theorem no_scheduled_alert_within_30 (seen : gmap string Z) (now : Z)
    (ms : list Migration) (th : Q) (a : Alert) :
  (th <= 30)%Q ->
  a ∈ snd (detect seen now ms th) ->
  alertTier a <> scheduled.
Proof.
  intros Hth Ha Hs.
  pose proof (detect_tier _ _ _ _ _ Ha) as Ht.
  apply detect_known_timing in Ha. destruct Ha as (_ & _ & _ & Hle).
  rewrite Ht in Hs. apply tierOf_scheduled in Hs. lra.
Qed.

Lemma no_scheduled_alert_within_30_witness :
  (30 <= 30)%Q /\
  Examples.alertX20 ∈ snd (detect ∅ Examples.T0 [Examples.X4; Examples.X20] 30) /\
  alertTier Examples.alertX20 <> scheduled.
Proof.
  assert (H1 : (30 <= 30)%Q) by (unfold Qle; simpl; lia).
  assert (H2 : Examples.alertX20 ∈
               snd (detect ∅ Examples.T0 [Examples.X4; Examples.X20] 30)).
  { vm_compute. right. left. }
  split; [exact H1|]. split; [exact H2|].
  exact (no_scheduled_alert_within_30 ∅ Examples.T0 [Examples.X4; Examples.X20]
           30%Q Examples.alertX20 H1 H2).
Defined.

(** X5. The ledger a call leaves: a key that fired holds the time of the
    call; every entry is at most 24 hours old; and every entry either
    belongs to a key that fired, with the time of the call, or was there
    before with the same timestamp.  No other key appears. *)
Theorem ledger_after_call (seen : gmap string Z) (now : Z)
    (ms : list Migration) (th : Q) (key : string) :
  ((exists a, a ∈ snd (detect seen now ms th) /\ keyOf a = Some key) ->
   fst (detect seen now ms th) !! key = Some now) /\
  (forall t, fst (detect seen now ms th) !! key = Some t ->
     now - t <= retentionMs /\
     ((t = now /\ exists a, a ∈ snd (detect seen now ms th) /\ keyOf a = Some key) \/
      (seen !! key = Some t /\
       forall a, a ∈ snd (detect seen now ms th) -> keyOf a <> Some key))).
Proof.
  rewrite fst_detect, snd_detect. split.
  - intros (a & Ha & Hk). apply lookup_evict_Some. split.
    + eapply emit_fired; eauto.
    + rewrite Z.sub_diag, retentionMs_eq. lia.
  - intros t Ht. apply lookup_evict_Some in Ht. destruct Ht as [Ht Hage].
    split; [exact Hage|].
    destruct (fired_or_not (snd (emit now th seen ms)) key) as [Hf|Hno].
    + left. split; [|exact Hf]. destruct Hf as (a & Ha & Hk).
      rewrite (emit_fired now th key ms seen a Ha Hk) in Ht. congruence.
    + right. split; [|exact Hno].
      rewrite <- (emit_frame now th key ms seen Hno). exact Ht.
Qed.

Lemma ledger_after_call_witness :
  (exists a, a ∈ snd (detect Examples.firedAtT0 Examples.T1
                        [Examples.X4; Examples.X20] 30) /\
             keyOf a = Some "X_upcoming"%string) /\
  fst (detect Examples.firedAtT0 Examples.T1 [Examples.X4; Examples.X20] 30)
    !! "X_upcoming"%string = Some Examples.T1.
Proof.
  assert (H : exists a,
             a ∈ snd (detect Examples.firedAtT0 Examples.T1
                        [Examples.X4; Examples.X20] 30) /\
             keyOf a = Some "X_upcoming"%string).
  { exists Examples.alertX20. split; [vm_compute; left|reflexivity]. }
  split; [exact H|].
  exact (proj1 (ledger_after_call Examples.firedAtT0 Examples.T1
                  [Examples.X4; Examples.X20] 30%Q "X_upcoming"%string) H).
Defined.

(** X6.  Saving and loading are a round trip: when the data directory
    is usable, the write goes through and [JSON.parse] reads back what
    [JSON.stringify] produced for the ledger, [saveSeenMigrations]
    returns normally and [loadSeenMigrations] then returns that very
    ledger. *)
Theorem save_then_load (JSON_parse : string -> string + gmap string Z)
    (JSON_stringify : gmap string Z -> string)
    (seen : gmap string Z) (w : World) :
  dataDir w = true \/ mkdirError w = None ->
  writeError w = None ->
  JSON_parse (JSON_stringify seen) = inr seen ->
  exists w1 w2,
    saveSeenMigrations JSON_stringify seen w = (Ok (), w1) /\
    loadSeenMigrations JSON_parse w1 = (Ok seen, w2).
Proof.
  intros Hdir Hw Hround.
  destruct (save_usable JSON_stringify w seen Hdir)
    as (w1 & Hs & Hd1 & _ & Hfile & _).
  destruct (Hfile Hw) as [Hf _].
  destruct (load_stored JSON_parse w1 _ seen (or_introl Hd1) Hf Hround)
    as (w2 & Hl & _).
  exists w1, w2. split; assumption.
Qed.

Lemma save_then_load_witness :
  exists w1 w2,
    saveSeenMigrations Samples.stringifyEmpty ∅ Samples.firstStart = (Ok (), w1) /\
    loadSeenMigrations Samples.parseEmpty w1 = (Ok ∅, w2).
Proof.
  apply (save_then_load Samples.parseEmpty Samples.stringifyEmpty ∅
           Samples.firstStart).
  - right. reflexivity.
  - reflexivity.
  - reflexivity.
Defined.

(** X7.  A failing write is swallowed: with a usable data directory and
    a [writeFileSync] that throws, [getMigrationsToAlert] still returns
    the alerts computed from the loaded ledger and the last line on the
    error console reports the error.  What the file holds afterwards
    depends on where the write failed: a failure to open the file
    leaves it as it was; a failure while writing leaves the truncated
    file with the part of the new ledger's text that was written, so
    the ledger that was stored before is lost. *)
Theorem write_failure_is_swallowed
    (JSON_parse : string -> string + gmap string Z)
    (JSON_stringify : gmap string Z -> string)
    (ms : list Migration) (th : Q) (w : World) (f : WriteFailure) :
  dataDir w = true \/ mkdirError w = None ->
  writeError w = Some f ->
  exists seen w',
    fst (loadSeenMigrations JSON_parse w) = Ok seen /\
    getMigrationsToAlert JSON_parse JSON_stringify ms th w =
      (Ok (snd (detect seen (clock w) ms th)), w') /\
    seenFile w' =
      match f with
      | OpenFails _ => seenFile w
      | WriteFails _ written =>
          Some (Readable
                  (String.substring 0 written
                     (JSON_stringify (fst (detect seen (clock w) ms th)))))
      end /\
    last (console w') =
      Some ("[Tracker] Error saving seen migrations: " +:+ failureMessage f).
Proof.
  intros Hdir Hw.
  destruct (load_total JSON_parse w Hdir)
    as (seen & w1 & Hl & Hd1 & Hc1 & Hf1 & Hw1).
  destruct (save_usable JSON_stringify w1
              (fst (detect seen (clock w1) ms th)) (or_introl Hd1))
    as (w2 & Hs & _ & _ & _ & Hfail).
  rewrite Hw1 in Hfail. destruct (Hfail f Hw) as [Hf2 Hcon].
  exists seen, w2. split; [rewrite Hl; reflexivity|].
  split; [|split].
  - unfold getMigrationsToAlert.
    unfold mbind at 1, M_bind at 1. rewrite Hl.
    unfold mbind at 1, M_bind at 1, Date_now.
    unfold mbind, M_bind. cbn zeta. rewrite Hs.
    unfold mret, M_ret. rewrite Hc1. reflexivity.
  - rewrite Hf2, Hf1, Hc1. reflexivity.
  - rewrite Hcon. apply last_snoc.
Qed.

Lemma write_failure_is_swallowed_witness :
  exists seen w',
    fst (loadSeenMigrations Samples.parseEmpty Samples.fullDisk) = Ok seen /\
    getMigrationsToAlert Samples.parseEmpty Samples.stringifyEmpty
      [Examples.X4] 30 Samples.fullDisk =
      (Ok (snd (detect seen (clock Samples.fullDisk) [Examples.X4] 30)), w') /\
    seenFile w' = Some (Readable "") /\
    last (console w') =
      Some ("[Tracker] Error saving seen migrations: " +:+ "ENOSPC")%string.
Proof.
  destruct (write_failure_is_swallowed Samples.parseEmpty
              Samples.stringifyEmpty [Examples.X4] 30%Q Samples.fullDisk
              (WriteFails "ENOSPC" 0)) as (seen & w' & H1 & H2 & H3 & H4).
  - left. reflexivity.
  - reflexivity.
  - exists seen, w'. split; [exact H1|]. split; [exact H2|].
    split; [exact H3|exact H4].
Defined.

(** X8.  A data directory that can not be made stops every exported
    entry point: when the directory is missing and [mkdirSync] throws
    [e], then [getMigrationsToAlert], [saveSeenMigrations] and
    [clearTracking] all throw [e] and leave the world as it was; nothing
    is logged and nothing is written. *)
Theorem mkdir_failure_propagates
    (JSON_parse : string -> string + gmap string Z)
    (JSON_stringify : gmap string Z -> string)
    (ms : list Migration) (th : Q) (seen : gmap string Z)
    (unlinkError : option string) (w : World) (e : string) :
  dataDir w = false -> mkdirError w = Some e ->
  getMigrationsToAlert JSON_parse JSON_stringify ms th w = (Throw e, w) /\
  saveSeenMigrations JSON_stringify seen w = (Throw e, w) /\
  clearTracking unlinkError w = (Throw e, w).
Proof.
  intros Hd He. split; [|split].
  - unfold getMigrationsToAlert, mbind, M_bind.
    rewrite (load_mkdir_failure JSON_parse w e Hd He). reflexivity.
  - unfold saveSeenMigrations, mbind, M_bind.
    rewrite (ensureDataDir_throw w e Hd He). reflexivity.
  - unfold clearTracking. unfold mbind at 1, M_bind at 1.
    rewrite (ensureDataDir_throw w e Hd He). reflexivity.
Qed.

Lemma mkdir_failure_propagates_witness :
  getMigrationsToAlert Samples.parseEmpty Samples.stringifyEmpty
    [Examples.X4] 30 Samples.readOnly = (Throw "EROFS"%string, Samples.readOnly) /\
  saveSeenMigrations Samples.stringifyEmpty ∅ Samples.readOnly =
    (Throw "EROFS"%string, Samples.readOnly) /\
  clearTracking None Samples.readOnly = (Throw "EROFS"%string, Samples.readOnly).
Proof.
  apply (mkdir_failure_propagates Samples.parseEmpty Samples.stringifyEmpty
           [Examples.X4] 30%Q ∅ None Samples.readOnly "EROFS"%string);
    reflexivity.
Defined.

(** X9.  [clearTracking] forgets everything: with a usable data
    directory, when the unlink goes through (or there is no file, in
    which case no unlink is attempted), the file is gone afterwards and
    the next [getMigrationsToAlert] answers as on the empty ledger, so
    every batch entry with a key that is due by its timing fires
    again. *)
Theorem clearTracking_forgets
    (JSON_parse : string -> string + gmap string Z)
    (JSON_stringify : gmap string Z -> string)
    (unlinkError : option string) (ms : list Migration) (th : Q) (w : World) :
  dataDir w = true \/ mkdirError w = None ->
  seenFile w = None \/ unlinkError = None ->
  exists w1,
    clearTracking unlinkError w = (Ok (), w1) /\
    seenFile w1 = None /\
    fst (getMigrationsToAlert JSON_parse JSON_stringify ms th w1) =
      Ok (snd (detect ∅ (clock w) ms th)).
Proof.
  intros Hdir Hun.
  destruct (clearTracking_ok unlinkError w Hdir Hun)
    as (w1 & Hc & Hf & Hd & Hclk).
  exists w1. split; [exact Hc|]. split; [exact Hf|].
  destruct (load_noLedger JSON_parse w1 (or_introl Hd) (or_introl Hf))
    as (w2 & Hl & Hc2 & Hd2).
  destruct (getMigrationsToAlert_run JSON_parse JSON_stringify w1 w2 ∅ ms th
              Hl Hd2) as (w3 & Hrun & _).
  rewrite Hrun. simpl. rewrite Hc2, Hclk. reflexivity.
Qed.

Lemma clearTracking_forgets_witness :
  exists w1,
    clearTracking None Samples.stored = (Ok (), w1) /\
    seenFile w1 = None /\
    fst (getMigrationsToAlert Samples.parseEmpty Samples.stringifyEmpty
           [Examples.X4] 30 w1) =
      Ok (snd (detect ∅ (clock Samples.stored) [Examples.X4] 30)).
Proof.
  apply (clearTracking_forgets Samples.parseEmpty Samples.stringifyEmpty
           None [Examples.X4] 30%Q Samples.stored).
  - left. reflexivity.
  - right. reflexivity.
Defined.

(** X10.  A failing unlink is not caught: with a usable data directory
    and a file in place, an [unlinkSync] that throws [e] makes
    [clearTracking] throw [e], and the file stays. *)
Theorem clearTracking_unlink_failure (w : World) (file : File) (e : string) :
  dataDir w = true \/ mkdirError w = None ->
  seenFile w = Some file ->
  exists w1,
    clearTracking (Some e) w = (Throw e, w1) /\ seenFile w1 = Some file.
Proof.
  intros Hdir Hfile. unfold clearTracking.
  destruct (ensureDataDir_ok w Hdir) as (w1 & H1 & Hf & _).
  unfold mbind at 1, M_bind at 1. rewrite H1.
  unfold mbind, M_bind, existsSync_SEEN_FILE. rewrite Hf, Hfile. simpl.
  exists w1. split; [reflexivity|congruence].
Qed.

Lemma clearTracking_unlink_failure_witness :
  exists w1,
    clearTracking (Some "EPERM"%string) Samples.stored =
      (Throw "EPERM"%string, w1) /\
    seenFile w1 = Some (Readable "{}").
Proof.
  apply (clearTracking_unlink_failure Samples.stored (Readable "{}")
           "EPERM"%string).
  - left. reflexivity.
  - reflexivity.
Defined.

(** ** More about the message texts *)

Module DiscordFacts.
Import Discord.

Lemma lt_inject (n k : Z) : lt (inject_Z n) (inject_Z k) = (n <? k).
Proof.
  unfold lt, Qle_bool, inject_Z. cbn [Qnum Qden]. rewrite ?Z.mul_1_r.
  rewrite Z.ltb_antisym. reflexivity.
Qed.

(** Rounding a whole number changes nothing. *)
Lemma round_inject (n : Z) : round (inject_Z n) = n.
Proof.
  unfold round, Qfloor, inject_Z, Qplus. cbn [Qnum Qden Pos.mul].
  rewrite ?Z.mul_1_r. symmetry. apply (Z.div_unique_pos _ _ n 1); lia.
Qed.

Lemma Qeq_bool_inject (n k : Z) : Qeq_bool (inject_Z n) (inject_Z k) = (n =? k).
Proof.
  unfold Qeq_bool, inject_Z. cbn [Qnum Qden]. rewrite ?Z.mul_1_r.
  reflexivity.
Qed.

Lemma floor_div60 (n : Z) : floor (inject_Z n / 60) = n / 60.
Proof.
  unfold floor, Qfloor, Qdiv, Qmult, Qinv, inject_Z. cbn [Qnum Qden Pos.mul].
  rewrite ?Z.mul_1_r. reflexivity.
Qed.

(** On whole minutes from zero on, [%] is the integer remainder. *)
Lemma round_rem60 (n : Z) : 0 <= n -> round (rem (inject_Z n) 60) = n mod 60.
Proof.
  intros Hn. unfold rem.
  assert (E : Qle_bool 0 (inject_Z n / 60) = true).
  { unfold Qle_bool, Qdiv, Qmult, Qinv, inject_Z. cbn [Qnum Qden Pos.mul].
    apply Z.leb_le. lia. }
  rewrite E.
  fold (floor (inject_Z n / 60)). rewrite floor_div60.
  unfold round, Qfloor, Qminus, Qplus, Qopp, Qmult, inject_Z.
  cbn [Qnum Qden Pos.mul].
  symmetry. apply (Z.div_unique_pos _ _ _ 1); [lia|].
  pose proof (Z.div_mod n 60). lia.
Qed.

(** The time text on whole minutes. *)
Lemma formatTimeUntil_inject (n : Z) :
  formatTimeUntil (inject_Z n) =
    if n <? 1 then "Less than 1 minute"
    else if n <? 60 then
      pretty n +:+ " minute" +:+ (if n =? 1 then "" else "s")
    else if n mod 60 =? 0 then
      pretty (n / 60) +:+ " hour" +:+ (if n / 60 =? 1 then "" else "s")
    else pretty (n / 60) +:+ "h " +:+ pretty (n mod 60) +:+ "m".
Proof.
  unfold formatTimeUntil.
  change 1%Q with (inject_Z 1). change 60%Q with (inject_Z 60).
  rewrite !lt_inject, round_inject, Qeq_bool_inject.
  destruct (n <? 1) eqn:E1; [reflexivity|].
  destruct (n <? 60) eqn:E60.
  - destruct (n =? 1); reflexivity.
  - apply Z.ltb_ge in E60.
    cbn zeta. rewrite floor_div60, round_rem60 by lia.
    destruct (n mod 60 =? 0); [|reflexivity].
    destruct (n / 60 =? 1); reflexivity.
Qed.

End DiscordFacts.

Import Discord DiscordFacts.

(** X11.  The embed's colour follows the alert's tier.  For every alert
    that [getMigrationsToAlert] returns, the number [index.js] hands to
    [sendMigrationAlert] (the observation's [minutesUntil]) is the
    alert's [alertMinutes], and the colour computed from it is red
    exactly for tier imminent, orange exactly for soon, gold exactly for
    upcoming and green exactly for scheduled. *)
Theorem embed_colour_follows_tier (seen : gmap string Z) (now : Z)
    (ms : list Migration) (th : Q) (a : Alert) :
  a ∈ snd (detect seen now ms th) ->
  minutesUntil (migration a) = Number (alertMinutes a) /\
  (urgencyColor (alertMinutes a) = 0xFF0000 <-> alertTier a = imminent) /\
  (urgencyColor (alertMinutes a) = 0xFF8C00 <-> alertTier a = soon) /\
  (urgencyColor (alertMinutes a) = 0xFFD700 <-> alertTier a = upcoming) /\
  (urgencyColor (alertMinutes a) = 0x00FF00 <-> alertTier a = scheduled).
Proof.
  intros Ha.
  destruct (detect_known_timing seen now ms th a Ha) as (_ & _ & Hmu & _).
  split; [exact Hmu|].
  rewrite (detect_tier seen now ms th a Ha).
  unfold urgencyColor, tierOf.
  destruct (le (alertMinutes a) 5), (le (alertMinutes a) 15),
    (le (alertMinutes a) 30);
    repeat split; intros H; try discriminate H; reflexivity.
Qed.

Lemma embed_colour_follows_tier_witness :
  Examples.alertX4 ∈ snd (detect ∅ Examples.T0 [Examples.X4] 30) /\
  minutesUntil (migration Examples.alertX4) =
    Number (alertMinutes Examples.alertX4) /\
  (urgencyColor (alertMinutes Examples.alertX4) = 0xFF0000 <->
   alertTier Examples.alertX4 = imminent).
Proof.
  assert (H : Examples.alertX4 ∈ snd (detect ∅ Examples.T0 [Examples.X4] 30)).
  { vm_compute. left. }
  split; [exact H|].
  destruct (embed_colour_follows_tier ∅ Examples.T0 [Examples.X4] 30%Q
              Examples.alertX4 H) as (H1 & H2 & _).
  split; [exact H1|exact H2].
Defined.

(** X12.  [formatTimeUntil] on a whole number of minutes [n], which is
    what the parser delivers: below one minute the fixed text; below an
    hour the number itself, with [minute] in the singular exactly for 1;
    from an hour on the whole hours [n / 60], followed by [hour] or
    [hours] when [n] is a multiple of 60 and by the remaining minutes
    [n mod 60] otherwise.  Rounding never shows on such input. *)
Theorem formatTimeUntil_whole (n : Z) :
  formatTimeUntil (inject_Z n) =
    if n <? 1 then "Less than 1 minute"
    else if n <? 60 then
      pretty n +:+ " minute" +:+ (if n =? 1 then "" else "s")
    else if n mod 60 =? 0 then
      pretty (n / 60) +:+ " hour" +:+ (if n / 60 =? 1 then "" else "s")
    else pretty (n / 60) +:+ "h " +:+ pretty (n mod 60) +:+ "m".
Proof. apply formatTimeUntil_inject. Qed.

(** ** More about the matcher and the time parser *)

Module MatcherFacts.
Import JS Regex Scraper RegexFacts ScraperFacts.

(** *** Every match *)

(** What a run of class characters leaves is a suffix, and what it took
    is in the class. *)
Lemma greedy_In (p : ascii -> bool) : forall (s rest : input),
  In rest (greedy p s) ->
  exists pre, s = pre ++ rest /\ Forall (fun c => p c = true) pre.
Proof.
  induction s as [|c s IH]; intros rest; simpl.
  - intros [<-|[]]. exists []. split; [reflexivity|constructor].
  - destruct (p c) eqn:Ec.
    + rewrite in_app_iff. intros [H|[<-|[]]].
      * apply IH in H. destruct H as (pre & -> & Hpre).
        exists (c :: pre). split; [reflexivity|]. constructor; assumption.
      * exists []. split; [reflexivity|constructor].
    + intros [<-|[]]. exists []. split; [reflexivity|constructor].
Qed.

Lemma run_Cat_In r1 r2 caps s st :
  In st (run (Cat r1 r2) caps s) <->
  exists st1, In st1 (run r1 caps s) /\ In st (run r2 (fst st1) (snd st1)).
Proof. simpl. apply in_flat_map. Qed.

Lemma run_Plus_In p caps s st :
  In st (run (Plus p) caps s) ->
  exists pre rest,
    st = (caps, rest) /\ s = pre ++ rest /\ pre <> [] /\
    Forall (fun c => p c = true) pre.
Proof.
  destruct s as [|c s]; simpl; [contradiction|].
  destruct (p c) eqn:Ec; [|contradiction].
  intros H. apply in_map_iff in H. destruct H as (rest & <- & H).
  apply greedy_In in H. destruct H as (pre & -> & Hpre).
  exists (c :: pre), rest. split; [reflexivity|]. split; [reflexivity|].
  split; [discriminate|]. constructor; assumption.
Qed.

Lemma run_Star_In p caps s st :
  In st (run (Star p) caps s) ->
  exists pre rest,
    st = (caps, rest) /\ s = pre ++ rest /\ Forall (fun c => p c = true) pre.
Proof.
  simpl. intros H. apply in_map_iff in H. destruct H as (rest & <- & H).
  apply greedy_In in H. destruct H as (pre & -> & Hpre). eauto.
Qed.

Lemma run_Grp_In i r caps s st :
  In st (run (Grp i r) caps s) ->
  exists st0, In st0 (run r caps s) /\
    st = ((i, consumed s (snd st0)) :: fst st0, snd st0).
Proof.
  simpl. intros H. apply in_map_iff in H. destruct H as (st0 & <- & H). eauto.
Qed.

Lemma run_Grp_Plus_In i p caps s st :
  In st (run (Grp i (Plus p)) caps s) ->
  exists pre rest,
    st = ((i, pre) :: caps, rest) /\ s = pre ++ rest /\ pre <> [] /\
    Forall (fun c => p c = true) pre.
Proof.
  intros H. apply run_Grp_In in H. destruct H as (st0 & H & ->).
  apply run_Plus_In in H. destruct H as (pre & rest & -> & -> & Hne & Hpre).
  exists pre, rest. cbn [fst snd]. rewrite consumed_app. auto.
Qed.

Lemma run_Chr_In p caps s st :
  In st (run (Chr p) caps s) ->
  exists c rest, st = (caps, rest) /\ s = c :: rest /\ p c = true.
Proof.
  destruct s as [|c s]; simpl; [contradiction|].
  destruct (p c) eqn:Ec; [|contradiction].
  intros [<-|[]]. eauto.
Qed.

Lemma run_word_In (w0 : input) : forall caps s st,
  In st (run (word w0) caps s) ->
  exists w rest, st = (caps, rest) /\ s = w ++ rest /\ toLowerCase w = w0.
Proof.
  induction w0 as [|c0 w0 IH]; intros caps s st.
  - simpl. intros [<-|[]]. exists [], s. auto.
  - change (word (c0 :: w0)) with (Cat (ci c0) (word w0)).
    rewrite run_Cat_In. intros (st1 & H1 & H2).
    apply run_Chr_In in H1. destruct H1 as (c & rest1 & -> & -> & Hc).
    apply Ascii.eqb_eq in Hc. cbn [fst snd] in H2.
    apply IH in H2. destruct H2 as (w & rest & -> & -> & Hw).
    exists (c :: w), rest. split; [reflexivity|]. split; [reflexivity|].
    unfold toLowerCase in *. simpl. rewrite Hc, Hw. reflexivity.
Qed.

(** A pattern that starts with a run of digits matches nothing where no
    digit stands. *)
Lemma run_digits_first_nil i p r2 caps s :
  match s with c :: _ => p c = false | [] => True end ->
  run (Cat (Grp i (Plus p)) r2) caps s = [].
Proof.
  intros H. destruct s as [|c s]; simpl; [reflexivity|].
  rewrite H. reflexivity.
Qed.

Lemma search_None r : forall s,
  (forall pre s', s = pre ++ s' -> run r [] s' = []) -> search r s = None.
Proof.
  induction s as [|c s IH]; intros H; simpl.
  - rewrite (H [] [] eq_refl). reflexivity.
  - rewrite (H [] (c :: s) eq_refl). apply IH.
    intros pre s' ->. apply (H (c :: pre) s'). reflexivity.
Qed.

Lemma search_None_inv r : forall s,
  search r s = None -> forall pre s', s = pre ++ s' -> run r [] s' = [].
Proof.
  induction s as [|c s IH]; simpl.
  - destruct (run r [] []) as [|[caps0 rest0] l] eqn:E; [|discriminate].
    intros _ pre s' H. symmetry in H. apply app_eq_nil in H.
    destruct H as [_ ->]. exact E.
  - destruct (run r [] (c :: s)) as [|[caps0 rest0] l] eqn:E; [|discriminate].
    intros Hs pre s' H. destruct pre as [|c' pre]; simpl in H.
    + subst s'. exact E.
    + injection H as _ ->. eapply IH; eauto.
Qed.

(** The match [search] reports is the first one at the first position
    that has one. *)
Lemma search_Some r : forall s caps,
  search r s = Some caps ->
  exists pre s' rest l,
    s = pre ++ s' /\ run r [] s' = (caps, rest) :: l /\
    (forall pre1 s1 c pre2, pre = pre1 ++ c :: pre2 -> s1 = c :: pre2 ++ s' ->
       run r [] s1 = []).
Proof.
  induction s as [|c s IH]; intros caps; simpl.
  - destruct (run r [] []) as [|[caps0 rest0] l] eqn:E; [discriminate|].
    intros H. injection H as <-. exists [], [], rest0, l.
    split; [reflexivity|]. split; [exact E|].
    intros [|? ?] ? ? ? H; discriminate H.
  - destruct (run r [] (c :: s)) as [|[caps0 rest0] l] eqn:E.
    + intros H. apply IH in H.
      destruct H as (pre & s' & rest & l & -> & Hrun & Hfirst).
      exists (c :: pre), s', rest, l. split; [reflexivity|].
      split; [exact Hrun|].
      intros pre1 s1 c1 pre2 Hpre ->. destruct pre1 as [|c' pre1]; simpl in Hpre.
      * injection Hpre as <- <-. exact E.
      * injection Hpre as _ ->. eapply Hfirst; eauto.
    + intros H. injection H as <-. exists [], (c :: s), rest0, l.
      split; [reflexivity|]. split; [exact E|].
      intros [|? ?] ? ? ? H; discriminate H.
Qed.

Lemma digitValue_nonneg c : isDigit c = true -> 0 <= digitValue c <= 9.
Proof.
  unfold isDigit, digitValue. intros H. apply andb_prop in H.
  destruct H as [H1 H2]. apply Nat.leb_le in H1, H2. lia.
Qed.

Lemma parseInt_from_nonneg (ds : input) : forall acc,
  0 <= acc -> Forall (fun c => isDigit c = true) ds ->
  0 <= fold_left (fun acc c => acc * 10 + digitValue c) ds acc.
Proof.
  induction ds as [|d ds IH]; intros acc Hacc Hds; simpl; [exact Hacc|].
  inversion Hds as [|? ? Hd Hds']. subst.
  apply IH; [|exact Hds'].
  pose proof (digitValue_nonneg d Hd). lia.
Qed.

Lemma parseInt_nonneg (ds : input) :
  Forall (fun c => isDigit c = true) ds -> 0 <= parseInt ds.
Proof. apply parseInt_from_nonneg. lia. Qed.

Lemma ceilDiv60_nonneg v : 0 <= v -> 0 <= ceilDiv60 v.
Proof. intros H. pose proof (ceilDiv60_spec v). lia. Qed.

Lemma orZero_id x : orZero x = x.
Proof.
  unfold orZero, truthyZ. destruct (x =? 0) eqn:E; simpl; [|reflexivity].
  apply Z.eqb_eq in E. auto.
Qed.

(** Every match of the compact pattern: digits, white space, one unit
    letter. *)
Lemma shortRe_match s st :
  In st (run shortRe [] s) ->
  exists ds ws u rest,
    st = ([(2%nat, [u]); (1%nat, ds)], rest) /\
    s = ds ++ ws ++ u :: rest /\ ds <> [] /\
    Forall (fun c => isDigit c = true) ds /\
    Forall (fun c => isSpace c = true) ws /\
    (toLower u = "h"%char \/ toLower u = "m"%char \/ toLower u = "s"%char).
Proof.
  unfold shortRe. rewrite run_Cat_In. intros (st1 & H1 & H).
  apply run_Grp_Plus_In in H1.
  destruct H1 as (ds & rest1 & -> & -> & Hne & Hds). cbn [fst snd] in H.
  rewrite run_Cat_In in H. destruct H as (st2 & H2 & H).
  apply run_Star_In in H2. destruct H2 as (ws & rest2 & -> & -> & Hws).
  cbn [fst snd] in H.
  apply run_Grp_In in H. destruct H as (st3 & H3 & ->).
  destruct rest2 as [|u rest]; [rewrite unit_run_nil in H3; contradiction|].
  apply unit_run in H3. destruct H3 as [-> Hu]. cbn [fst snd].
  exists ds, ws, u, rest.
  change (u :: rest) with ([u] ++ rest) at 1. rewrite consumed_app. auto 10.
Qed.

Lemma longUnit_run caps s st :
  In st (run (Alt (word (list_ascii_of_string "hour"))
                (Alt (word (list_ascii_of_string "minute"))
                   (Alt (word (list_ascii_of_string "second"))
                      (word (list_ascii_of_string "day"))))) caps s) ->
  exists w rest,
    st = (caps, rest) /\ s = w ++ rest /\
    (toLowerCase w = list_ascii_of_string "hour" \/
     toLowerCase w = list_ascii_of_string "minute" \/
     toLowerCase w = list_ascii_of_string "second" \/
     toLowerCase w = list_ascii_of_string "day").
Proof.
  cbn [run]. rewrite !in_app_iff.
  intros [H|[H|[H|H]]]; apply run_word_In in H;
    destruct H as (w & rest & -> & -> & Hw); exists w, rest; auto 10.
Qed.

(** Every match of the word pattern: digits, white space, one of the
    four words. *)
Lemma longRe_match s st :
  In st (run longRe [] s) ->
  exists ds ws w rest,
    st = ([(2%nat, w); (1%nat, ds)], rest) /\
    s = ds ++ ws ++ w ++ rest /\ ds <> [] /\
    Forall (fun c => isDigit c = true) ds /\
    Forall (fun c => isSpace c = true) ws /\
    (toLowerCase w = list_ascii_of_string "hour" \/
     toLowerCase w = list_ascii_of_string "minute" \/
     toLowerCase w = list_ascii_of_string "second" \/
     toLowerCase w = list_ascii_of_string "day").
Proof.
  unfold longRe. rewrite run_Cat_In. intros (st1 & H1 & H).
  apply run_Grp_Plus_In in H1.
  destruct H1 as (ds & rest1 & -> & -> & Hne & Hds). cbn [fst snd] in H.
  rewrite run_Cat_In in H. destruct H as (st2 & H2 & H).
  apply run_Star_In in H2. destruct H2 as (ws & rest2 & -> & -> & Hws).
  cbn [fst snd] in H.
  apply run_Grp_In in H. destruct H as (st3 & H3 & ->).
  apply longUnit_run in H3. destruct H3 as (w & rest & -> & -> & Hw).
  cbn [fst snd]. exists ds, ws, w, rest. rewrite consumed_app. auto 10.
Qed.

(** Every match of the clock pattern: digits, a colon, digits; group 3
    may or may not take part. *)
Lemma clockRe_match s st :
  In st (run clockRe [] s) ->
  exists ds1 ds2 rest2,
    s = ds1 ++ ":"%char :: ds2 ++ rest2 /\
    ds1 <> [] /\ ds2 <> [] /\
    Forall (fun c => isDigit c = true) ds1 /\
    Forall (fun c => isDigit c = true) ds2 /\
    group 1 (fst st) = ds1 /\ group 2 (fst st) = ds2.
Proof.
  unfold clockRe. rewrite run_Cat_In. intros (st1 & H1 & H).
  apply run_Grp_Plus_In in H1.
  destruct H1 as (ds1 & rest1 & -> & -> & Hne1 & Hds1). cbn [fst snd] in H.
  rewrite run_Cat_In in H. destruct H as (st2 & H2 & H).
  apply run_Chr_In in H2. destruct H2 as (c & rest & -> & -> & Hc).
  apply Ascii.eqb_eq in Hc. subst c. cbn [fst snd] in H.
  rewrite run_Cat_In in H. destruct H as (st3 & H3 & H).
  apply run_Grp_Plus_In in H3.
  destruct H3 as (ds2 & rest2 & -> & -> & Hne2 & Hds2). cbn [fst snd] in H.
  exists ds1, ds2, rest2. split; [reflexivity|].
  split; [exact Hne1|]. split; [exact Hne2|].
  split; [exact Hds1|]. split; [exact Hds2|].
  rewrite run_Cat_In in H. destruct H as (st4 & H4 & H).
  assert (E4 : fst st4 = [(2%nat, ds2); (1%nat, ds1)]).
  { cbn [run] in H4. apply in_app_iff in H4. destruct H4 as [H4|[<-|[]]].
    - apply run_Chr_In in H4. destruct H4 as (c & r & -> & _). reflexivity.
    - reflexivity. }
  rewrite E4 in H. cbn [run] in H. apply in_app_iff in H.
  destruct H as [H|[<-|[]]].
  - apply in_map_iff in H. destruct H as (st0 & <- & H0).
    apply run_Plus_In in H0. destruct H0 as (pre & r & -> & _).
    split; reflexivity.
  - split; reflexivity.
Qed.


Lemma search_no_class i p r2 (s : input) :
  Forall (fun c => p c = false) s ->
  search (Cat (Grp i (Plus p)) r2) s = None.
Proof.
  intros Hs. apply search_None. intros pre s' ->.
  apply run_digits_first_nil. apply Forall_app in Hs. destruct Hs as [_ Hs].
  destruct s' as [|c s']; [exact I|]. inversion Hs. assumption.
Qed.

Lemma search_suffix_None r (pre s' : input) :
  search r (pre ++ s') = None -> search r s' = None.
Proof.
  intros H. apply search_None. intros pre1 s1 ->.
  apply (search_None_inv r _ H (pre ++ pre1) s1). rewrite app_assoc. reflexivity.
Qed.

Lemma search_shortRe_match s m :
  search shortRe s = Some m ->
  exists ds u,
    m = [(2%nat, [u]); (1%nat, ds)] /\
    Forall (fun c => isDigit c = true) ds /\
    (toLower u = "h"%char \/ toLower u = "m"%char \/ toLower u = "s"%char).
Proof.
  intros H. apply search_Some in H.
  destruct H as (pre & s' & rest & l & _ & Hrun & _).
  assert (Hin : In (m, rest) (run shortRe [] s')) by (rewrite Hrun; left; reflexivity).
  apply shortRe_match in Hin.
  destruct Hin as (ds & ws & u & rest' & E & _ & _ & Hds & _ & Hu).
  injection E as -> _. eauto.
Qed.

Lemma tryShort_None s : tryShort s = None -> search shortRe s = None.
Proof.
  destruct (search shortRe s) as [m|] eqn:E; [|reflexivity].
  destruct (search_shortRe_match s m E) as (ds & u & -> & _ & Hu).
  rewrite (tryShort_match s ds u E Hu). discriminate.
Qed.

Lemma tryShort_nonneg s r : tryShort s = Some r -> 0 <= r.
Proof.
  destruct (search shortRe s) as [m|] eqn:E.
  - destruct (search_shortRe_match s m E) as (ds & u & -> & Hds & Hu).
    rewrite (tryShort_match s ds u E Hu). intros H. injection H as <-.
    pose proof (parseInt_nonneg ds Hds).
    pose proof (ceilDiv60_nonneg (parseInt ds)).
    destruct (Ascii.eqb (toLower u) "h"); [lia|].
    destruct (Ascii.eqb (toLower u) "m"); lia.
  - unfold tryShort. rewrite E. discriminate.
Qed.

Lemma search_longRe_match s m :
  search longRe s = Some m ->
  exists ds w,
    m = [(2%nat, w); (1%nat, ds)] /\
    Forall (fun c => isDigit c = true) ds /\
    (toLowerCase w = list_ascii_of_string "hour" \/
     toLowerCase w = list_ascii_of_string "minute" \/
     toLowerCase w = list_ascii_of_string "second" \/
     toLowerCase w = list_ascii_of_string "day").
Proof.
  intros H. apply search_Some in H.
  destruct H as (pre & s' & rest & l & _ & Hrun & _).
  assert (Hin : In (m, rest) (run longRe [] s')) by (rewrite Hrun; left; reflexivity).
  apply longRe_match in Hin.
  destruct Hin as (ds & ws & w & rest' & E & _ & _ & Hds & _ & Hw).
  injection E as -> _. eauto.
Qed.

(** What the second attempt returns on a match. *)
Lemma tryLong_match s ds w :
  search longRe s = Some [(2%nat, w); (1%nat, ds)] ->
  tryLong s = longCase (parseInt ds) (string_of_list_ascii (toLowerCase w)).
Proof. intros Hs. unfold tryLong. rewrite Hs. reflexivity. Qed.

Lemma tryLong_nonneg s r : tryLong s = Some r -> 0 <= r.
Proof.
  destruct (search longRe s) as [m|] eqn:E.
  - destruct (search_longRe_match s m E) as (ds & w & -> & Hds & Hw).
    rewrite (tryLong_match s ds w E).
    pose proof (parseInt_nonneg ds Hds).
    pose proof (ceilDiv60_nonneg (parseInt ds)).
    destruct Hw as [->|[->|[->| ->]]]; intros Hr; injection Hr as <-; lia.
  - unfold tryLong. rewrite E. discriminate.
Qed.

Lemma tryClock_nonneg s r : tryClock s = Some r -> 0 <= r.
Proof.
  unfold tryClock. destruct (search clockRe s) as [m|] eqn:E; [|discriminate].
  apply search_Some in E.
  destruct E as (pre & s' & rest & l & _ & Hrun & _).
  assert (Hin : In (m, rest) (run clockRe [] s')) by (rewrite Hrun; left; reflexivity).
  apply clockRe_match in Hin.
  destruct Hin as (ds1 & ds2 & rest2 & _ & _ & _ & Hds1 & Hds2 & E1 & E2).
  cbn [fst] in E1, E2. rewrite E1, E2, !orZero_id.
  intros H. injection H as <-.
  pose proof (parseInt_nonneg ds1 Hds1). pose proof (parseInt_nonneg ds2 Hds2).
  lia.
Qed.

(** A word of hours, minutes or seconds starts with a letter that the
    compact pattern takes for a unit. *)
Lemma word_starts_with_unit (w : input) :
  toLowerCase w = list_ascii_of_string "hour" \/
  toLowerCase w = list_ascii_of_string "minute" \/
  toLowerCase w = list_ascii_of_string "second" ->
  exists u w', w = u :: w' /\
    (toLower u = "h"%char \/ toLower u = "m"%char \/ toLower u = "s"%char).
Proof.
  unfold toLowerCase.
  intros [H|[H|H]]; (destruct w as [|u w']; [discriminate H|]);
    simpl in H; injection H as Hu _; exists u, w'; auto.
Qed.

(** Where the word pattern matches hours, minutes or seconds, the
    compact pattern matches too. *)
Lemma longRe_covered s' st :
  In st (run longRe [] s') ->
  toLowerCase (group 2 (fst st)) <> list_ascii_of_string "day" ->
  exists m, search shortRe s' = Some m.
Proof.
  intros Hin Hday. apply longRe_match in Hin.
  destruct Hin as (ds & ws & w & rest & -> & -> & Hne & Hds & Hws & Hw).
  cbn [fst group Nat.eqb] in Hday.
  assert (Hw' : toLowerCase w = list_ascii_of_string "hour" \/
                toLowerCase w = list_ascii_of_string "minute" \/
                toLowerCase w = list_ascii_of_string "second") by tauto.
  apply word_starts_with_unit in Hw'. destruct Hw' as (u & w' & -> & Hu).
  destruct ds as [|d ds]; [contradiction|].
  eexists. change ((u :: w') ++ rest) with (u :: w' ++ rest).
  apply (shortRe_compact d ds ws u (w' ++ rest) Hds Hws Hu).
Qed.

(** *** Some match *)

Lemma greedy_In_conv (p : ascii -> bool) (pre rest : input) :
  Forall (fun c => p c = true) pre -> In rest (greedy p (pre ++ rest)).
Proof.
  induction 1 as [|c pre Hc _ IH]; simpl.
  - destruct rest as [|c rest]; simpl; [left; reflexivity|].
    destruct (p c); [apply in_or_app; right|]; left; reflexivity.
  - rewrite Hc. apply in_or_app. left. exact IH.
Qed.

Lemma run_Plus_In_conv p caps (c : ascii) (pre rest : input) :
  Forall (fun c => p c = true) (c :: pre) ->
  In (caps, rest) (run (Plus p) caps ((c :: pre) ++ rest)).
Proof.
  intros H. inversion H as [|? ? Hc Hpre]. subst. simpl. rewrite Hc.
  apply in_map. apply greedy_In_conv. exact Hpre.
Qed.

Lemma run_Grp_Plus_In_conv i p caps (c : ascii) (pre rest : input) :
  Forall (fun c => p c = true) (c :: pre) ->
  In ((i, c :: pre) :: caps, rest) (run (Grp i (Plus p)) caps ((c :: pre) ++ rest)).
Proof.
  intros H. cbn [run]. apply in_map_iff.
  exists (caps, rest). cbn [fst snd]. rewrite consumed_app.
  split; [reflexivity|]. apply run_Plus_In_conv. exact H.
Qed.

Lemma run_Star_In_conv p caps (pre rest : input) :
  Forall (fun c => p c = true) pre ->
  In (caps, rest) (run (Star p) caps (pre ++ rest)).
Proof. intros H. simpl. apply in_map. apply greedy_In_conv. exact H. Qed.

Lemma run_word_In_conv (w0 : input) : forall caps (w rest : input),
  toLowerCase w = w0 -> In (caps, rest) (run (word w0) caps (w ++ rest)).
Proof.
  induction w0 as [|c0 w0 IH]; intros caps w rest Hw.
  - destruct w; [|discriminate]. left. reflexivity.
  - destruct w as [|c w]; [discriminate|]. unfold toLowerCase in Hw.
    simpl in Hw. injection Hw as Hc Hw.
    change (word (c0 :: w0)) with (Cat (ci c0) (word w0)).
    apply run_Cat_In. exists (caps, w ++ rest). split.
    + simpl. rewrite Hc, Ascii.eqb_refl. left. reflexivity.
    + apply IH. exact Hw.
Qed.

Lemma search_of_In r s st : In st (run r [] s) -> exists m, search r s = Some m.
Proof.
  destruct (run r [] s) as [|[caps rest] l] eqn:E; [contradiction|].
  intros _. exists caps. eapply search_here. exact E.
Qed.


(** *** The first match *)

Lemma run_Cat_head r1 r2 caps s caps1 s1 l1 st l2 :
  run r1 caps s = (caps1, s1) :: l1 ->
  run r2 caps1 s1 = st :: l2 ->
  exists l, run (Cat r1 r2) caps s = st :: l.
Proof.
  intros H1 H2. cbn [run]. rewrite H1. cbn [flat_map fst snd]. rewrite H2.
  eexists. reflexivity.
Qed.

Lemma run_Grp_head i r caps s caps1 s1 l1 :
  run r caps s = (caps1, s1) :: l1 ->
  exists l, run (Grp i r) caps s = ((i, consumed s s1) :: caps1, s1) :: l.
Proof. intros H. cbn [run]. rewrite H. eexists. reflexivity. Qed.

Lemma run_Plus_head p caps (d : ascii) (ds rest : input) :
  Forall (fun c => p c = true) (d :: ds) ->
  match rest with c :: _ => p c = false | [] => True end ->
  exists l, run (Plus p) caps ((d :: ds) ++ rest) = (caps, rest) :: l.
Proof.
  intros H Hrest. inversion H as [|? ? Hd Hds]. subst.
  destruct (greedy_head p ds rest Hds Hrest) as [l E].
  simpl. rewrite Hd, E. eexists. reflexivity.
Qed.

Lemma run_Grp_Plus_head i p caps (d : ascii) (ds rest : input) :
  Forall (fun c => p c = true) (d :: ds) ->
  match rest with c :: _ => p c = false | [] => True end ->
  exists l,
    run (Grp i (Plus p)) caps ((d :: ds) ++ rest) = ((i, d :: ds) :: caps, rest) :: l.
Proof.
  intros H Hrest. destruct (run_Plus_head p caps d ds rest H Hrest) as [l E].
  destruct (run_Grp_head i _ _ _ _ _ _ E) as [l' E'].
  rewrite consumed_app in E'. eauto.
Qed.

Lemma run_Star_head p caps (ws rest : input) :
  Forall (fun c => p c = true) ws ->
  match rest with c :: _ => p c = false | [] => True end ->
  exists l, run (Star p) caps (ws ++ rest) = (caps, rest) :: l.
Proof.
  intros H Hrest. destruct (greedy_head p ws rest H Hrest) as [l E].
  simpl. rewrite E. eexists. reflexivity.
Qed.

Lemma run_word_exact (w0 : input) : forall caps (w rest : input),
  toLowerCase w = w0 -> run (word w0) caps (w ++ rest) = [(caps, rest)].
Proof.
  induction w0 as [|c0 w0 IH]; intros caps w rest Hw.
  - destruct w; [|discriminate]. reflexivity.
  - destruct w as [|c w]; [discriminate|]. unfold toLowerCase in Hw.
    simpl in Hw. injection Hw as Hc Hw.
    change (word (c0 :: w0)) with (Cat (ci c0) (word w0)).
    cbn [run ci app]. rewrite Hc, Ascii.eqb_refl. cbn [flat_map fst snd].
    rewrite (IH caps w rest Hw). reflexivity.
Qed.

Lemma run_word_nil (c0 : ascii) (w0 : input) caps (c : ascii) (s : input) :
  toLower c <> c0 -> run (word (c0 :: w0)) caps (c :: s) = [].
Proof.
  intros H. change (word (c0 :: w0)) with (Cat (ci c0) (word w0)).
  cbn [run ci]. apply Ascii.eqb_neq in H. rewrite H. reflexivity.
Qed.

(** Positions where no digit stands are passed over. *)
Lemma search_skip i p r2 (pre s : input) :
  Forall (fun c => p c = false) pre ->
  search (Cat (Grp i (Plus p)) r2) (pre ++ s) = search (Cat (Grp i (Plus p)) r2) s.
Proof.
  induction 1 as [|c pre Hc _ IH]; [reflexivity|].
  cbn [app search]. rewrite (run_digits_first_nil i p r2 [] (c :: pre ++ s) Hc).
  exact IH.
Qed.

(** *** Where runs of a class begin and end *)

Lemma span_unique (p : ascii -> bool) : forall (l1 l2 x1 x2 : input),
  Forall (fun c => p c = true) l1 -> Forall (fun c => p c = true) l2 ->
  match x1 with c :: _ => p c = false | [] => True end ->
  match x2 with c :: _ => p c = false | [] => True end ->
  l1 ++ x1 = l2 ++ x2 -> l1 = l2 /\ x1 = x2.
Proof.
  induction l1 as [|a l1 IH]; intros l2 x1 x2 H1 H2 Hx1 Hx2 E.
  - destruct l2 as [|b l2]; [auto|]. simpl in E. subst x1.
    inversion H2. congruence.
  - destruct l2 as [|b l2]; simpl in E.
    + subst x2. inversion H1. congruence.
    + injection E as <- E. inversion H1. inversion H2. subst.
      destruct (IH l2 x1 x2) as [-> ->]; auto.
Qed.

(** A digit of a text whose tail holds none lies in the leading run. *)
Lemma digit_in_run (p : ascii -> bool) : forall (pre D : input) c (t Y : input),
  pre ++ c :: t = D ++ Y -> p c = true -> Forall (fun c => p c = false) Y ->
  exists D2, D = pre ++ D2 /\ c :: t = D2 ++ Y.
Proof.
  induction pre as [|a pre IH]; intros D c t Y E Hc HY.
  - exists D. auto.
  - destruct D as [|a' D]; simpl in E.
    + exfalso. subst Y.
      change (a :: pre ++ c :: t) with ((a :: pre) ++ c :: t) in HY.
      apply Forall_app in HY. destruct HY as [_ HY].
      inversion HY. congruence.
    + injection E as <- E. destruct (IH D c t Y E Hc HY) as (D2 & -> & E2).
      exists D2. auto.
Qed.

End MatcherFacts.

Module ParserFacts.
Import JS Regex Scraper RegexFacts ScraperFacts MatcherFacts.

Lemma tryLong_None s : tryLong s = None -> search longRe s = None.
Proof.
  destruct (search longRe s) as [m|] eqn:E; [|reflexivity].
  destruct (search_longRe_match s m E) as (ds & w & -> & _ & Hw).
  rewrite (tryLong_match s ds w E).
  destruct Hw as [->|[->|[->| ->]]]; discriminate.
Qed.

Lemma toLower_d c :
  toLower c = "d"%char -> isDigit c = false /\ isSpace c = false.
Proof.
  destruct c as [[|] [|] [|] [|] [|] [|] [|] [|]];
    vm_compute; intros H; try discriminate H; auto.
Qed.

Lemma day_letters (w : input) :
  toLowerCase w = list_ascii_of_string "day" ->
  exists c1 c2 c3, w = [c1; c2; c3] /\ toLower c1 = "d"%char.
Proof.
  unfold toLowerCase. intros H.
  destruct w as [|c1 [|c2 [|c3 [|c4 w]]]]; try discriminate H.
  simpl in H. injection H as H1 _ _. eauto.
Qed.

Lemma digit_no_space c : isDigit c = true -> isSpace c = false.
Proof.
  intros H. destruct (isSpace c) eqn:E; [|reflexivity].
  apply space_not_digit in E. congruence.
Qed.

(** The word pattern takes [N day] at its start. *)
Lemma longRe_days (d : ascii) (ds ws w rest : input) :
  Forall (fun c => isDigit c = true) (d :: ds) ->
  Forall (fun c => isSpace c = true) ws ->
  toLowerCase w = list_ascii_of_string "day" ->
  search longRe ((d :: ds) ++ ws ++ w ++ rest) = Some [(2%nat, w); (1%nat, d :: ds)].
Proof.
  intros Hds Hws Hw.
  destruct (day_letters w Hw) as (c1 & c2 & c3 & Ew & Hc1).
  destruct (toLower_d c1 Hc1) as [Hd1 Hs1].
  assert (Hfirst : match ws ++ w ++ rest with
                   | c :: _ => isDigit c = false
                   | [] => True
                   end).
  { destruct ws as [|x ws]; simpl.
    - rewrite Ew. exact Hd1.
    - apply space_not_digit. inversion Hws. assumption. }
  assert (Hsecond : match w ++ rest with
                    | c :: _ => isSpace c = false
                    | [] => True
                    end) by (rewrite Ew; exact Hs1).
  destruct (run_Grp_Plus_head 1 isDigit [] d ds _ Hds Hfirst) as [l1 E1].
  destruct (run_Star_head isSpace [(1%nat, d :: ds)] ws _ Hws Hsecond)
    as [l2 E2].
  assert (E3 : run (Alt (word (list_ascii_of_string "hour"))
                      (Alt (word (list_ascii_of_string "minute"))
                         (Alt (word (list_ascii_of_string "second"))
                            (word (list_ascii_of_string "day")))))
                 [(1%nat, d :: ds)] (w ++ rest) =
               [([(1%nat, d :: ds)], rest)]).
  { cbn [run].
    rewrite (run_word_exact (list_ascii_of_string "day") _ w rest Hw).
    rewrite Ew. cbn [app list_ascii_of_string].
    rewrite !run_word_nil by (rewrite Hc1; discriminate). reflexivity. }
  destruct (run_Grp_head 2 _ _ _ _ _ _ E3) as [l3 E3'].
  rewrite consumed_app in E3'.
  destruct (run_Cat_head _ _ _ _ _ _ _ _ _ E2 E3') as [l4 E4].
  destruct (run_Cat_head _ _ _ _ _ _ _ _ _ E1 E4) as [l5 E5].
  eapply search_here. exact E5.
Qed.

Lemma digit_toLower c : isDigit c = true -> isDigit (toLower c) = true.
Proof.
  destruct c as [[|] [|] [|] [|] [|] [|] [|] [|]];
    vm_compute; congruence.
Qed.

Lemma toLowerCase_no_digit (w : input) :
  Forall (fun c => isDigit c = false) (toLowerCase w) ->
  Forall (fun c => isDigit c = false) w.
Proof.
  unfold toLowerCase. induction w as [|c w IH]; simpl; intros H;
    [constructor|].
  inversion H as [|? ? Hc Hw]. subst. constructor; [|apply IH; exact Hw].
  destruct (isDigit c) eqn:E; [|reflexivity].
  apply digit_toLower in E. congruence.
Qed.

Lemma unit_no_digit_space u :
  toLower u = "h"%char \/ toLower u = "m"%char \/ toLower u = "s"%char ->
  isDigit u = false /\ isSpace u = false.
Proof.
  intros [H|[H|H]];
    (eapply toLower_cases in H; [destruct H as (H1 & H2 & _); auto|auto]).
Qed.

Lemma head_no_digit (ws : input) (u : ascii) (rest : input) :
  Forall (fun c => isSpace c = true) ws -> isDigit u = false ->
  match ws ++ u :: rest with c :: _ => isDigit c = false | [] => True end.
Proof.
  intros Hws Hu. destruct ws as [|x ws]; simpl; [exact Hu|].
  apply space_not_digit. inversion Hws. assumption.
Qed.

(** The compact pattern finds nothing in [N day] followed by text
    without digits. *)
Lemma shortRe_days (ds ws w rest : input) :
  Forall (fun c => isDigit c = true) ds ->
  Forall (fun c => isSpace c = true) ws ->
  toLowerCase w = list_ascii_of_string "day" ->
  Forall (fun c => isDigit c = false) rest ->
  search shortRe (ds ++ ws ++ w ++ rest) = None.
Proof.
  intros Hds Hws Hw Hrest.
  assert (HY : Forall (fun c => isDigit c = false) (ws ++ w ++ rest)).
  { apply Forall_app. split.
    - eapply Forall_impl; [exact Hws|]. intros c. apply space_not_digit.
    - apply Forall_app. split; [|exact Hrest].
      apply toLowerCase_no_digit. rewrite Hw. repeat constructor. }
  destruct (day_letters w Hw) as (c1 & c2 & c3 & Ew & Hc1).
  destruct (toLower_d c1 Hc1) as [Hd1 Hs1].
  clear Hw. subst w.
  apply search_None. intros pre s' E.
  destruct (run shortRe [] s') as [|st l] eqn:Er; [reflexivity|exfalso].
  assert (Hin : In st (run shortRe [] s')) by (rewrite Er; left; reflexivity).
  apply shortRe_match in Hin.
  destruct Hin as (ds' & ws' & u & rest' & _ & Es' & Hne & Hds' & Hws' & Hu).
  destruct (unit_no_digit_space u Hu) as [Hud Hus].
  destruct ds' as [|c t]; [contradiction|].
  assert (Hc : isDigit c = true) by (inversion Hds'; assumption).
  rewrite Es' in E. symmetry in E. cbn [app] in E.
  destruct (digit_in_run isDigit pre ds c _ _ E Hc HY) as (D2 & ED & E2).
  rewrite ED in Hds. apply Forall_app in Hds. destruct Hds as [_ HD2].
  change (c :: t ++ ws' ++ u :: rest') with ((c :: t) ++ ws' ++ u :: rest') in E2.
  destruct (span_unique isDigit (c :: t) D2
              (ws' ++ u :: rest') (ws ++ [c1; c2; c3] ++ rest))
    as [_ E3]; auto.
  { apply head_no_digit; assumption. }
  { apply head_no_digit; assumption. }
  destruct (span_unique isSpace ws' ws (u :: rest') ([c1; c2; c3] ++ rest))
    as [_ E4]; auto.
  injection E4 as Eu _. rewrite Eu in Hu.
  destruct Hu as [H|[H|H]]; rewrite Hc1 in H; discriminate H.
Qed.

(** The parser answers [null] exactly when none of its three patterns
    matches: no [switch] is left without a [return]. *)
Lemma parse_None_iff (text : string) :
  parseTimeToMinutes (Some text) = None <->
  search shortRe (list_ascii_of_string text) = None /\
  search longRe (list_ascii_of_string text) = None /\
  search clockRe (list_ascii_of_string text) = None.
Proof.
  destruct text as [|c text]; [vm_compute; tauto|].
  unfold parseTimeToMinutes.
  change (truthy (Some (String c text))) with true. cbn [negb].
  split.
  - destruct (tryShort _) as [r|] eqn:Es; [discriminate|].
    destruct (tryLong _) as [r|] eqn:El; [discriminate|].
    intros Hc. split; [apply tryShort_None; exact Es|].
    split; [apply tryLong_None; exact El|].
    unfold tryClock in Hc. destruct (search clockRe _); [discriminate|reflexivity].
  - intros (Hs & Hl & Hc). unfold tryShort, tryLong, tryClock.
    rewrite Hs, Hl, Hc. reflexivity.
Qed.

Lemma parse_nonneg (timeText : option string) (n : Z) :
  parseTimeToMinutes timeText = Some n -> 0 <= n.
Proof.
  unfold parseTimeToMinutes. destruct timeText as [text|]; [|discriminate].
  destruct (negb (truthy (Some text))); [discriminate|].
  destruct (tryShort (list_ascii_of_string text)) as [r|] eqn:Es.
  - intros H. injection H as <-. eapply tryShort_nonneg; eauto.
  - destruct (tryLong (list_ascii_of_string text)) as [r|] eqn:El.
    + intros H. injection H as <-. eapply tryLong_nonneg; eauto.
    + apply tryClock_nonneg.
Qed.

(** When the compact pattern finds nothing, the word pattern can only
    have found days. *)
Lemma long_only_days (text : string) (m : captures) :
  search shortRe (list_ascii_of_string text) = None ->
  search longRe (list_ascii_of_string text) = Some m ->
  toLowerCase (group 2 m) = list_ascii_of_string "day" /\
  parseTimeToMinutes (Some text) = Some (parseInt (group 1 m) * 24 * 60).
Proof.
  intros Hshort Hlong.
  assert (Hday : toLowerCase (group 2 m) = list_ascii_of_string "day").
  { destruct (search_longRe_match _ m Hlong) as (ds & w & -> & _ & Hw).
    cbn [group Nat.eqb].
    destruct Hw as [Hw|[Hw|[Hw|Hw]]]; [exfalso..|exact Hw].
    all: apply search_Some in Hlong;
      destruct Hlong as (pre & s' & rest & l & Hs & Hrun & _);
      assert (Hin : In ([(2%nat, w); (1%nat, ds)], rest) (run longRe [] s'))
        by (rewrite Hrun; left; reflexivity);
      apply longRe_covered in Hin;
      [|cbn [fst group Nat.eqb]; rewrite Hw; discriminate];
      destruct Hin as (m' & Hm');
      rewrite Hs in Hshort; apply search_suffix_None in Hshort; congruence. }
  split; [exact Hday|].
  unfold parseTimeToMinutes.
  destruct text as [|c text]; [vm_compute in Hlong; discriminate|].
  change (truthy (Some (String c text))) with true. cbn [negb].
  unfold tryShort. rewrite Hshort.
  unfold tryLong. rewrite Hlong. cbn zeta. rewrite Hday. reflexivity.
Qed.

(** The optional end of the clock pattern always matches, and binds at
    most group 3. *)
Lemma clock_tail_head caps (s : input) :
  exists st l,
    run (Cat (Opt (lit ":")) (Opt (Grp 3 (Plus isDigit)))) caps s = st :: l /\
    (fst st = caps \/ exists t, fst st = (3%nat, t) :: caps).
Proof.
  assert (Hopt : forall x, exists st l,
             run (Opt (Grp 3 (Plus isDigit))) caps x = st :: l /\
             (fst st = caps \/ exists t, fst st = (3%nat, t) :: caps)).
  { intros x. cbn [run].
    destruct (match x with
              | [] => []
              | c :: s' => if isDigit c then map (pair caps) (greedy isDigit s') else []
              end) as [|st0 l0] eqn:E.
    - cbn [map app]. eexists _, _. split; [reflexivity|]. left. reflexivity.
    - cbn [map app]. eexists _, _. split; [reflexivity|]. right.
      assert (Hin : In st0 (run (Plus isDigit) caps x))
        by (cbn [run]; rewrite E; left; reflexivity).
      apply run_Plus_In in Hin. destruct Hin as (pre & rest & -> & _).
      cbn [fst]. eauto. }
  destruct (run (Opt (lit ":")) caps s) as [|[caps1 s1] l1] eqn:E1.
  { cbn [run] in E1. destruct (run (lit ":") caps s); discriminate E1. }
  assert (Hc : caps1 = caps).
  { cbn [run] in E1. unfold lit in E1. cbn [run] in E1.
    destruct s as [|c s']; [injection E1 as <- _; reflexivity|].
    destruct (Ascii.eqb ":" c); injection E1 as <- _; reflexivity. }
  subst caps1. destruct (Hopt s1) as (st & l & E2 & Hst).
  destruct (run_Cat_head _ _ _ _ _ _ _ _ _ E1 E2) as [l' E].
  exists st, l'. split; [exact E|exact Hst].
Qed.

(** The clock pattern takes [H:MM] at its start, whole runs of digits. *)
Lemma clockRe_first (d1 : ascii) (ds1 : input) (d2 : ascii) (ds2 rest : input) :
  Forall (fun c => isDigit c = true) (d1 :: ds1) ->
  Forall (fun c => isDigit c = true) (d2 :: ds2) ->
  match rest with c :: _ => isDigit c = false | [] => True end ->
  exists m,
    search clockRe ((d1 :: ds1) ++ ":"%char :: (d2 :: ds2) ++ rest) = Some m /\
    group 1 m = d1 :: ds1 /\ group 2 m = d2 :: ds2.
Proof.
  intros H1 H2 Hrest.
  destruct (run_Grp_Plus_head 1 isDigit [] d1 ds1
              (":"%char :: (d2 :: ds2) ++ rest) H1 eq_refl) as [l1 E1].
  destruct (run_Grp_Plus_head 2 isDigit [(1%nat, d1 :: ds1)] d2 ds2 rest H2 Hrest)
    as [l2 E2].
  destruct (clock_tail_head [(2%nat, d2 :: ds2); (1%nat, d1 :: ds1)] rest)
    as (st & l3 & E3 & Hst).
  destruct (run_Cat_head _ _ _ _ _ _ _ _ _ E2 E3) as [l4 E4].
  assert (Ecolon : run (lit ":") [(1%nat, d1 :: ds1)]
                     (":"%char :: (d2 :: ds2) ++ rest) =
                   [([(1%nat, d1 :: ds1)], (d2 :: ds2) ++ rest)])
    by reflexivity.
  destruct (run_Cat_head _ _ _ _ _ _ _ _ _ Ecolon E4) as [l5 E5].
  destruct (run_Cat_head _ _ _ _ _ _ _ _ _ E1 E5) as [l6 E6].
  exists (fst st). split.
  - destruct st as [m rest']. eapply search_here. exact E6.
  - destruct Hst as [->|[t ->]]; split; reflexivity.
Qed.

(** A match of the compact or of the word pattern shows a letter h, m,
    s or d. *)
Lemma patterns_need_letter (s : input) :
  Forall (fun c => ~ In (toLower c) ["h"; "m"; "s"; "d"]%char) s ->
  search shortRe s = None /\ search longRe s = None.
Proof.
  intros Hs. split; apply search_None; intros pre s' ->;
    apply Forall_app in Hs; destruct Hs as [_ Hs].
  - destruct (run shortRe [] s') as [|st l] eqn:Er; [reflexivity|exfalso].
    assert (Hin : In st (run shortRe [] s')) by (rewrite Er; left; reflexivity).
    apply shortRe_match in Hin.
    destruct Hin as (ds & ws & u & rest & _ & -> & _ & _ & _ & Hu).
    apply Forall_app in Hs. destruct Hs as [_ Hs].
    apply Forall_app in Hs. destruct Hs as [_ Hs].
    inversion Hs as [|? ? Hn _]. subst. apply Hn. simpl.
    destruct Hu as [->|[->| ->]]; auto.
  - destruct (run longRe [] s') as [|st l] eqn:Er; [reflexivity|exfalso].
    assert (Hin : In st (run longRe [] s')) by (rewrite Er; left; reflexivity).
    apply longRe_match in Hin.
    destruct Hin as (ds & ws & w & rest & _ & -> & _ & _ & _ & Hw).
    apply Forall_app in Hs. destruct Hs as [_ Hs].
    apply Forall_app in Hs. destruct Hs as [_ Hs].
    apply Forall_app in Hs. destruct Hs as [Hs _].
    assert (Hc : exists c w', w = c :: w' /\
                   In (toLower c) ["h"; "m"; "s"; "d"]%char).
    { unfold toLowerCase in Hw.
      destruct Hw as [H|[H|[H|H]]];
        (destruct w as [|c w']; [discriminate H|]);
        simpl in H; injection H as Hc _; exists c, w';
        (split; [reflexivity|]); rewrite Hc; simpl; auto. }
    destruct Hc as (c & w' & -> & Hc).
    inversion Hs as [|? ? Hn _]. subst. exact (Hn Hc).
Qed.

Lemma matched_Some r : forall s m0,
  matched r s = Some m0 ->
  exists pre s' caps rest l,
    s = pre ++ s' /\ run r [] s' = (caps, rest) :: l /\ m0 = consumed s' rest.
Proof.
  induction s as [|c s IH]; intros m0; simpl.
  - destruct (run r [] []) as [|[caps0 rest0] l] eqn:E; [discriminate|].
    intros H. injection H as <-. exists [], [], caps0, rest0, l. auto.
  - destruct (run r [] (c :: s)) as [|[caps0 rest0] l] eqn:E.
    + intros H. apply IH in H.
      destruct H as (pre & s' & caps & rest & l & -> & Hrun & ->).
      exists (c :: pre), s', caps, rest, l. auto.
    + intros H. injection H as <-. exists [], (c :: s), caps0, rest0, l. auto.
Qed.

Lemma run_Alt_In r1 r2 caps s st :
  In st (run (Alt r1 r2) caps s) <->
  In st (run r1 caps s) \/ In st (run r2 caps s).
Proof. cbn [run]. apply in_app_iff. Qed.

Lemma run_Opt_In r caps s st :
  In st (run (Opt r) caps s) -> In st (run r caps s) \/ st = (caps, s).
Proof.
  cbn [run]. rewrite in_app_iff. intros [H|[<-|[]]]; auto.
Qed.

(** What the page pattern takes: digits and a unit letter; or digits, a
    colon, digits; or digits, one space, a unit word and perhaps an s. *)
Lemma timeRe_match s st :
  In st (run timeRe [] s) ->
  exists m0,
    s = m0 ++ snd st /\
    ((exists ds u, m0 = ds ++ [u] /\ ds <> [] /\
        Forall (fun c => isDigit c = true) ds /\
        (toLower u = "h"%char \/ toLower u = "m"%char \/ toLower u = "s"%char)) \/
     (exists ds1 ds2, m0 = ds1 ++ ":"%char :: ds2 /\ ds1 <> [] /\ ds2 <> [] /\
        Forall (fun c => isDigit c = true) ds1 /\
        Forall (fun c => isDigit c = true) ds2) \/
     (exists ds w opt, m0 = ds ++ " "%char :: w ++ opt /\ ds <> [] /\
        Forall (fun c => isDigit c = true) ds /\
        (toLowerCase w = list_ascii_of_string "hour" \/
         toLowerCase w = list_ascii_of_string "minute" \/
         toLowerCase w = list_ascii_of_string "second" \/
         toLowerCase w = list_ascii_of_string "day"))).
Proof.
  unfold timeRe. intros H. apply run_Grp_In in H. destruct H as (st0 & H & ->).
  cbn [snd]. apply run_Alt_In in H. destruct H as [H|H];
    [|apply run_Alt_In in H; destruct H as [H|H]].
  - apply run_Cat_In in H. destruct H as (st1 & H1 & H).
    apply run_Plus_In in H1. destruct H1 as (ds & rest1 & -> & -> & Hne & Hds).
    cbn [fst snd] in H. apply run_Chr_In in H.
    destruct H as (u & rest & -> & -> & Hu). cbn [snd].
    exists (ds ++ [u]). split; [rewrite <- app_assoc; reflexivity|].
    left. exists ds, u. split; [reflexivity|]. split; [exact Hne|].
    split; [exact Hds|].
    unfold isUnitLetter in Hu. apply orb_prop in Hu. destruct Hu as [Hu|Hu].
    + apply orb_prop in Hu. destruct Hu as [Hu|Hu]; apply Ascii.eqb_eq in Hu; auto.
    + apply Ascii.eqb_eq in Hu. auto.
  - apply run_Cat_In in H. destruct H as (st1 & H1 & H).
    apply run_Plus_In in H1. destruct H1 as (ds1 & rest1 & -> & -> & Hne1 & Hds1).
    cbn [fst snd] in H. apply run_Cat_In in H. destruct H as (st2 & H2 & H).
    apply run_Chr_In in H2. destruct H2 as (c & rest2 & -> & -> & Hc).
    apply Ascii.eqb_eq in Hc. subst c. cbn [fst snd] in H.
    apply run_Plus_In in H. destruct H as (ds2 & rest & -> & -> & Hne2 & Hds2).
    cbn [snd]. exists (ds1 ++ ":"%char :: ds2).
    split; [rewrite <- app_assoc; reflexivity|].
    right. left. exists ds1, ds2. auto.
  - apply run_Cat_In in H. destruct H as (st1 & H1 & H).
    apply run_Plus_In in H1. destruct H1 as (ds & rest1 & -> & -> & Hne & Hds).
    cbn [fst snd] in H. apply run_Cat_In in H. destruct H as (st2 & H2 & H).
    apply run_Chr_In in H2. destruct H2 as (c & rest2 & -> & -> & Hc).
    apply Ascii.eqb_eq in Hc. subst c. cbn [fst snd] in H.
    apply run_Cat_In in H. destruct H as (st3 & H3 & H).
    apply run_Grp_In in H3. destruct H3 as (st4 & H4 & ->).
    apply longUnit_run in H4. destruct H4 as (w & rest3 & -> & -> & Hw).
    cbn [fst snd] in H. apply run_Opt_In in H.
    destruct H as [H| ->].
    + apply run_Chr_In in H. destruct H as (c & rest & -> & -> & _).
      cbn [snd]. exists (ds ++ " "%char :: w ++ [c]).
      split.
      { rewrite <- !app_assoc. cbn [app]. rewrite <- !app_assoc. reflexivity. }
      right. right. exists ds, w, [c]. auto.
    + cbn [snd]. exists (ds ++ " "%char :: w ++ []).
      split.
      { rewrite <- !app_assoc. cbn [app]. rewrite <- !app_assoc. reflexivity. }
      right. right. exists ds, w, []. auto.
Qed.

Lemma longRe_here (d : ascii) (ds ws w rest : input) :
  Forall (fun c => isDigit c = true) (d :: ds) ->
  Forall (fun c => isSpace c = true) ws ->
  toLowerCase w = list_ascii_of_string "hour" \/
  toLowerCase w = list_ascii_of_string "minute" \/
  toLowerCase w = list_ascii_of_string "second" \/
  toLowerCase w = list_ascii_of_string "day" ->
  exists m, search longRe ((d :: ds) ++ ws ++ w ++ rest) = Some m.
Proof.
  intros Hds Hws Hw.
  apply (search_of_In longRe _ ([(2%nat, w); (1%nat, d :: ds)], rest)).
  unfold longRe. apply run_Cat_In.
  exists ([(1%nat, d :: ds)], ws ++ w ++ rest).
  split; [apply run_Grp_Plus_In_conv; exact Hds|]. cbn [fst snd].
  apply run_Cat_In. exists ([(1%nat, d :: ds)], w ++ rest).
  split; [apply run_Star_In_conv; exact Hws|]. cbn [fst snd].
  cbn [run]. apply in_map_iff. exists ([(1%nat, d :: ds)], rest).
  cbn [fst snd]. rewrite consumed_app. split; [reflexivity|].
  rewrite !in_app_iff.
  destruct Hw as [Hw|[Hw|[Hw|Hw]]];
    [left|right; left|right; right; left|right; right; right];
    apply run_word_In_conv; exact Hw.
Qed.

(** Some pattern of the parser matches what the page pattern took. *)
Lemma timeRe_parses s st m0 :
  In st (run timeRe [] s) -> s = m0 ++ snd st ->
  ~ (search shortRe m0 = None /\ search longRe m0 = None /\
     search clockRe m0 = None).
Proof.
  intros Hin Es (Hs & Hl & Hc).
  apply timeRe_match in Hin. destruct Hin as (m0' & Es' & Hshape).
  assert (m0' = m0).
  { rewrite Es in Es'. apply app_inv_tail in Es'. auto. }
  subst m0'.
  destruct Hshape as [(ds & u & -> & Hne & Hds & Hu)
                     |[(ds1 & ds2 & -> & Hne1 & Hne2 & Hds1 & Hds2)
                      |(ds & w & opt & -> & Hne & Hds & Hw)]].
  - destruct ds as [|d ds]; [contradiction|].
    pose proof (shortRe_compact d ds [] u [] Hds (List.Forall_nil _) Hu) as H.
    cbn [app] in H, Hs. congruence.
  - destruct ds1 as [|d1 ds1]; [contradiction|].
    destruct ds2 as [|d2 ds2]; [contradiction|].
    destruct (clockRe_first d1 ds1 d2 ds2 [] Hds1 Hds2 I) as (m & Hm & _).
    rewrite app_nil_r in Hm. congruence.
  - destruct ds as [|d ds]; [contradiction|].
    assert (Hsp : Forall (fun c => isSpace c = true) [" "%char])
      by (repeat constructor).
    destruct (longRe_here d ds [" "%char] w opt Hds Hsp Hw) as (m & Hm).
    cbn [app] in Hm, Hl. congruence.
Qed.

End ParserFacts.

Import MatcherFacts ParserFacts.

(** X13.  A text without a digit has no time: [parseTimeToMinutes]
    answers [null] on it, whatever else it holds; each of the three
    patterns starts with a run of digits. *)
Theorem no_digit_no_time (text : string) :
  Forall (fun c => isDigit c = false) (list_ascii_of_string text) ->
  parseTimeToMinutes (Some text) = None.
Proof.
  intros H. unfold parseTimeToMinutes.
  destruct (negb (truthy (Some text))); [reflexivity|].
  unfold tryShort, tryLong, tryClock, shortRe, longRe, clockRe.
  rewrite !(search_no_class _ isDigit _ _ H). reflexivity.
Qed.

Lemma no_digit_no_time_witness :
  parseTimeToMinutes (Some "soon"%string) = None.
Proof.
  apply (no_digit_no_time "soon"%string).
  repeat constructor.
Defined.

(** X14.  [parseTimeToMinutes] never answers a negative number. *)
Theorem parseTimeToMinutes_nonneg (timeText : option string) (n : Z) :
  parseTimeToMinutes timeText = Some n -> 0 <= n.
Proof. apply parse_nonneg. Qed.

Lemma parseTimeToMinutes_nonneg_witness :
  parseTimeToMinutes (Some "45s"%string) = Some 1 /\ 0 <= 1.
Proof.
  assert (H : parseTimeToMinutes (Some "45s"%string) = Some 1)
    by (vm_compute; reflexivity).
  split; [exact H|].
  exact (parseTimeToMinutes_nonneg (Some "45s"%string) 1 H).
Defined.

(** X15.  [parseTimeToMinutes] answers [null] exactly when none of its
    three patterns matches anywhere in the text: once a pattern has
    matched, its [switch] always returns, and control never falls
    through to the next pattern. *)
Theorem parse_null_iff (text : string) :
  parseTimeToMinutes (Some text) = None <->
  search shortRe (list_ascii_of_string text) = None /\
  search longRe (list_ascii_of_string text) = None /\
  search clockRe (list_ascii_of_string text) = None.
Proof. apply parse_None_iff. Qed.

(** X16.  Of the four cases of the second [switch] only [day] is live.
    When the compact pattern finds nothing in the text and the word
    pattern matches, the word it found is [day] up to case and the
    answer is the number in front of it times 24 * 60; a text with
    [hour], [minute] or [second] after a number is always taken by the
    compact pattern, which reads the first letter as the unit. *)
Theorem word_pattern_only_days (text : string) (m : captures) :
  search shortRe (list_ascii_of_string text) = None ->
  search longRe (list_ascii_of_string text) = Some m ->
  toLowerCase (group 2 m) = list_ascii_of_string "day" /\
  parseTimeToMinutes (Some text) = Some (parseInt (group 1 m) * 24 * 60).
Proof. apply long_only_days. Qed.

Lemma word_pattern_only_days_witness :
  toLowerCase (group 2 [(2%nat, list_ascii_of_string "Day");
                        (1%nat, list_ascii_of_string "2")]) =
    list_ascii_of_string "day" /\
  parseTimeToMinutes (Some "in 2 Days"%string) = Some 2880.
Proof.
  apply (word_pattern_only_days "in 2 Days"%string
           [(2%nat, list_ascii_of_string "Day");
            (1%nat, list_ascii_of_string "2")]).
  - vm_compute. reflexivity.
  - vm_compute. reflexivity.
Defined.

(** X17.  Days in words.  A text made of a part without digits, a run
    of digits, white space, the word [day] in any case and a rest
    without digits parses to the number times 1440 minutes. *)
Theorem parseTimeToMinutes_days (text : string) (pre : input) (d : ascii)
    (ds ws w rest : input) :
  list_ascii_of_string text = pre ++ (d :: ds) ++ ws ++ w ++ rest ->
  Forall (fun c => isDigit c = false) pre ->
  Forall (fun c => isDigit c = true) (d :: ds) ->
  Forall (fun c => isSpace c = true) ws ->
  toLowerCase w = list_ascii_of_string "day" ->
  Forall (fun c => isDigit c = false) rest ->
  parseTimeToMinutes (Some text) = Some (parseInt (d :: ds) * 24 * 60).
Proof.
  intros Etext Hpre Hds Hws Hw Hrest.
  assert (Hshort : search shortRe (list_ascii_of_string text) = None).
  { rewrite Etext. unfold shortRe. rewrite search_skip by exact Hpre.
    apply (shortRe_days (d :: ds) ws w rest); assumption. }
  assert (Hlong : search longRe (list_ascii_of_string text) =
                  Some [(2%nat, w); (1%nat, d :: ds)]).
  { rewrite Etext. unfold longRe. rewrite search_skip by exact Hpre.
    apply (longRe_days d ds ws w rest); assumption. }
  exact (proj2 (long_only_days text _ Hshort Hlong)).
Qed.

Lemma parseTimeToMinutes_days_witness :
  parseTimeToMinutes (Some "3 days left"%string) = Some 4320.
Proof.
  apply (parseTimeToMinutes_days "3 days left"%string [] "3"%char []
           [" "%char] (list_ascii_of_string "day")
           (list_ascii_of_string "s left")).
  - reflexivity.
  - constructor.
  - repeat constructor.
  - repeat constructor.
  - reflexivity.
  - repeat constructor.
Defined.

(** X18.  The clock form.  In a text without any of the letters h, m,
    s, d (in either case), the first run of digits that is followed by
    a colon and a second run of digits is read as hours and minutes:
    the answer is [hours * 60 + minutes], and a third field of seconds
    is ignored. *)
Theorem parseTimeToMinutes_clock (text : string) (pre : input)
    (d1 : ascii) (ds1 : input) (d2 : ascii) (ds2 rest : input) :
  list_ascii_of_string text =
    pre ++ (d1 :: ds1) ++ ":"%char :: (d2 :: ds2) ++ rest ->
  Forall (fun c => isDigit c = false) pre ->
  Forall (fun c => isDigit c = true) (d1 :: ds1) ->
  Forall (fun c => isDigit c = true) (d2 :: ds2) ->
  match rest with c :: _ => isDigit c = false | [] => True end ->
  Forall (fun c => ~ In (toLower c) ["h"; "m"; "s"; "d"]%char)
    (list_ascii_of_string text) ->
  parseTimeToMinutes (Some text) =
    Some (parseInt (d1 :: ds1) * 60 + parseInt (d2 :: ds2)).
Proof.
  intros Etext Hpre H1 H2 Hrest Hletters.
  destruct (patterns_need_letter _ Hletters) as [Hshort Hlong].
  destruct (clockRe_first d1 ds1 d2 ds2 rest H1 H2 Hrest) as (m & Hm & G1 & G2).
  unfold parseTimeToMinutes.
  destruct text as [|c text].
  { destruct pre; discriminate Etext. }
  change (truthy (Some (String c text))) with true. cbn [negb].
  unfold tryShort, tryLong, tryClock. rewrite Hshort, Hlong, Etext.
  unfold clockRe. rewrite search_skip by exact Hpre. fold clockRe.
  rewrite Hm. cbn zeta. rewrite G1, G2, !orZero_id. reflexivity.
Qed.

Lemma parseTimeToMinutes_clock_witness :
  parseTimeToMinutes (Some "01:30:45"%string) = Some 90.
Proof.
  apply (parseTimeToMinutes_clock "01:30:45"%string [] "0"%char ["1"%char]
           "3"%char ["0"%char] (list_ascii_of_string ":45")).
  - reflexivity.
  - constructor.
  - repeat constructor.
  - repeat constructor.
  - reflexivity.
  - repeat (constructor; [simpl; intuition discriminate|]). constructor.
Defined.

(** X19.  Every time text the page pattern extracts is one the parser
    understands: when the pattern of [scrape] matches in a card's text,
    the [timeText] it yields is a piece of that text and
    [parseTimeToMinutes] turns it into a number, never into [null], and
    that number is not negative. *)
Theorem extracted_time_parses (text t : string) :
  timeTextOf text = Some t ->
  (exists pre rest,
     list_ascii_of_string text = pre ++ list_ascii_of_string t ++ rest) /\
  exists n, parseTimeToMinutes (Some t) = Some n /\ 0 <= n.
Proof.
  unfold timeTextOf.
  destruct (matched timeRe (list_ascii_of_string text)) as [m0|] eqn:E;
    [|discriminate].
  intros H. injection H as <-. rewrite list_ascii_of_string_of_list_ascii.
  apply matched_Some in E.
  destruct E as (pre & s' & caps & rest & l & Es & Hrun & ->).
  assert (Hin : In (caps, rest) (run timeRe [] s'))
    by (rewrite Hrun; left; reflexivity).
  destruct (timeRe_match s' _ Hin) as (m0 & Em & _). cbn [snd] in Em.
  rewrite Em, consumed_app. split.
  - exists pre, rest. rewrite Es, Em. reflexivity.
  - destruct (parseTimeToMinutes (Some (string_of_list_ascii m0))) as [n|] eqn:Ep.
    + exists n. split; [reflexivity|].
      eapply parse_nonneg. exact Ep.
    + exfalso. apply parse_None_iff in Ep.
      rewrite list_ascii_of_string_of_list_ascii in Ep.
      exact (timeRe_parses s' _ m0 Hin Em Ep).
Qed.

Lemma extracted_time_parses_witness :
  timeTextOf "TOKEN migrates in 2 Hours"%string = Some "2 Hours"%string /\
  exists n, parseTimeToMinutes (Some "2 Hours"%string) = Some n /\ 0 <= n.
Proof.
  assert (H : timeTextOf "TOKEN migrates in 2 Hours"%string =
              Some "2 Hours"%string) by (vm_compute; reflexivity).
  split; [exact H|].
  exact (proj2 (extracted_time_parses _ _ H)).
Defined.

(** X20.  From the page to the message.  When the batch was annotated
    from the time texts, every alert carries a whole number [n] of
    minutes that is not negative, the parse of its observation's time
    text, and the time shown in its embed is the text of
    [formatTimeUntil] on that whole number: the fixed text for 0, the
    number with [minute] or [minutes] below an hour, whole hours when
    [n] is a multiple of 60, hours and minutes otherwise. *)
Theorem alert_time_text (raws : list Migration) (seen : gmap string Z)
    (now : Z) (th : Q) (a : Alert) :
  a ∈ snd (detect seen now (map Index.annotate raws) th) ->
  exists n,
    parseTimeToMinutes (timeText (migration a)) = Some n /\
    0 <= n /\ alertMinutes a = inject_Z n /\
    formatTimeUntil (alertMinutes a) =
      if n =? 0 then "Less than 1 minute"
      else if n <? 60 then
        pretty n +:+ " minute" +:+ (if n =? 1 then "" else "s")
      else if n mod 60 =? 0 then
        pretty (n / 60) +:+ " hour" +:+ (if n / 60 =? 1 then "" else "s")
      else pretty (n / 60) +:+ "h " +:+ pretty (n mod 60) +:+ "m".
Proof.
  intros Ha.
  destruct (detect_known_timing _ _ _ _ _ Ha) as (Hin & _ & Hmu & _).
  destruct (annotate_number raws _ _ Hin Hmu) as (n & Hp & Hq).
  pose proof (parse_nonneg _ _ Hp) as Hn.
  exists n. split; [exact Hp|]. split; [exact Hn|]. split; [exact Hq|].
  rewrite Hq, formatTimeUntil_inject.
  destruct (n =? 0) eqn:E0.
  - apply Z.eqb_eq in E0. subst n. reflexivity.
  - apply Z.eqb_neq in E0.
    assert (E1 : (n <? 1) = false) by (apply Z.ltb_ge; lia).
    rewrite E1. reflexivity.
Qed.

Lemma alert_time_text_witness :
  Examples.alertX4 ∈
    snd (detect ∅ Examples.T0 (map Index.annotate [Examples.tokenX "4m"]) 30) /\
  exists n,
    parseTimeToMinutes (timeText (migration Examples.alertX4)) = Some n /\
    0 <= n /\ alertMinutes Examples.alertX4 = inject_Z n.
Proof.
  assert (H : Examples.alertX4 ∈
              snd (detect ∅ Examples.T0
                     (map Index.annotate [Examples.tokenX "4m"]) 30)).
  { vm_compute. left. }
  split; [exact H|].
  destruct (alert_time_text [Examples.tokenX "4m"] ∅ Examples.T0 30%Q
              Examples.alertX4 H) as (n & H1 & H2 & H3 & _).
  exists n. auto.
Defined.

(** ** One check from end to end *)

Module RunnerFacts.
Import JS Tracker JSFacts TrackerFacts StoreFacts StoreMore Runner.

Lemma alertPosts_app tr1 tr2 :
  alertPosts (tr1 ++ tr2) = alertPosts tr1 ++ alertPosts tr2.
Proof. apply omap_app. Qed.

Lemma errorPosts_app tr1 tr2 :
  errorPosts (tr1 ++ tr2) = errorPosts tr1 ++ errorPosts tr2.
Proof. apply omap_app. Qed.

(** A printed line is no request. *)
Lemma posts_log tr e :
  match e with PostAlert _ | PostError _ => False | _ => True end ->
  alertPosts (tr ++ [e]) = alertPosts tr /\
  errorPosts (tr ++ [e]) = errorPosts tr.
Proof.
  destruct e; intros H; try contradiction;
    rewrite alertPosts_app, errorPosts_app; cbn; rewrite !app_nil_r; auto.
Qed.

Lemma emit_run e st :
  emit e st = (Ok (), mkState (world st) (trace st ++ [e])).
Proof. reflexivity. Qed.

(** Printing the observations changes no request and never throws. *)
Lemma logItems_run migrations : forall st,
  exists st',
    logItems migrations st = (Ok (), st') /\ world st' = world st /\
    alertPosts (trace st') = alertPosts (trace st) /\
    errorPosts (trace st') = errorPosts (trace st).
Proof.
  induction migrations as [|m rest IH]; intros st.
  - exists st. auto.
  - cbn [logItems]. unfold mbind, R_bind.
    destruct (negb (debug m)).
    + rewrite emit_run. destruct (IH (mkState (world st) (trace st ++ [LogItem m])))
        as (st' & E & Hw & Ha & He).
      exists st'. rewrite E. cbn [world trace] in *.
      rewrite alertPosts_app in Ha. rewrite errorPosts_app in He.
      cbn in Ha, He. rewrite app_nil_r in Ha, He. auto.
    + unfold mret, R_ret. apply IH.
Qed.

(** One pass of the loop: one request for the alert, whatever the
    webhook answers, and no exception. *)
Lemma sendOne_run webhook (a : Alert) (st : State) :
  exists st',
    tryCatchR
      (sendMigrationAlert webhook a;; emit (LogSent a);; emit Pause)
      (fun error => emit (LogFailed a error)) st = (Ok (), st') /\
    world st' = world st /\
    alertPosts (trace st') = alertPosts (trace st) ++ [a] /\
    errorPosts (trace st') = errorPosts (trace st).
Proof.
  unfold tryCatchR, sendMigrationAlert, mbind, R_bind.
  rewrite emit_run. unfold sendWebhookMessage. cbn [world trace].
  destruct (webhook (trace st ++ [LogDiscord a])) as [error|].
  - rewrite emit_run. cbn [world trace]. eexists. split; [reflexivity|].
    cbn [world trace]. rewrite !alertPosts_app, !errorPosts_app. cbn.
    rewrite !app_nil_r. auto.
  - rewrite !emit_run. cbn [world trace]. eexists. split; [reflexivity|].
    cbn [world trace]. rewrite !alertPosts_app, !errorPosts_app. cbn.
    rewrite !app_nil_r. auto.
Qed.

Lemma sendAlerts_run webhook (toAlert : list Alert) : forall st,
  exists st',
    sendAlerts webhook toAlert st = (Ok (), st') /\
    world st' = world st /\
    alertPosts (trace st') = alertPosts (trace st) ++ toAlert /\
    errorPosts (trace st') = errorPosts (trace st).
Proof.
  induction toAlert as [|a rest IH]; intros st.
  - exists st. rewrite app_nil_r. auto.
  - cbn [sendAlerts]. unfold mbind at 1, R_bind at 1.
    destruct (sendOne_run webhook a st) as (st1 & E1 & Hw1 & Ha1 & He1).
    rewrite E1. destruct (IH st1) as (st' & E & Hw & Ha & He).
    exists st'. rewrite E. split; [reflexivity|].
    split; [congruence|]. split; [|congruence].
    rewrite Ha, Ha1, <- app_assoc. reflexivity.
Qed.

(** The handler of the outer [catch]: one error notification, and no
    exception whatever the webhook answers. *)
Lemma handler_run webhook (error : string) (st : State) :
  exists st',
    (emit (LogCheckError error);; sendErrorNotification webhook error) st =
      (Ok (), st') /\
    world st' = world st /\
    alertPosts (trace st') = alertPosts (trace st) /\
    errorPosts (trace st') = errorPosts (trace st) ++ [error].
Proof.
  unfold mbind, R_bind. rewrite emit_run.
  unfold sendErrorNotification, tryCatchR, sendWebhookMessage. cbn [world trace].
  destruct (webhook (trace st ++ [LogCheckError error])) as [e|].
  - rewrite emit_run. cbn [world trace]. eexists. split; [reflexivity|].
    cbn [world trace]. rewrite !alertPosts_app, !errorPosts_app. cbn.
    rewrite !app_nil_r. auto.
  - eexists. split; [reflexivity|].
    cbn [world trace]. rewrite !alertPosts_app, !errorPosts_app. cbn.
    rewrite !app_nil_r. auto.
Qed.

Lemma checkMigrations_unfold JSON_parse JSON_stringify scraped webhook th st :
  checkMigrations JSON_parse JSON_stringify scraped webhook th st =
  tryCatchR
    (rawMigrations ← scrape scraped;
     let migrations := map Index.annotate rawMigrations in
     emit (LogFound (length migrations));;
     logItems migrations;;
     toAlert ← liftM (getMigrationsToAlert JSON_parse JSON_stringify
                        migrations th);
     emit (LogSending (length toAlert));;
     sendAlerts webhook toAlert)
    (fun error =>
       emit (LogCheckError error);;
       sendErrorNotification webhook error) (opened st).
Proof.
  unfold checkMigrations. unfold mbind at 1 2 3, R_bind at 1 2 3.
  rewrite !emit_run. cbn [world trace]. unfold opened.
  rewrite <- !app_assoc. reflexivity.
Qed.

Lemma opened_posts st :
  world (opened st) = world st /\
  alertPosts (trace (opened st)) = alertPosts (trace st) /\
  errorPosts (trace (opened st)) = errorPosts (trace st).
Proof.
  unfold opened. cbn [world trace].
  rewrite alertPosts_app, errorPosts_app. cbn. rewrite !app_nil_r. auto.
Qed.


(** A batch that has just been through a run from the empty ledger
    yields nothing inside the cooldown window. *)
Lemma rerun_from_empty (now1 now2 : Z) (S : list Migration) (th : Q) :
  now1 <> 0 -> now2 - now1 < cooldownMs ->
  snd (detect (fst (detect ∅ now1 S th)) now2 S th) = [].
Proof.
  intros Hnow Hlt. rewrite snd_detect. apply emit_nothing.
  intros m key a Hin Hc. apply shouldFire_false. exists now1.
  split; [|auto].
  rewrite fst_detect. apply lookup_evict_Some. split.
  - eapply emit_due; [exact Hin|exact Hc|].
    unfold shouldFire. rewrite lookup_empty. reflexivity.
  - rewrite Z.sub_diag, retentionMs_eq. lia.
Qed.

(** A check whose scrape succeeded, on a usable store. *)
Lemma checkMigrations_run JSON_parse JSON_stringify webhook th
    (raws : list Migration) (st : State) (seen : gmap string Z) (w1 : World) :
  loadSeenMigrations JSON_parse (world st) = (Ok seen, w1) ->
  dataDir w1 = true ->
  exists st',
    checkMigrations JSON_parse JSON_stringify (inr raws) webhook th st =
      (Ok (), st') /\
    alertPosts (trace st') =
      alertPosts (trace st) ++
      snd (detect seen (clock w1) (map Index.annotate raws) th) /\
    errorPosts (trace st') = errorPosts (trace st) /\
    world st' =
      snd (getMigrationsToAlert JSON_parse JSON_stringify
             (map Index.annotate raws) th (world st)).
Proof.
  intros Hl Hd.
  destruct (getMigrationsToAlert_run JSON_parse JSON_stringify _ _ _
              (map Index.annotate raws) th Hl Hd) as (w' & Hrun & _).
  rewrite checkMigrations_unfold.
  destruct (opened_posts st) as (Hw0 & Ha0 & He0).
  unfold tryCatchR. unfold mbind at 1, R_bind at 1. unfold scrape at 1.
  cbn zeta. unfold mbind at 1, R_bind at 1. rewrite emit_run.
  unfold mbind at 1, R_bind at 1.
  destruct (logItems_run (map Index.annotate raws)
              (mkState (world (opened st))
                 (trace (opened st) ++
                  [LogFound (length (map Index.annotate raws))])))
    as (st1 & E1 & Hw1 & Ha1 & He1).
  rewrite E1. cbn [world trace] in Hw1, Ha1, He1.
  destruct (posts_log (trace (opened st))
              (LogFound (length (map Index.annotate raws))) I) as [Hpa Hpe].
  rewrite Hpa in Ha1. rewrite Hpe in He1.
  unfold mbind at 1, R_bind at 1. unfold liftM at 1.
  rewrite Hw1, Hw0, Hrun.
  unfold mbind at 1, R_bind at 1. rewrite emit_run. cbn [world trace].
  destruct (sendAlerts_run webhook
              (snd (detect seen (clock w1) (map Index.annotate raws) th))
              (mkState w'
                 (trace st1 ++
                  [LogSending
                     (length (snd (detect seen (clock w1)
                                     (map Index.annotate raws) th)))])))
    as (st' & E & Hw & Ha & He).
  rewrite E. exists st'. split; [reflexivity|].
  cbn [world trace] in Hw, Ha, He.
  destruct (posts_log (trace st1)
              (LogSending
                 (length (snd (detect seen (clock w1)
                                 (map Index.annotate raws) th)))) I)
    as [Hqa Hqe].
  rewrite Hqa in Ha. rewrite Hqe in He.
  split; [congruence|]. split; [congruence|]. rewrite Hw. reflexivity.
Qed.

(** A check that fails before any alert is sent. *)
Lemma checkMigrations_failed JSON_parse JSON_stringify scraped webhook th
    (st : State) (e : string) :
  scraped = inl e \/
  (exists raws, scraped = inr raws) /\
  dataDir (world st) = false /\ mkdirError (world st) = Some e ->
  exists st',
    checkMigrations JSON_parse JSON_stringify scraped webhook th st =
      (Ok (), st') /\
    world st' = world st /\
    alertPosts (trace st') = alertPosts (trace st) /\
    errorPosts (trace st') = errorPosts (trace st) ++ [e].
Proof.
  intros H. rewrite checkMigrations_unfold.
  destruct (opened_posts st) as (Hw0 & Ha0 & He0).
  unfold tryCatchR. unfold mbind at 1, R_bind at 1. unfold scrape at 1.
  destruct H as [->|((raws & ->) & Hd & He)].
  - destruct (handler_run webhook e (opened st)) as (st' & E & Hw & Ha & Her).
    exists st'. split; [exact E|]. split; [congruence|].
    split; congruence.
  - cbn zeta. unfold mbind at 1, R_bind at 1. rewrite emit_run.
    unfold mbind at 1, R_bind at 1.
    destruct (logItems_run (map Index.annotate raws)
                (mkState (world (opened st))
                   (trace (opened st) ++
                    [LogFound (length (map Index.annotate raws))])))
      as (st1 & E1 & Hw1 & Ha1 & He1).
    rewrite E1. cbn [world trace] in Hw1, Ha1, He1.
    destruct (posts_log (trace (opened st))
                (LogFound (length (map Index.annotate raws))) I) as [Hpa Hpe].
    rewrite Hpa in Ha1. rewrite Hpe in He1.
    unfold mbind at 1, R_bind at 1. unfold liftM at 1.
    assert (Hthrow : getMigrationsToAlert JSON_parse JSON_stringify
                       (map Index.annotate raws) th (world st1) =
                     (Throw e, world st1)).
    { unfold getMigrationsToAlert, mbind, M_bind.
      rewrite (load_mkdir_failure JSON_parse (world st1) e); [reflexivity| |];
        congruence. }
    rewrite Hthrow.
    destruct (handler_run webhook e (mkState (world st1) (trace st1)))
      as (st' & E & Hw & Ha & Her).
    exists st'. split; [exact E|]. cbn [world trace] in Hw, Ha, Her.
    split; [congruence|]. split; congruence.
Qed.

End RunnerFacts.

Import Runner RunnerFacts.


(** X22.  Every alert is requested once, in order, whatever the webhook
    answers.  When the scrape succeeds and the data directory is usable,
    the requests a check makes are exactly the alerts that the tracker
    returns for the annotated batch on the loaded ledger, in that order,
    and no error notification; a rejected request does not stop the
    ones after it.  When writes go through, the file holds the ledger
    that records these alerts whether or not the requests succeeded. *)
Theorem every_alert_is_requested
    (JSON_parse : string -> string + gmap string Z)
    (JSON_stringify : gmap string Z -> string)
    (raws : list Migration)
    (webhook : list Event -> option string) (th : Q) (st : State) :
  dataDir (world st) = true \/ mkdirError (world st) = None ->
  exists seen st',
    fst (loadSeenMigrations JSON_parse (world st)) = Ok seen /\
    checkMigrations JSON_parse JSON_stringify (inr raws) webhook th st =
      (Ok (), st') /\
    alertPosts (trace st') =
      alertPosts (trace st) ++
      snd (detect seen (clock (world st)) (map Index.annotate raws) th) /\
    errorPosts (trace st') = errorPosts (trace st) /\
    (writeError (world st) = None ->
     seenFile (world st') =
       Some (Readable
               (JSON_stringify
                  (fst (detect seen (clock (world st))
                          (map Index.annotate raws) th))))).
Proof.
  intros Hdir.
  destruct (load_total JSON_parse (world st) Hdir)
    as (seen & w1 & Hl & Hd1 & Hc1 & _ & Hw1).
  destruct (checkMigrations_run JSON_parse JSON_stringify webhook th raws st
              seen w1 Hl Hd1) as (st' & E & Ha & He & Hw).
  destruct (getMigrationsToAlert_run JSON_parse JSON_stringify _ _ _
              (map Index.annotate raws) th Hl Hd1) as (w' & Hrun & _ & Hfile).
  exists seen, st'. split; [rewrite Hl; reflexivity|].
  split; [exact E|]. rewrite <- Hc1. split; [exact Ha|]. split; [exact He|].
  intros Hwe. rewrite Hw, Hrun. cbn [snd]. apply Hfile. congruence.
Qed.

Lemma every_alert_is_requested_witness :
  exists seen st',
    fst (loadSeenMigrations Samples.parseEmpty (world Samples.firstCheck)) = Ok seen /\
    checkMigrations Samples.parseEmpty Samples.stringifyEmpty
      (inr [Examples.tokenX "4m"]) Samples.refusing 30 Samples.firstCheck = (Ok (), st') /\
    alertPosts (trace st') =
      alertPosts (trace Samples.firstCheck) ++
      snd (detect seen (clock (world Samples.firstCheck))
             (map Index.annotate [Examples.tokenX "4m"]) 30).
Proof.
  destruct (every_alert_is_requested Samples.parseEmpty Samples.stringifyEmpty
              [Examples.tokenX "4m"] Samples.refusing 30%Q Samples.firstCheck)
    as (seen & st' & H1 & H2 & H3 & _).
  - right. reflexivity.
  - exists seen, st'. auto.
Defined.

(** X23.  A check that fails before the alerts is reported once.  When
    [scrape] throws [e], or the data directory is missing and can not
    be made because of [e], the check requests no alert, leaves the
    file system as it was and makes exactly one error notification,
    with [e]. *)
Theorem failure_is_reported
    (JSON_parse : string -> string + gmap string Z)
    (JSON_stringify : gmap string Z -> string)
    (scraped : string + list Migration)
    (webhook : list Event -> option string) (th : Q) (st : State)
    (e : string) :
  scraped = inl e \/
  (exists raws, scraped = inr raws) /\
  dataDir (world st) = false /\ mkdirError (world st) = Some e ->
  exists st',
    checkMigrations JSON_parse JSON_stringify scraped webhook th st =
      (Ok (), st') /\
    world st' = world st /\
    alertPosts (trace st') = alertPosts (trace st) /\
    errorPosts (trace st') = errorPosts (trace st) ++ [e].
Proof. apply checkMigrations_failed. Qed.

Lemma failure_is_reported_witness :
  exists st',
    checkMigrations Samples.parseEmpty Samples.stringifyEmpty
      (inl "Navigation timeout"%string) Samples.refusing 30 Samples.firstCheck = (Ok (), st') /\
    world st' = world Samples.firstCheck /\
    alertPosts (trace st') = alertPosts (trace Samples.firstCheck) /\
    errorPosts (trace st') =
      errorPosts (trace Samples.firstCheck) ++ ["Navigation timeout"%string].
Proof.
  apply (failure_is_reported Samples.parseEmpty Samples.stringifyEmpty
           (inl "Navigation timeout"%string) Samples.refusing 30%Q Samples.firstCheck
           "Navigation timeout"%string).
  left. reflexivity.
Defined.

(** X24.  An alert whose request was rejected is not sent again inside
    the cooldown window.  Start without a ledger, with a clock that is
    not zero and writes that go through and can be read back.  Whatever
    the webhook answers in the first check, a second check on the same
    observations less than ten minutes later requests nothing: the
    ledger was written before the requests were made. *)
Theorem failed_sends_are_not_retried
    (JSON_parse : string -> string + gmap string Z)
    (JSON_stringify : gmap string Z -> string)
    (raws : list Migration)
    (webhook1 webhook2 : list Event -> option string) (th : Q)
    (st : State) (now2 : Z) :
  dataDir (world st) = true \/ mkdirError (world st) = None ->
  noLedger JSON_parse (world st) ->
  writeError (world st) = None ->
  JSON_parse
    (JSON_stringify
       (fst (detect ∅ (clock (world st)) (map Index.annotate raws) th))) =
    inr (fst (detect ∅ (clock (world st)) (map Index.annotate raws) th)) ->
  clock (world st) <> 0 ->
  now2 - clock (world st) < cooldownMs ->
  exists st1 st2,
    checkMigrations JSON_parse JSON_stringify (inr raws) webhook1 th st =
      (Ok (), st1) /\
    alertPosts (trace st1) =
      alertPosts (trace st) ++
      snd (detect ∅ (clock (world st)) (map Index.annotate raws) th) /\
    checkMigrations JSON_parse JSON_stringify (inr raws) webhook2 th
      (mkState (atTime now2 (world st1)) (trace st1)) = (Ok (), st2) /\
    alertPosts (trace st2) = alertPosts (trace st1).
Proof.
  intros Hdir Hno Hwe Hround Hnow Hlt.
  destruct (load_noLedger JSON_parse (world st) Hdir Hno) as (w1 & Hl & Hc1 & Hd1).
  assert (Hw1 : writeError w1 = None).
  { rewrite (keeps_writeError_load JSON_parse _ _ _ Hl). exact Hwe. }
  destruct (checkMigrations_run JSON_parse JSON_stringify webhook1 th raws st
              ∅ w1 Hl Hd1) as (st1 & E1 & Ha1 & _ & Hws1).
  destruct (getMigrationsToAlert_run JSON_parse JSON_stringify _ _ _
              (map Index.annotate raws) th Hl Hd1) as (w' & Hrun & Hd' & Hfile).
  rewrite Hrun in Hws1. cbn [snd] in Hws1.
  specialize (Hfile Hw1). rewrite Hc1 in Ha1, Hfile.
  destruct (load_stored JSON_parse (atTime now2 w') _ _ (or_introl Hd') Hfile Hround)
    as (w2 & Hl2 & Hc2 & Hd2).
  destruct (checkMigrations_run JSON_parse JSON_stringify webhook2 th raws
              (mkState (atTime now2 w') (trace st1)) _ w2 Hl2 Hd2)
    as (st2 & E2 & Ha2 & _).
  exists st1, st2. split; [exact E1|]. split; [exact Ha1|].
  rewrite Hws1. split; [exact E2|].
  rewrite Ha2, Hc2. cbn [trace clock atTime].
  rewrite rerun_from_empty by assumption. apply app_nil_r.
Qed.

Lemma failed_sends_are_not_retried_witness :
  exists st1 st2,
    checkMigrations Samples.parseX4 Samples.stringifyEmpty
      (inr [Examples.tokenX "4m"]) Samples.refusing 30 Samples.firstCheck = (Ok (), st1) /\
    alertPosts (trace st1) =
      alertPosts (trace Samples.firstCheck) ++
      snd (detect ∅ (clock (world Samples.firstCheck))
             (map Index.annotate [Examples.tokenX "4m"]) 30) /\
    checkMigrations Samples.parseX4 Samples.stringifyEmpty
      (inr [Examples.tokenX "4m"]) Samples.refusing 30
      (mkState (atTime Examples.T1 (world st1)) (trace st1)) = (Ok (), st2) /\
    alertPosts (trace st2) = alertPosts (trace st1).
Proof.
  apply (failed_sends_are_not_retried Samples.parseX4 Samples.stringifyEmpty
           [Examples.tokenX "4m"] Samples.refusing Samples.refusing 30%Q Samples.firstCheck Examples.T1).
  - right. reflexivity.
  - left. reflexivity.
  - reflexivity.
  - reflexivity.
  - discriminate.
  - vm_compute. reflexivity.
Defined.
